(** * Customer analytics: RFM scoring, CLV, top-N items, validation, ETL driver

    A shallow embedding of [analytics.py], [data_processing.py],
    [data_pipeline.py] and [API_test/weather_service.py].  The first
    three files are thin layers over pandas, so the development starts
    with a model of the pandas calls they make (ranking, quantile
    binning, grouping, sorting), then embeds each source function on top
    of it, and finally states the properties. *)

From Stdlib Require Import String Ascii ZArith QArith Qround Qabs Qreduction Bool List
  DecimalString.
From Stdlib Require Import Lia Lqa Permutation Sorted.
Import ListNotations.

Open Scope string_scope.
Open Scope list_scope.
Open Scope Z_scope.

(* ================================================================== *)
(** ** Python exceptions and the state-and-exception monad            *)
(* ================================================================== *)

Module Py.

Inductive Exception : Type :=
| ValueError (msg : string)
| KeyError (key : string)
| TypeError (msg : string)
| FileNotFoundError (path : string)
| IndexError (msg : string)
| Unmodelled (what : string).   (* a pandas behaviour this development does not describe *)

Inductive Result (A : Type) : Type :=
| Ok (a : A)
| Raise (e : Exception).
Arguments Ok {A} a.
Arguments Raise {A} e.

(** A computation over a mutable state [S] that may raise.  The state
    reached when an exception is raised is kept: Python does not roll
    back the mutations done before the [raise]. *)
Definition Prog (S A : Type) : Type := S -> Result A * S.

Definition ret {S A} (a : A) : Prog S A := fun s => (Ok a, s).

Definition bind {S A B} (m : Prog S A) (k : A -> Prog S B) : Prog S B :=
  fun s => match m s with
           | (Ok a, s') => k a s'
           | (Raise e, s') => (Raise e, s')
           end.

Definition raise {S A} (e : Exception) : Prog S A := fun s => (Raise e, s).

Definition lift {S A} (r : Result A) : Prog S A := fun s => (r, s).

Definition get {S} : Prog S S := fun s => (Ok s, s).

(** [try: body / except ValueError: handler]. *)
Definition try_except_ValueError {S A} (body handler : Prog S A) : Prog S A :=
  fun s => match body s with
           | (Raise (ValueError _), s') => handler s'
           | r => r
           end.

(** [try: body / except FileNotFoundError: handler]. *)
Definition try_except_FileNotFoundError {S A} (body handler : Prog S A) : Prog S A :=
  fun s => match body s with
           | (Raise (FileNotFoundError _), s') => handler s'
           | r => r
           end.

(** [for x in xs: body x]. *)
Fixpoint for_each {S A} (xs : list A) (body : A -> Prog S unit) : Prog S unit :=
  match xs with
  | [] => ret tt
  | x :: xs' => bind (body x) (fun _ => for_each xs' body)
  end.

Module Notations.
Notation "x <- m ;; k" := (bind m (fun x => k))
  (at level 61, m at next level, right associativity).
Notation "m ;;; k" := (bind m (fun _ => k))
  (at level 61, right associativity).
End Notations.

(** *** The object heap

    Python variables hold references.  A heap is the list of the objects
    allocated so far; a reference is an index into it. *)
Definition loc := nat.

Section Heap.
Context {Obj : Type}.

Definition Heap := list Obj.

Fixpoint update (l : loc) (o : Obj) (h : Heap) : Heap :=
  match h, l with
  | [], _ => []
  | _ :: h', O => o :: h'
  | x :: h', S l' => x :: update l' o h'
  end.

Definition alloc (o : Obj) : Prog Heap loc :=
  fun h => (Ok (length h), h ++ [o]).

Definition load (l : loc) : Prog Heap Obj :=
  fun h => match nth_error h l with
           | Some o => (Ok o, h)
           | None => (Raise (TypeError "dangling reference"), h)
           end.

Definition store (l : loc) (o : Obj) : Prog Heap unit :=
  fun h => (Ok tt, update l o h).
End Heap.
Arguments Heap Obj : clear implicits.

End Py.

(* ================================================================== *)
(** ** The pandas calls used by the program                           *)
(* ================================================================== *)

Module Pandas.
Import Py.

(** *** Sorting

    A stable insertion sort.  It orders group keys (which are distinct),
    the sample inside [quantile], and it is the stable instance of
    [sort_values].  [leb x y] means that [x] may stand before [y]. *)
Section Sort.
Context {A : Type} (leb : A -> A -> bool).

Fixpoint insert_sorted (x : A) (l : list A) : list A :=
  match l with
  | [] => [x]
  | y :: l' => if leb x y then x :: l else y :: insert_sorted x l'
  end.

Definition sort (l : list A) : list A := fold_right insert_sorted [] l.
End Sort.

(** [Series.sort_values(ascending=False)] and
    [DataFrame.sort_values(by=..., ascending=False)] are called with the
    default [kind='quicksort'], which pandas documents as not stable: the
    result is some rearrangement of the rows in which the keys never
    increase, and nothing is promised about rows with equal keys.  The
    functions that sort take the sorting routine as a parameter satisfying
    this contract. *)
Definition SortValues : Type := forall A : Type, (A -> Q) -> list A -> list A.

Definition descending {A : Type} (key : A -> Q) : list A -> Prop :=
  Sorted (fun a b => (key b <= key a)%Q).

Record sort_values_contract (sort_values : SortValues) : Prop := {
  sort_values_perm :
    forall A (key : A -> Q) l, Permutation l (sort_values A key l);
  sort_values_desc :
    forall A (key : A -> Q) l, descending key (sort_values A key l)
}.

(** The stable instance ([kind='stable']): ties keep their input order. *)
Definition sort_values_stable : SortValues :=
  fun A key => sort (fun a b => Qle_bool (key b) (key a)).

(** *** float64 values

    A float64 is a rational (the value of the double), an infinity or
    NaN.  [round64] rounds to the nearest double, ties to even: 53 bits
    of mantissa, exponents from -1074 to 971, and a result of 2^1024 or
    more is an infinity.  Zeros carry no sign: the only division by zero
    in this development divides by an int64 count. *)
Inductive float64 : Type :=
| Finite (q : Q)
| Infinite (negative : bool)
| NaN64.

Definition is_nan (x : float64) : bool :=
  match x with NaN64 => true | _ => false end.

(** The integer part of the base-2 logarithm of a positive rational. *)
Definition Qlog2 (q : Q) : Z :=
  let n := Qnum q in
  let d := Zpos (Qden q) in
  let k := Z.log2 n - Z.log2 d in
  if d * 2 ^ Z.max 0 k <=? n * 2 ^ Z.max 0 (- k) then k else k - 1.

Definition pow2 (e : Z) : Q :=
  if e <? 0 then 1 # Z.to_pos (2 ^ (- e)) else inject_Z (2 ^ e).

Definition round_half_even (q : Q) : Z :=
  let f := Qfloor q in
  match Qcompare (q - inject_Z f) (1 # 2) with
  | Lt => f
  | Gt => f + 1
  | Eq => if Z.even f then f else f + 1
  end.

Definition round64 (q : Q) : float64 :=
  let q := Qred q in
  if Qeq_bool q 0 then Finite 0
  else
    let a := Qabs q in
    let e := Z.max (Qlog2 a - 52) (-1074) in
    let m := round_half_even (a / pow2 e) in
    let v := Qred (inject_Z m * pow2 e) in
    if Qle_bool (pow2 1024) v then Infinite (negb (Qle_bool 0 q))
    else Finite (if Qle_bool 0 q then v else Qopp v).

(** An int64 converted to float64. *)
Definition of_int64 (z : Z) : float64 := round64 (inject_Z z).

Definition Qnegative (q : Q) : bool := negb (Qle_bool 0 q).

(** [x / y] on float64. *)
Definition fdiv (x y : float64) : float64 :=
  match x, y with
  | NaN64, _ | _, NaN64 => NaN64
  | Infinite _, Infinite _ => NaN64
  | Infinite s, Finite b => Infinite (xorb s (Qnegative b))
  | Finite _, Infinite _ => Finite 0
  | Finite a, Finite b =>
    if Qeq_bool b 0 then
      if Qeq_bool a 0 then NaN64 else Infinite (Qnegative a)
    else round64 (a / b)
  end.

(** [x * y] on float64. *)
Definition fmul (x y : float64) : float64 :=
  match x, y with
  | NaN64, _ | _, NaN64 => NaN64
  | Infinite s, Infinite t => Infinite (xorb s t)
  | Infinite s, Finite b | Finite b, Infinite s =>
    if Qeq_bool b 0 then NaN64 else Infinite (xorb s (Qnegative b))
  | Finite a, Finite b => round64 (a * b)
  end.

(** [x + y] on float64. *)
Definition fadd (x y : float64) : float64 :=
  match x, y with
  | NaN64, _ | _, NaN64 => NaN64
  | Infinite s, Infinite t => if Bool.eqb s t then Infinite s else NaN64
  | Infinite s, Finite _ | Finite _, Infinite s => Infinite s
  | Finite a, Finite b => round64 (a + b)
  end.

(** The cells of a float64 column added one after the other, each cell
    being the double nearest to its decimal: one summation a kernel may
    implement, used to run the examples. *)
Definition sum_left_to_right (l : list Q) : float64 :=
  fold_left (fun acc q => fadd acc (round64 q)) l (Finite 0).

(** [x <= y] on float64; false as soon as one side is NaN. *)
Definition f64_leb (x y : float64) : bool :=
  match x, y with
  | NaN64, _ | _, NaN64 => false
  | Infinite true, _ => true
  | _, Infinite false => true
  | Finite a, Finite b => Qle_bool a b
  | _, _ => false
  end.

(** Equality of doubles by value. *)
Definition f64_eq (x y : float64) : Prop :=
  match x, y with
  | Finite a, Finite b => (a == b)%Q
  | Infinite s, Infinite t => s = t
  | NaN64, NaN64 => True
  | _, _ => False
  end.

(** [DataFrame.sort_values(by=..., ascending=False)] on a float64
    column that may hold NaN: the rows whose key is NaN come last
    ([na_position='last']), and before them the keys never increase.
    As above the routine is a parameter bound by this contract. *)
Definition SortFloats : Type := forall A : Type, (A -> float64) -> list A -> list A.

Definition may_precede {A : Type} (key : A -> float64) (a b : A) : Prop :=
  is_nan (key b) = true \/ f64_leb (key b) (key a) = true.

Definition descending_nan_last {A : Type} (key : A -> float64) : list A -> Prop :=
  Sorted (may_precede key).

Record sort_floats_contract (sort_floats : SortFloats) : Prop := {
  sort_floats_perm :
    forall A (key : A -> float64) l, Permutation l (sort_floats A key l);
  sort_floats_desc :
    forall A (key : A -> float64) l, descending_nan_last key (sort_floats A key l)
}.

(** The stable instance. *)
Definition sort_floats_stable : SortFloats :=
  fun A key =>
    sort (fun a b => is_nan (key b) || f64_leb (key b) (key a)).

(** [Series.head(n)]: the first [n] rows, or all but the last [-n] rows
    when [n] is negative. *)
Definition head {A : Type} (n : Z) (l : list A) : list A :=
  if n <? 0 then firstn (length l - Z.to_nat (- n)) l
  else firstn (Z.to_nat n) l.

(** *** Ranking: [Series.rank(method='first')]

    The rank of a value is its 1-based position in a stable increasing
    sort: one, plus the number of strictly smaller values, plus the number
    of equal values that occur earlier in the series. *)
Definition Qltb (a b : Q) : bool := negb (Qle_bool b a).

Definition count {A : Type} (p : A -> bool) (l : list A) : Z :=
  Z.of_nat (length (filter p l)).

Section Rank.
Context {A : Type} (ltb : A -> A -> bool).

Definition tied (x y : A) : bool := negb (ltb x y) && negb (ltb y x).

Definition rank_at (all : list A) (i : nat) (x : A) : Z :=
  1 + count (fun y => ltb y x) all + count (fun y => tied y x) (firstn i all).

Definition rank_first (l : list A) : list Z :=
  map (fun ix => rank_at l (fst ix) (snd ix)) (combine (seq 0 (length l)) l).
End Rank.

(** *** Quantile binning: [pd.qcut(x, q, labels)]

    [x] holds ranks: pandas stores them as float64, but they are whole
    numbers, and the quantile positions [k/4 * (n-1)] and the linear
    interpolation are exact on them, so the edges are computed in [Q]. *)

(** [Series.quantile] with linear interpolation, on the sorted sample. *)
Definition quantile (sorted : list Z) (q : Q) : Q :=
  let n := Z.of_nat (length sorted) in
  let pos := (q * inject_Z (n - 1))%Q in
  let lo := Qfloor pos in
  let hi := Z.min (lo + 1) (n - 1) in
  let a := nth (Z.to_nat lo) sorted 0 in
  let b := nth (Z.to_nat hi) sorted 0 in
  (inject_Z a + inject_Z (b - a) * (pos - inject_Z lo))%Q.

(** [np.linspace(0, 1, q + 1)]. *)
Definition linspace01 (q : nat) : list Q :=
  map (fun k => (inject_Z (Z.of_nat k) / inject_Z (Z.of_nat q))%Q) (seq 0 (S q)).

Fixpoint all_distinct (bins : list Q) : bool :=
  match bins with
  | [] => true
  | b :: rest => negb (existsb (Qeq_bool b) rest) && all_distinct rest
  end.

(** [bins.searchsorted(v, side='left')] on increasing edges: the number
    of edges strictly below [v]. *)
Definition searchsorted_left (bins : list Q) (v : Q) : nat :=
  length (filter (fun b => Qltb b v) bins).

(** The 1-based bin of [v]; [include_lowest=True] puts the lowest edge
    itself into the first bin. *)
Definition bin_id (bins : list Q) (v : Z) : nat :=
  if Qeq_bool (inject_Z v) (hd 0%Q bins) then 1%nat
  else searchsorted_left bins (inject_Z v).

(** The categorical result: [None] is a NaN entry (a value outside every
    bin). *)
Definition qcut (x : list Z) (q : nat) (labels : list Z)
  : Result (list (option Z)) :=
  match x with
  | [] => Raise (ValueError "Bin edges must be unique")   (* all edges NaN *)
  | _ =>
    let bins := map (quantile (sort Z.leb x)) (linspace01 q) in
    if negb (all_distinct bins) && negb (length bins =? 2)%nat then
      Raise (ValueError "Bin edges must be unique")
    else if negb (length labels =? length bins - 1)%nat then
      Raise (ValueError "Bin labels must be one fewer than the number of bin edges")
    else
      Ok (map (fun v =>
                 let id := bin_id bins v in
                 if (id =? 0)%nat || (id =? length bins)%nat then None
                 else nth_error labels (id - 1))
              x)
  end.

(** [.astype(int)] on the categorical: NaN cannot be converted. *)
Fixpoint astype_int (c : list (option Z)) : Result (list Z) :=
  match c with
  | [] => Ok []
  | None :: _ => Raise (ValueError "Cannot convert float NaN to integer")
  | Some z :: c' =>
    match astype_int c' with
    | Ok l => Ok (z :: l)
    | Raise e => Raise e
    end
  end.

(** *** Grouping: [df.groupby(key)]

    Rows whose key is null are dropped ([dropna=True]); the groups come
    out by increasing key ([sort=True]); inside a group the rows keep
    their order. *)
Section GroupBy.
Context {K A : Type} (eqb leb : K -> K -> bool) (key : A -> option K).

(** [Series.unique()]: the distinct values by first occurrence. *)
Fixpoint unique (l : list K) : list K :=
  match l with
  | [] => []
  | x :: l' => x :: filter (fun y => negb (eqb y x)) (unique l')
  end.

Definition has_key (k : K) (r : A) : bool :=
  match key r with
  | Some k' => eqb k' k
  | None => false
  end.

Definition keys (rows : list A) : list K :=
  flat_map (fun r => match key r with Some k => [k] | None => [] end) rows.

Definition groupby (rows : list A) : list (K * list A) :=
  map (fun k => (k, filter (has_key k) rows)) (sort leb (unique (keys rows))).
End GroupBy.

(** [Series.nunique()] on a column without nulls. *)
Definition nunique (l : list string) : Z :=
  Z.of_nat (length (unique String.eqb l)).

(** *** Numbers and columns *)

(** int64 arithmetic wraps around silently. *)
Definition int64 (z : Z) : Z := (z + 2 ^ 63) mod 2 ^ 64 - 2 ^ 63.

Definition sum_int64 (l : list Z) : Z :=
  fold_left (fun acc z => int64 (acc + z)) l 0.

(** The sum of the float64 cells of a group, taken in [Q] without the
    rounding.  It fills the MonetaryValue column of [calculate_rfm], of
    which the statements below use the dtype and the order of the cells
    of the table, never a value; where a value is stated
    ([calculate_clv], [get_geographic_distribution], the pipeline), the
    summation is a parameter instead. *)
Definition sum_float (l : list Q) : Q :=
  fold_left Qplus l 0%Q.

Inductive Number : Type :=
| Int (z : Z)
| Float (q : Q).

Definition is_int (x : Number) : bool :=
  match x with Int _ => true | Float _ => false end.

Definition to_Z (x : Number) : Z :=
  match x with Int z => z | Float q => Qfloor q end.

Definition to_Q (x : Number) : Q :=
  match x with Int z => inject_Z z | Float q => q end.

Inductive Column : Type :=
| IntCol (v : list Z)          (* dtype int64 *)
| FloatCol (v : list Q)        (* dtype float64 *)
| StrCol (v : list string)     (* dtype object *)
| NaNCol (v : list (option Q)). (* dtype float64, [None] is a NaN cell *)

(** The cells that are not missing ([dropna]). *)
Definition somes {A : Type} (l : list (option A)) : list A :=
  flat_map (fun x => match x with Some a => [a] | None => [] end) l.

(** The results [ys], computed for the cells of [x] that are not
    missing, put back at their places; a missing cell stays missing. *)
Fixpoint spread {A B : Type} (x : list (option A)) (ys : list (option B))
  : list (option B) :=
  match x with
  | [] => []
  | None :: x' => None :: spread x' ys
  | Some _ :: x' =>
    match ys with
    | y :: ys' => y :: spread x' ys'
    | [] => None :: spread x' []
    end
  end.

(** The dtype of a column of numbers: int64 when every cell is an
    integer, float64 (integers converted) otherwise. *)
Definition number_column_is_int (cells : list Number) : bool :=
  forallb is_int cells.

(** [Series.rank(method='first')] by dtype: the ranks of the cells that
    are not NaN. *)
Definition rank (c : Column) : list Z :=
  match c with
  | IntCol v => rank_first Z.ltb v
  | FloatCol v => rank_first Qltb v
  | StrCol v => rank_first String.ltb v
  | NaNCol v => rank_first Qltb (somes v)
  end.

(** The ranks as the Series pandas returns: the rank of a NaN cell is
    NaN ([na_option='keep']). *)
Definition rank_series (c : Column) : list (option Z) :=
  match c with
  | NaNCol v => spread v (map Some (rank c))
  | _ => map Some (rank c)
  end.

(** [pd.qcut] on a Series that may hold NaN: the bin edges are the
    quantiles of the cells that are not NaN, and a NaN cell falls into no
    bin. *)
Definition qcut_series (x : list (option Z)) (q : nat) (labels : list Z)
  : Result (list (option Z)) :=
  match qcut (somes x) q labels with
  | Ok cat => Ok (spread x cat)
  | Raise e => Raise e
  end.

Definition column_length (c : Column) : nat :=
  match c with
  | IntCol v => length v
  | FloatCol v => length v
  | StrCol v => length v
  | NaNCol v => length v
  end.

Definition is_nan_column (c : Column) : bool :=
  match c with NaNCol _ => true | _ => false end.

(** *** Frames: an index and named, typed columns in order *)
Record Frame : Type := {
  index : list Z;
  columns : list (string * Column)
}.

Fixpoint lookup (name : string) (cols : list (string * Column)) : option Column :=
  match cols with
  | [] => None
  | (n, c) :: cols' => if String.eqb n name then Some c else lookup name cols'
  end.

(** [frame[name]]. *)
Definition getitem (name : string) (f : Frame) : Result Column :=
  match lookup name (columns f) with
  | Some c => Ok c
  | None => Raise (KeyError name)
  end.

Fixpoint set_column (name : string) (c : Column) (cols : list (string * Column))
  : list (string * Column) :=
  match cols with
  | [] => [(name, c)]
  | (n, c') :: cols' =>
    if String.eqb n name then (n, c) :: cols'
    else (n, c') :: set_column name c cols'
  end.

(** [frame[name] = column]: replaces the column, or appends a new one. *)
Definition setitem (name : string) (c : Column) (f : Frame) : Frame :=
  {| index := index f; columns := set_column name c (columns f) |}.

(** [frame.rename(columns=mapping)]. *)
Definition rename (mapping : list (string * string)) (f : Frame) : Frame :=
  {| index := index f;
     columns := map (fun nc =>
                       match find (fun m => String.eqb (fst m) (fst nc)) mapping with
                       | Some m => (snd m, snd nc)
                       | None => nc
                       end) (columns f) |}.

End Pandas.

(* ================================================================== *)
(** ** analytics.py                                                   *)
(* ================================================================== *)

Module Analytics.
Import Py Pandas Py.Notations.

(** One row of the cleaned and transformed transaction table.
    [InvoiceDate] is a datetime64 value, in nanoseconds, or NaT ([None]):
    [transform_data] turns an empty date cell into NaT and [clean_data]
    keeps the row.  [InvoiceNo], [CustomerID], [Description] and
    [Country] may be null. *)
Record Transaction : Type := {
  InvoiceNo : option string;
  StockCode : string;
  Description : option string;
  Quantity : Z;
  InvoiceDate : option Z;
  UnitPrice : Number;
  CustomerID : option Z;
  Country : option string;
  TotalPrice : Number
}.

(** A cell of the column total_revenue: int64 when every line total is
    an integer, float64 otherwise. *)
Inductive Revenue : Type :=
| IntRevenue (z : Z)
| FloatRevenue (x : float64).

Definition revenue_value (r : Revenue) : float64 :=
  match r with
  | IntRevenue z => of_int64 z
  | FloatRevenue x => x
  end.

(** One row of the table returned by [calculate_clv].  A date is NaT and
    the lifespan NaN ([None]) for a customer none of whose rows has a
    date. *)
Record CLVRecord : Type := {
  clv_customer : Z;
  total_transactions : Z;
  total_products : Z;
  total_revenue : Revenue;
  first_purchase_date : option Z;
  last_purchase_date : option Z;
  purchase_lifespan : option Z;
  avg_order_value : float64;
  purchase_frequency : float64;
  clv : float64
}.

(** The objects the functions of this file receive and return. *)
Inductive Object : Type :=
| Transactions (rows : list Transaction)
| Table (f : Frame)
| CLVTable (rows : list CLVRecord)
| Series (items : list (string * Z)).

Definition State : Type := Heap Object.

(** [timedelta(days=1)], in nanoseconds. *)
Definition one_day : Z := 86400 * 10 ^ 9.

(** [Series.max()] over the cells that are not NaT; [None] is NaT, the
    maximum of a column without any date. *)
Definition series_max (l : list Z) : option Z :=
  match l with
  | [] => None
  | x :: l' => Some (fold_left Z.max l' x)
  end.

Definition series_min (l : list Z) : option Z :=
  match l with
  | [] => None
  | x :: l' => Some (fold_left Z.min l' x)
  end.

(** [(a - b).days]: whole days, rounded down; NaN ([None]) as soon as
    one of the two dates is NaT. *)
Definition days_between (a b : option Z) : option Z :=
  match a, b with
  | Some a, Some b => Some ((a - b) / one_day)
  | _, _ => None
  end.

Definition is_some {A : Type} (x : option A) : bool :=
  match x with Some _ => true | None => false end.

(** A column of day counts: int64 when every cell has a value, float64
    with NaN cells otherwise. *)
Definition days_column (cells : list (option Z)) : Column :=
  if forallb is_some cells then IntCol (somes cells)
  else NaNCol (map (option_map inject_Z) cells).

(** The dates of a group of rows that are not NaT. *)
Definition dates (rows : list Transaction) : list Z :=
  somes (map InvoiceDate rows).

(** The invoice numbers of a group of rows that are not null. *)
Definition invoices (rows : list Transaction) : list string :=
  somes (map InvoiceNo rows).

(** A transaction table passed where a frame of another kind is expected
    has none of the columns asked for. *)
Definition load_transactions (df : loc) : Prog State (list Transaction) :=
  o <- load df ;;
  match o with
  | Transactions rows => ret rows
  | _ => raise (KeyError "InvoiceDate")
  end.

Definition load_table (t : loc) : Prog State Frame :=
  o <- load t ;;
  match o with
  | Table f => ret f
  | _ => raise (TypeError "not a DataFrame of columns")
  end.

(** [.agg({... 'TotalPrice': 'sum'})] and [('TotalPrice', 'sum')]: the
    sums keep the dtype of the column. *)
Definition sum_TotalPrice (all : list Transaction) (groups : list (Z * list Transaction))
  : Column :=
  if number_column_is_int (map TotalPrice all) then
    IntCol (map (fun g => sum_int64 (map (fun r => to_Z (TotalPrice r)) (snd g))) groups)
  else
    FloatCol (map (fun g => sum_float (map (fun r => to_Q (TotalPrice r)) (snd g))) groups).

(** [df.groupby('CustomerID').agg({...})] of [calculate_rfm]. *)
Definition agg_rfm (snapshot_date : option Z) (rows : list Transaction) : Frame :=
  let groups := groupby Z.eqb Z.leb CustomerID rows in
  {| index := map fst groups;
     columns :=
       [ ("InvoiceDate",
          days_column (map (fun g => days_between snapshot_date
                                       (series_max (dates (snd g)))) groups));
         ("InvoiceNo",
          IntCol (map (fun g => nunique (invoices (snd g))) groups));
         ("TotalPrice", sum_TotalPrice rows groups) ] |}.

(** [str(int)]. *)
Definition str_int (z : Z) : string := NilZero.string_of_int (Z.to_int z).

(** [DataFrame.apply(f, axis=1)] hands [f] one Series per row.  A Series
    has a single dtype, the common dtype of the columns of the frame:
    object as soon as one column holds strings, else float64 as soon as
    one column is float64, else int64.  In a float64 row an int64 cell
    [4] is the float [4.0]. *)
Inductive RowDtype : Type := RowInt | RowFloat | RowObject.

Definition is_str_column (c : Column) : bool :=
  match c with StrCol _ => true | _ => false end.

Definition is_float_column (c : Column) : bool :=
  match c with FloatCol _ | NaNCol _ => true | _ => false end.

Definition row_dtype (f : Frame) : RowDtype :=
  if existsb (fun nc => is_str_column (snd nc)) (columns f) then RowObject
  else if existsb (fun nc => is_float_column (snd nc)) (columns f) then RowFloat
  else RowInt.

(** [str(x[name])] for an int64 column [name], in a row of dtype [dt].
    The repr of a whole float below 1e16 is its digits followed by
    [".0"]. *)
Definition str_cell (dt : RowDtype) (z : Z) : string :=
  match dt with
  | RowFloat => (str_int z ++ ".0")%string
  | _ => str_int z
  end.

(** The cells of an int64 column.  The score columns are the only ones
    read row by row, and they are int64; how pandas renders or adds cells
    of other dtypes is not described here. *)
Definition int_values (name : string) (f : Frame) : Result (list Z) :=
  match getitem name f with
  | Ok (IntCol v) => Ok v
  | Ok _ => Raise (Unmodelled "row-wise access to a column that is not int64")
  | Raise e => Raise e
  end.

Fixpoint zip3 {A B C D : Type} (f : A -> B -> C -> D)
         (a : list A) (b : list B) (c : list C) : list D :=
  match a, b, c with
  | x :: a', y :: b', z :: c' => f x y z :: zip3 f a' b' c'
  | _, _, _ => []
  end.

(** One round of the loop of [calculate_rfm]: the [try] block and its
    [except ValueError] handler, for the column [col] and its labels. *)
Definition score_metric (rfm : loc) (col : string) (labels : list Z) : Prog State unit :=
  try_except_ValueError
    (t <- load_table rfm ;;
     c <- lift (getitem col t) ;;
     cat <- lift (qcut_series (rank_series c) 4 labels) ;;
     scores <- lift (astype_int cat) ;;
     store rfm (Table (setitem (substring 0 1 col) (IntCol scores) t)))
    (t <- load_table rfm ;;
     store rfm (Table (setitem (substring 0 1 col)
                               (IntCol (repeat 2 (length (index t)))) t))).

Definition calculate_rfm (df : loc) : Prog State loc :=
  rows <- load_transactions df ;;
  let snapshot_date :=
    option_map (fun m => m + one_day) (series_max (dates rows)) in
  rfm <- alloc (Table (agg_rfm snapshot_date rows)) ;;
  (t <- load_table rfm ;;
   store rfm (Table (rename [("InvoiceDate", "Recency");
                             ("InvoiceNo", "Frequency");
                             ("TotalPrice", "MonetaryValue")] t))) ;;;
  for_each [("Recency", [4; 3; 2; 1]);          (* range(4, 0, -1) *)
            ("Frequency", [1; 2; 3; 4]);        (* range(1, 5) *)
            ("MonetaryValue", [1; 2; 3; 4])]    (* range(1, 5) *)
           (fun cl => score_metric rfm (fst cl) (snd cl)) ;;;
  (t <- load_table rfm ;;
   r <- lift (int_values "R" t) ;;
   f <- lift (int_values "F" t) ;;
   m <- lift (int_values "M" t) ;;
   let dt := row_dtype t in
   store rfm (Table (setitem "RFM_Segment"
                (StrCol (zip3 (fun r f m => (str_cell dt r ++ str_cell dt f ++ str_cell dt m)%string)
                              r f m)) t))) ;;;
  (t <- load_table rfm ;;
   r <- lift (int_values "R" t) ;;
   f <- lift (int_values "F" t) ;;
   m <- lift (int_values "M" t) ;;
   store rfm (Table (setitem "RFM_Score"
                (IntCol (zip3 (fun r f m => sum_int64 [r; f; m]) r f m)) t))) ;;;
  ret rfm.

(** The row handed to [get_rfm_segment_meaning]. *)
Record ScoreRow : Type := { R : Z; F : Z; M : Z }.

Definition get_rfm_segment_meaning (row : ScoreRow) : string :=
  if (R row >=? 4) && (F row >=? 4) && (M row >=? 4) then "Best Customers"
  else if (R row >=? 3) && (F row >=? 3) then "Loyal Customers"
  else if (R row >=? 3) && (M row >=? 3) then "Big Spenders"
  else if (R row <=? 2) && (F row <=? 2) then "At Risk"
  else if R row <=? 2 then "Needs Attention"
  else "Others".

(** One row of the aggregate of [calculate_clv], with the four derived
    columns.  [float_sum] is the value [groupby(...).sum()] gives for a
    float64 column: the summation kernel of pandas is not part of this
    program and is left open.  The lifespan plus one is a whole number
    of days, exact in float64. *)
Definition clv_record (float_sum : list Q -> float64) (revenue_is_int : bool)
           (g : Z * list Transaction) : CLVRecord :=
  let rows := snd g in
  let total_transactions := nunique (invoices rows) in
  let total_products := sum_int64 (map Quantity rows) in
  let total_revenue :=
    if revenue_is_int
    then IntRevenue (sum_int64 (map (fun r => to_Z (TotalPrice r)) rows))
    else FloatRevenue (float_sum (map (fun r => to_Q (TotalPrice r)) rows)) in
  let first_purchase_date := series_min (dates rows) in
  let last_purchase_date := series_max (dates rows) in
  let purchase_lifespan := days_between last_purchase_date first_purchase_date in
  let avg_order_value :=
    fdiv (revenue_value total_revenue) (of_int64 total_transactions) in
  let purchase_frequency :=
    match purchase_lifespan with
    | Some days => fdiv (of_int64 total_transactions) (of_int64 (days + 1))
    | None => NaN64
    end in
  {| clv_customer := fst g;
     total_transactions := total_transactions;
     total_products := total_products;
     total_revenue := total_revenue;
     first_purchase_date := first_purchase_date;
     last_purchase_date := last_purchase_date;
     purchase_lifespan := purchase_lifespan;
     avg_order_value := avg_order_value;
     purchase_frequency := purchase_frequency;
     clv := fmul (fmul avg_order_value purchase_frequency) (of_int64 365) |}.

Section CLV.
Variable sort_floats : SortFloats.
Variable float_sum : list Q -> float64.

Definition calculate_clv (df : loc) : Prog State loc :=
  rows <- load_transactions df ;;
  let clv_df :=
    map (clv_record float_sum (number_column_is_int (map TotalPrice rows)))
        (groupby Z.eqb Z.leb CustomerID rows) in
  alloc (CLVTable (sort_floats _ clv clv_df)).
End CLV.

(** [top_n=10] when the caller leaves the argument out. *)
Definition top_n_default : Z := 10.

Section Sorting.
Variable sort_values : SortValues.

(** [df.groupby('Description')['Quantity'].sum()]. *)
Definition quantity_by_description (rows : list Transaction) : list (string * Z) :=
  map (fun g => (fst g, sum_int64 (map Quantity (snd g))))
      (groupby String.eqb String.leb Description rows).

Definition get_top_products (df : loc) (top_n : option Z) : Prog State loc :=
  let top_n := match top_n with Some n => n | None => top_n_default end in
  rows <- load_transactions df ;;
  alloc (Series (head top_n
                   (sort_values _ (fun item => inject_Z (snd item))
                                (quantity_by_description rows)))).
End Sorting.

End Analytics.

(* ================================================================== *)
(** ** data_processing.py                                             *)
(* ================================================================== *)

Module DataProcessing.
Import Py Pandas Py.Notations.

(** A cell of the table read from the CSV file. *)
Inductive Cell : Type :=
| NaN
| IntCell (z : Z)
| FloatCell (q : Q)
| StrCell (s : string).

Definition isna (c : Cell) : bool :=
  match c with NaN => true | _ => false end.

(** Equality of cells as [drop_duplicates] sees it: by value (in an
    object column the int [1] and the float [1.0] are the same value),
    and two missing cells are equal. *)
Definition cell_eqb (a b : Cell) : bool :=
  match a, b with
  | NaN, NaN => true
  | IntCell x, IntCell y => x =? y
  | FloatCell x, FloatCell y => Qeq_bool x y
  | IntCell x, FloatCell y => Qeq_bool (inject_Z x) y
  | FloatCell x, IntCell y => Qeq_bool x (inject_Z y)
  | StrCell x, StrCell y => String.eqb x y
  | _, _ => false
  end.

Fixpoint row_eqb (a b : list Cell) : bool :=
  match a, b with
  | [], [] => true
  | x :: a', y :: b' => cell_eqb x y && row_eqb a' b'
  | _, _ => false
  end.

Record DataFrame : Type := {
  columns : list string;
  rows : list (list Cell)
}.

Definition State : Type := Heap DataFrame.

Fixpoint column_position (name : string) (cols : list string) : option nat :=
  match cols with
  | [] => None
  | c :: cols' =>
    if String.eqb c name then Some O
    else option_map S (column_position name cols')
  end.

(** [df.dropna(subset=[name], inplace=True)]. *)
Definition dropna_inplace (df : loc) (name : string) : Prog State unit :=
  d <- load df ;;
  match column_position name (columns d) with
  | None => raise (KeyError name)
  | Some i =>
    store df {| columns := columns d;
                rows := filter (fun r => negb (isna (nth i r NaN))) (rows d) |}
  end.

(** [df.drop_duplicates(inplace=True)]: of equal rows the first stays. *)
Definition drop_duplicates_inplace (df : loc) : Prog State unit :=
  d <- load df ;;
  store df {| columns := columns d; rows := unique row_eqb (rows d) |}.

Definition clean_data (df : loc) : Prog State loc :=
  dropna_inplace df "CustomerID" ;;;
  drop_duplicates_inplace df ;;;
  ret df.

Definition required_columns : list string :=
  ["InvoiceNo"; "StockCode"; "Description"; "Quantity";
   "InvoiceDate"; "UnitPrice"; "CustomerID"; "Country"].

(** [col in df.columns]. *)
Definition contains (cols : list string) (col : string) : bool :=
  existsb (String.eqb col) cols.

Definition validate_data (df : loc) : Prog State (list string) :=
  d <- load df ;;
  let missing_columns :=
    filter (fun col => negb (contains (columns d) col)) required_columns in
  ret missing_columns.

End DataProcessing.

(* ================================================================== *)
(** ** data_pipeline.py                                               *)
(* ================================================================== *)

Module DataPipeline.
Import Py Pandas Py.Notations.

Record SalesRow : Type := {
  date : option string;
  product_id : Z;
  quantity : option Q;
  revenue : option Q
}.

(** The messages the driver logs. *)
Inductive Message : Type :=
| StartingPipeline
| ReadingData (file_path : string) (chunk_size : Z)
| FileNotFound (file_path : string)
| CleaningChunk
| ChunkCleaningComplete
| ProcessingChunks
| AllChunksProcessed
| GeneratingInsights
| Top10Products (insights : list (Z * Q))
| CreatingVisualisation
| VisualisationSaved (output_path : string)
| DataStored (db_file : string)
| PipelineFinished.

Inductive Level : Type := INFO | ERROR.

(** The mutations of the relational sink. *)
Inductive SinkOp : Type :=
| DropTableIfExists (table : string)
| Append (table : string) (rows : list SalesRow).

(** What the driver can see and change: the files on disk (the rows of
    each CSV file), the log, the tables of the database with the history
    of the statements run on it, and the figures saved. *)
Record World : Type := {
  files : string -> option (list SalesRow);
  log : list (Level * Message);
  tables : list (string * list SalesRow);
  sink_ops : list SinkOp;
  figures : list (string * list (Z * Q))
}.

Definition logging (lvl : Level) (msg : Message) : Prog World unit :=
  fun w => (Ok tt, {| files := files w; log := log w ++ [(lvl, msg)];
                      tables := tables w; sink_ops := sink_ops w;
                      figures := figures w |}).

Definition drop_table (name : string) (ts : list (string * list SalesRow))
  : list (string * list SalesRow) :=
  filter (fun t => negb (String.eqb (fst t) name)) ts.

Fixpoint append_table (name : string) (rows : list SalesRow)
         (ts : list (string * list SalesRow)) : list (string * list SalesRow) :=
  match ts with
  | [] => [(name, rows)]
  | (n, old) :: ts' =>
    if String.eqb n name then (n, old ++ rows) :: ts'
    else (n, old) :: append_table name rows ts'
  end.

Definition run_sink (op : SinkOp) : Prog World unit :=
  fun w => (Ok tt,
            {| files := files w; log := log w;
               tables := match op with
                         | DropTableIfExists t => drop_table t (tables w)
                         | Append t rows => append_table t rows (tables w)
                         end;
               sink_ops := sink_ops w ++ [op];
               figures := figures w |}).

Definition savefig (output_path : string) (insights : list (Z * Q)) : Prog World unit :=
  fun w => (Ok tt, {| files := files w; log := log w; tables := tables w;
                      sink_ops := sink_ops w;
                      figures := figures w ++ [(output_path, insights)] |}).

(** The chunks a [TextFileReader] yields. *)
Fixpoint chunks_fuel (fuel : nat) (size : nat) (rows : list SalesRow)
  : list (list SalesRow) :=
  match fuel, rows with
  | _, [] => []
  | O, _ => []
  | S fuel', _ => firstn size rows :: chunks_fuel fuel' size (skipn size rows)
  end.

(** A file that has its header line and no row yields one chunk without
    rows; any other file yields chunks of 1 to [size] rows. *)
Definition chunks (size : nat) (rows : list SalesRow) : list (list SalesRow) :=
  match rows with
  | [] => [[]]
  | _ => chunks_fuel (length rows) size rows
  end.

(** [pd.read_csv(file_path, chunksize=chunk_size)] opens the file at once
    and reads it lazily. *)
Definition read_csv (file_path : string) (chunk_size : Z)
  : Prog World (list (list SalesRow)) :=
  if chunk_size <? 1 then raise (ValueError "'chunksize' must be an integer >=1")
  else
    w <- get ;;
    match files w file_path with
    | None => raise (FileNotFoundError file_path)
    | Some rows => ret (chunks (Z.to_nat chunk_size) rows)
    end.

(** [None] is Python's [None]. *)
Definition read_csv_in_chunks (file_path : string) (chunk_size : Z)
  : Prog World (option (list (list SalesRow))) :=
  logging INFO (ReadingData file_path chunk_size) ;;;
  try_except_FileNotFoundError
    (it <- read_csv file_path chunk_size ;; ret (Some it))
    (logging ERROR (FileNotFound file_path) ;;; ret None).

Definition fill0 (x : option Q) : option Q :=
  match x with Some _ => x | None => Some 0%Q end.

Definition value0 (x : option Q) : Q :=
  match x with Some q => q | None => 0%Q end.

(** Called on a copy of the chunk, so the in-place calls change no
    object the caller keeps. *)
Definition clean_data (df : list SalesRow) : Prog World (list SalesRow) :=
  logging INFO CleaningChunk ;;;
  let df := filter (fun r => match date r with Some _ => true | None => false end) df in
  let df := map (fun r => {| date := date r; product_id := product_id r;
                             quantity := fill0 (quantity r);
                             revenue := fill0 (revenue r) |}) df in
  logging INFO ChunkCleaningComplete ;;;
  ret df.

(** [insights.plot(kind='bar')]: drawing the bars of an empty Series
    raises. *)
Definition plot_bar (insights : list (Z * Q)) : Prog World unit :=
  match insights with
  | [] => raise (IndexError "index 0 is out of bounds for axis 0 with size 0")
  | _ => ret tt
  end.

Definition create_visualisation (insights : list (Z * Q)) (output_path : string)
  : Prog World unit :=
  logging INFO CreatingVisualisation ;;;
  plot_bar insights ;;;
  savefig output_path insights ;;;
  logging INFO (VisualisationSaved output_path).

Definition value_at (k : Z) (s : list (Z * Q)) : Q :=
  match find (fun kv => fst kv =? k) s with
  | Some kv => snd kv
  | None => 0%Q
  end.

(** [s.nlargest(n)]: ties keep their order in [s]. *)
Definition nlargest (n : nat) (s : list (Z * Q)) : list (Z * Q) :=
  firstn n (sort_values_stable _ snd s).

Definition CSV_FILE : string := "sales_data.csv".
Definition DB_FILE : string := "sales.db".
Definition VISUALISATION_FILE : string := "top_10_products.png".
Definition CHUNK_SIZE : Z := 10000.

(** The totals are float64 values.  They are kept as the rationals they
    stand for, and the two float64 operations of the loop are left
    open: [float_sum] is the value [groupby(...).sum()] gives for the
    cells of a group, [float_add] the sum of two cells.  Neither kernel
    is part of this program, and nothing is assumed about them; a total
    that overflows is outside this description. *)
Section Floats.
Variable float_sum : list Q -> Q.
Variable float_add : Q -> Q -> Q.

(** [cleaned_chunk.groupby('product_id')['revenue'].sum()]. *)
Definition revenue_by_product (chunk : list SalesRow) : list (Z * Q) :=
  map (fun g => (fst g, float_sum (map (fun r => value0 (revenue r)) (snd g))))
      (groupby Z.eqb Z.leb (fun r => Some (product_id r)) chunk).

(** [a.add(b, fill_value=0)]: over the sorted union of the two indexes. *)
Definition series_add (a b : list (Z * Q)) : list (Z * Q) :=
  map (fun k => (k, float_add (value_at k a) (value_at k b)))
      (sort Z.leb (unique Z.eqb (map fst a ++ map fst b))).

(** The body of the [for chunk in chunk_iterator] loop, threading the
    running total. *)
Fixpoint process_chunks (chunk_iterator : list (list SalesRow))
         (total_revenue_per_product : list (Z * Q)) : Prog World (list (Z * Q)) :=
  match chunk_iterator with
  | [] => ret total_revenue_per_product
  | chunk :: rest =>
    cleaned_chunk <- clean_data chunk ;;
    let revenue_per_product := revenue_by_product cleaned_chunk in
    let total_revenue_per_product :=
      series_add total_revenue_per_product revenue_per_product in
    run_sink (Append "sales" cleaned_chunk) ;;;
    process_chunks rest total_revenue_per_product
  end.

Definition main : Prog World unit :=
  logging INFO StartingPipeline ;;;
  chunk_iterator <- read_csv_in_chunks CSV_FILE CHUNK_SIZE ;;
  match chunk_iterator with
  | Some chunk_iterator =>
    run_sink (DropTableIfExists "sales") ;;;
    logging INFO ProcessingChunks ;;;
    total_revenue_per_product <- process_chunks chunk_iterator [] ;;
    logging INFO AllChunksProcessed ;;;
    logging INFO GeneratingInsights ;;;
    let top_10_products := nlargest 10 total_revenue_per_product in
    logging INFO (Top10Products top_10_products) ;;;
    create_visualisation top_10_products VISUALISATION_FILE ;;;
    logging INFO (DataStored DB_FILE)
  | None => ret tt
  end ;;;
  logging INFO PipelineFinished.
End Floats.

End DataPipeline.

(* ================================================================== *)
(** ** Statements of the specification, and sample data               *)
(* ================================================================== *)

Module Spec.
Import Py Pandas.

(** *** Segment labels, as the specification lists them: six rules in
    priority order, the first one that matches wins. *)
Definition segment_rules : list ((Analytics.ScoreRow -> bool) * string) :=
  let R := Analytics.R in
  let F := Analytics.F in
  let M := Analytics.M in
  [ (fun x => (4 <=? R x) && (4 <=? F x) && (4 <=? M x), "Best Customers");
    (fun x => (3 <=? R x) && (3 <=? F x), "Loyal Customers");
    (fun x => (3 <=? R x) && (3 <=? M x), "Big Spenders");
    (fun x => (R x <=? 2) && (F x <=? 2), "At Risk");
    (fun x => R x <=? 2, "Needs Attention");
    (fun _ => true, "Others") ].

Definition first_match (rules : list ((Analytics.ScoreRow -> bool) * string))
           (x : Analytics.ScoreRow) : option string :=
  option_map snd (find (fun rule => fst rule x) rules).

(** *** Duplicate-free tables: no row equals an earlier row. *)
Definition no_duplicates (rows : list (list DataProcessing.Cell)) : Prop :=
  ForallOrdPairs (fun earlier later => DataProcessing.row_eqb later earlier = false) rows.

(** [kept] is [all] with some rows deleted: the rows left are rows of
    [all], in the order they have there. *)
Inductive kept_in_order {A : Type} : list A -> list A -> Prop :=
| kept_nil : kept_in_order [] []
| kept_drop x kept all : kept_in_order kept all -> kept_in_order kept (x :: all)
| kept_keep x kept all : kept_in_order kept all -> kept_in_order (x :: kept) (x :: all).

(** The cell of a row in the column at position [i] is present. *)
Definition has_customer (i : nat) (row : list DataProcessing.Cell) : Prop :=
  DataProcessing.isna (nth i row DataProcessing.NaN) = false.

(** *** The table [calculate_rfm] builds, in closed form

    [score_column] is one round of the scoring loop seen as a function:
    the labels of the quartile bins of the ranks, or 2 everywhere when
    binning raises.  [rfm_table] is the finished table;
    [calculate_rfm_run] below shows that it is what the program
    computes. *)
Definition score_column (c : Column) (labels : list Z) (n : nat) : list Z :=
  match qcut_series (rank_series c) 4 labels with
  | Ok cat =>
    match astype_int cat with
    | Ok scores => scores
    | Raise _ => repeat 2 n
    end
  | Raise _ => repeat 2 n
  end.

Definition rfm_aggregate (rows : list Analytics.Transaction) : Frame :=
  Analytics.agg_rfm
    (option_map (fun m => m + Analytics.one_day)
                (Analytics.series_max (Analytics.dates rows)))
    rows.

(** The Recency of each customer: the days from the customer's latest
    dated row to the day after the latest date of the table, or NaN for
    a customer without a dated row. *)
Definition recency_cells (rows : list Analytics.Transaction) : list (option Z) :=
  map (fun g =>
         Analytics.days_between
           (option_map (fun m => m + Analytics.one_day)
                       (Analytics.series_max (Analytics.dates rows)))
           (Analytics.series_max (Analytics.dates (snd g))))
      (groupby Z.eqb Z.leb Analytics.CustomerID rows).

Definition recency_column (rows : list Analytics.Transaction) : Column :=
  match lookup "InvoiceDate" (columns (rfm_aggregate rows)) with
  | Some c => c
  | None => IntCol []
  end.

Definition frequency_column (rows : list Analytics.Transaction) : Column :=
  match lookup "InvoiceNo" (columns (rfm_aggregate rows)) with
  | Some c => c
  | None => IntCol []
  end.

Definition monetary_column (rows : list Analytics.Transaction) : Column :=
  match lookup "TotalPrice" (columns (rfm_aggregate rows)) with
  | Some c => c
  | None => IntCol []
  end.

(** Cell [i] of a column of day counts holds the whole number [x], or
    is NaN when [x] is [None]. *)
Definition days_cell (c : Column) (i : nat) (x : option Z) : Prop :=
  match c with
  | IntCol v => exists z, x = Some z /\ nth_error v i = Some z
  | NaNCol v => nth_error v i = Some (option_map inject_Z x)
  | _ => False
  end.

Definition customers (rows : list Analytics.Transaction) : list Z :=
  index (rfm_aggregate rows).

Definition R_scores (rows : list Analytics.Transaction) : list Z :=
  score_column (recency_column rows) [4; 3; 2; 1] (length (customers rows)).

Definition F_scores (rows : list Analytics.Transaction) : list Z :=
  score_column (frequency_column rows) [1; 2; 3; 4] (length (customers rows)).

Definition M_scores (rows : list Analytics.Transaction) : list Z :=
  score_column (monetary_column rows) [1; 2; 3; 4] (length (customers rows)).

Definition segment_dtype (rows : list Analytics.Transaction) : Analytics.RowDtype :=
  if Analytics.is_float_column (recency_column rows)
     || Analytics.is_float_column (monetary_column rows)
  then Analytics.RowFloat else Analytics.RowInt.

Definition rfm_table (rows : list Analytics.Transaction) : Frame :=
  {| index := customers rows;
     columns :=
       [ ("Recency", recency_column rows);
         ("Frequency", frequency_column rows);
         ("MonetaryValue", monetary_column rows);
         ("R", IntCol (R_scores rows));
         ("F", IntCol (F_scores rows));
         ("M", IntCol (M_scores rows));
         ("RFM_Segment",
          StrCol (Analytics.zip3
                    (fun r f m =>
                       (Analytics.str_cell (segment_dtype rows) r
                        ++ Analytics.str_cell (segment_dtype rows) f
                        ++ Analytics.str_cell (segment_dtype rows) m)%string)
                    (R_scores rows) (F_scores rows) (M_scores rows)));
         ("RFM_Score",
          IntCol (Analytics.zip3 (fun r f m => sum_int64 [r; f; m])
                                 (R_scores rows) (F_scores rows) (M_scores rows))) ] |}.

(** *** Quartiles of ranks

    The ranks of [n] customers are the numbers 1..n in some order, so
    the five bin edges are [1 + k (n - 1) / 4] for k = 0..4, and
    [quartile n r] is the bin of the rank [r]. *)
Definition ranks_1_to (n : nat) : list Z := map Z.of_nat (seq 1 n).

Definition quartile_edges (n : nat) : list Q :=
  map (fun k => (1 + inject_Z k * inject_Z (Z.of_nat n - 1) / 4)%Q) [0; 1; 2; 3; 4].

Definition quartile (n : nat) (r : Z) : nat := bin_id (quartile_edges n) r.

(** *** Comparing two cells of a numeric column *)
Definition column_lt (c : Column) (i j : nat) : Prop :=
  match c with
  | IntCol v =>
    exists a b, nth_error v i = Some a /\ nth_error v j = Some b /\ a < b
  | FloatCol v =>
    exists a b, nth_error v i = Some a /\ nth_error v j = Some b /\ (a < b)%Q
  | StrCol _ => False
  | NaNCol v =>
    exists a b,
      nth_error v i = Some (Some a) /\ nth_error v j = Some (Some b) /\ (a < b)%Q
  end.

(** *** The degradation rule, as the specification words it: a
    population with fewer than four distinct raw Recency values gets
    R = 2 for every customer. *)
Definition recency_values (rows : list Analytics.Transaction) : list Z :=
  match recency_column rows with
  | IntCol v => v
  | _ => []
  end.

Definition fallback_below_four_distinct_recency : Prop :=
  forall (h : Analytics.State) (df : loc) rows,
    nth_error h df = Some (Analytics.Transactions rows) ->
    (length (unique Z.eqb (recency_values rows)) < 4)%nat ->
    exists t rs,
      Analytics.calculate_rfm df h = (Ok (length h), h ++ [Analytics.Table t]) /\
      lookup "R" (columns t) = Some (IntCol rs) /\
      Forall (fun r => r = 2) rs.

(** *** Sample transactions *)
Definition sale (invoice : string) (customer : Z) (day : Z)
           (description : string) (quantity : Z) (price : Number)
  : Analytics.Transaction :=
  {| Analytics.InvoiceNo := Some invoice;
     Analytics.StockCode := "85123A";
     Analytics.Description := Some description;
     Analytics.Quantity := quantity;
     Analytics.InvoiceDate := Some (day * Analytics.one_day);
     Analytics.UnitPrice := price;
     Analytics.CustomerID := Some customer;
     Analytics.Country := Some "United Kingdom";
     Analytics.TotalPrice := price |}.

(** Two customers who bought on the same day, at whole prices: their
    raw Recency values are equal. *)
Definition two_customers_same_day : list Analytics.Transaction :=
  [ sale "536365" 17850 1 "A" 6 (Int 15);
    sale "536366" 17851 1 "B" 2 (Int 15) ].

(** Two customers, on two days, at the prices 2.55 and 3.39. *)
Definition two_customers_float_prices : list Analytics.Transaction :=
  [ sale "536365" 17850 1 "A" 6 (Float 2.55);
    sale "536366" 17851 2 "B" 2 (Float 3.39) ].

(** Four customers whose raw Monetary values are 10, 20, 30 and 40. *)
Definition four_customers : list Analytics.Transaction :=
  [ sale "536365" 17850 1 "A" 1 (Float 10);
    sale "536366" 17851 2 "B" 1 (Float 20);
    sale "536367" 17852 3 "C" 1 (Float 30);
    sale "536368" 17853 4 "D" 1 (Float 40) ].

(** One customer with a single invoice. *)
Definition one_customer : list Analytics.Transaction :=
  [ sale "536365" 17850 1 "A" 6 (Float 2.55) ].

(** Two customers: one with two invoices four days apart, one with a
    single invoice. *)
Definition three_invoices : list Analytics.Transaction :=
  [ sale "536365" 17850 1 "A" 6 (Float 2.55);
    sale "536366" 17851 2 "B" 2 (Float 300);
    sale "536367" 17850 5 "A" 1 (Float 3.39) ].

(** A row whose InvoiceDate could not be parsed ([NaT]). *)
Definition undated_sale (invoice : string) (customer : Z)
           (description : string) (quantity : Z) (price : Number)
  : Analytics.Transaction :=
  {| Analytics.InvoiceNo := Some invoice;
     Analytics.StockCode := "85123A";
     Analytics.Description := Some description;
     Analytics.Quantity := quantity;
     Analytics.InvoiceDate := None;
     Analytics.UnitPrice := price;
     Analytics.CustomerID := Some customer;
     Analytics.Country := Some "United Kingdom";
     Analytics.TotalPrice := price |}.

(** Four customers at whole prices; the only row of the third has no
    date. *)
Definition four_customers_one_undated : list Analytics.Transaction :=
  [ sale "536365" 17850 1 "A" 1 (Int 10);
    sale "536366" 17851 2 "B" 1 (Int 20);
    undated_sale "536367" 17852 "C" 1 (Int 30);
    sale "536368" 17853 4 "D" 1 (Int 40) ].

(** Sales in two countries, and one row without a country. *)
Definition two_countries : list Analytics.Transaction :=
  [ sale "536365" 17850 1 "A" 6 (Float 2.55);
    {| Analytics.InvoiceNo := Some "536366";
       Analytics.StockCode := "22728";
       Analytics.Description := Some "B";
       Analytics.Quantity := 2;
       Analytics.InvoiceDate := Some (2 * Analytics.one_day);
       Analytics.UnitPrice := Float 300;
       Analytics.CustomerID := Some 12583;
       Analytics.Country := Some "France";
       Analytics.TotalPrice := Float 300 |};
    {| Analytics.InvoiceNo := Some "536367";
       Analytics.StockCode := "22728";
       Analytics.Description := Some "B";
       Analytics.Quantity := 1;
       Analytics.InvoiceDate := Some (2 * Analytics.one_day);
       Analytics.UnitPrice := Float 7;
       Analytics.CustomerID := Some 12584;
       Analytics.Country := None;
       Analytics.TotalPrice := Float 7 |};
    sale "536368" 17850 5 "A" 1 (Float 3.39) ].

(** Two items sold in equal quantity. *)
Definition two_items_tied : list Analytics.Transaction :=
  [ sale "536365" 17850 1 "A" 5 (Float 2.5);
    sale "536366" 17851 1 "B" 5 (Float 2.5) ].

End Spec.

(* ================================================================== *)
(** ** analytics.py: revenue by country                               *)
(* ================================================================== *)

Module Geography.
Import Py Pandas Analytics Py.Notations.

Section Sorting.
Variable sort_values : SortValues.
Variable sort_floats : SortFloats.

(** The value [groupby(...).sum()] gives for the float64 cells of a
    group: the summation kernel of pandas is not part of this program
    and is left open. *)
Variable float_sum : list Q -> float64.

(** [df.groupby('Country')['TotalPrice'].sum()]: one total per country,
    by increasing country name; rows without a country are left out;
    the totals keep the dtype of the column. *)
Definition revenue_by_country (rows : list Transaction) : list (string * Revenue) :=
  let is_int := number_column_is_int (map TotalPrice rows) in
  map (fun g =>
         (fst g,
          if is_int
          then IntRevenue (sum_int64 (map (fun r => to_Z (TotalPrice r)) (snd g)))
          else FloatRevenue (float_sum (map (fun r => to_Q (TotalPrice r)) (snd g)))))
      (groupby String.eqb String.leb Country rows).

(** The cell of an int64 Series of totals. *)
Definition int_total (t : Revenue) : Z :=
  match t with
  | IntRevenue z => z
  | FloatRevenue _ => 0
  end.

(** The Series returned is a new object that nothing else refers to; it
    is handed back as a value.  An int64 Series is sorted on its
    integers, a float64 Series on its floats, NaN last. *)
Definition get_geographic_distribution (df : loc)
  : Prog State (list (string * Revenue)) :=
  rows <- load_transactions df ;;
  let totals := revenue_by_country rows in
  let geo_dist :=
    if number_column_is_int (map TotalPrice rows)
    then sort_values _ (fun item => inject_Z (int_total (snd item))) totals
    else sort_floats _ (fun item => revenue_value (snd item)) totals in
  ret geo_dist.
End Sorting.

End Geography.

(* ================================================================== *)
(** ** API_test/weather_service.py                                    *)
(* ================================================================== *)

Module WeatherService.

Definition Request : Type := (string * list (string * string))%type.

(** What [requests.get] can do: answer with a status code and a body,
    or raise before any answer.  [json] is what [response.json()] makes
    of the body: the decoded document, or [None] when the body is not
    JSON. *)
Inductive Answer : Type :=
| Response (status_code : Z) (json : option string)
| NoAnswer (error : string).

Inductive Exception : Type :=
| ConnectionError (error : string)     (* a RequestException *)
| HTTPError (status_code : Z)          (* a RequestException *)
| JSONDecodeError                      (* a RequestException *)
| ValueError (msg : string).

(** The outside world: the answer the network gives to the n-th request
    of the run, the requests sent so far, and the pauses taken. *)
Record World : Type := {
  network : nat -> Request -> Answer;
  sent : list Request;
  slept : list Q
}.

Definition Action (A : Type) : Type := World -> (Exception + A) * World.

(** [requests.get(url, params=params)]. *)
Definition requests_get (url : string) (params : list (string * string))
  : Action (Z * option string) :=
  fun w =>
    let w' := {| network := network w; sent := sent w ++ [(url, params)];
                 slept := slept w |} in
    match network w (length (sent w)) (url, params) with
    | Response status_code json => (inr (status_code, json), w')
    | NoAnswer error => (inl (ConnectionError error), w')
    end.

(** [response.json()]. *)
Definition response_json (json : option string) : Exception + string :=
  match json with
  | Some document => inr document
  | None => inl JSONDecodeError
  end.

(** [response.raise_for_status()]: client and server error codes
    raise. *)
Definition raise_for_status (status_code : Z) : Exception + unit :=
  if (400 <=? status_code) && (status_code <? 600)
  then inl (HTTPError status_code) else inr tt.

(** [time.sleep(seconds)]. *)
Definition sleep (seconds : Q) : Action unit :=
  fun w =>
    if Pandas.Qltb seconds 0
    then (inl (ValueError "sleep length must be non-negative"), w)
    else (inr tt, {| network := network w; sent := sent w;
                     slept := slept w ++ [seconds] |}).

(** The body of the [try] block of [_make_request]. *)
Definition request_json (url : string) (params : list (string * string))
  : Action string :=
  fun w =>
    match requests_get url params w with
    | (inr (status_code, json), w') =>
      match raise_for_status status_code with
      | inr _ => (response_json json, w')
      | inl e => (inl e, w')
      end
    | (inl e, w') => (inl e, w')
    end.

(** [range(n)]. *)
Definition range (n : Z) : list Z := map Z.of_nat (seq 0 (Z.to_nat n)).

(** The [for i in ...] loop of [_make_request] over the remaining
    values of [i].  Falling off the end of the loop returns [None]. *)
Fixpoint attempts (remaining : list Z) (url : string)
         (params : list (string * string)) (retries : Z) (backoff_factor : Q)
  : Action (option string) :=
  match remaining with
  | [] => fun w => (inr None, w)
  | i :: remaining' =>
    fun w =>
      match request_json url params w with
      | (inr json, w') => (inr (Some json), w')
      | (inl (ValueError msg), w') => (inl (ValueError msg), w')
      | (inl e, w') =>                      (* except RequestException as e *)
        if i <? retries - 1 then
          match sleep (backoff_factor * inject_Z (2 ^ i)) w' with
          | (inr _, w'') => attempts remaining' url params retries backoff_factor w''
          | (inl e', w'') => (inl e', w'')
          end
        else (inl e, w')
      end
  end.

Definition _make_request (url : string) (params : list (string * string))
           (retries : Z) (backoff_factor : Q) : Action (option string) :=
  attempts (range retries) url params retries backoff_factor.

Record Service : Type := { api_key : string; base_url : string }.

(** [__init__]; the cache it installs sits inside [requests.get]. *)
Definition init (api_key : string) : Service :=
  {| api_key := api_key; base_url := "http://api.openweathermap.org/data/2.5" |}.

Definition default_retries : Z := 3.
Definition default_backoff_factor : Q := 3 # 10.

Definition get_weather (self : Service) (postal_code : string) : Action (option string) :=
  _make_request (base_url self ++ "/weather")%string
                [("zip", (postal_code ++ ",gb")%string); ("appid", api_key self)]
                default_retries default_backoff_factor.

Definition get_forecast (self : Service) (postal_code : string) : Action (option string) :=
  _make_request (base_url self ++ "/forecast")%string
                [("zip", (postal_code ++ ",gb")%string); ("appid", api_key self)]
                default_retries default_backoff_factor.

(** The exception an answer turns into inside the [try] block, if
    any. *)
Definition failure (a : Answer) : option Exception :=
  match a with
  | NoAnswer error => Some (ConnectionError error)
  | Response status_code json =>
    match raise_for_status status_code with
    | inl e => Some e
    | inr _ =>
      match response_json json with
      | inl e => Some e
      | inr _ => None
      end
    end
  end.

(** The pause taken after the failure of attempt [i]. *)
Definition pause (backoff_factor : Q) (i : nat) : Q :=
  (backoff_factor * inject_Z (2 ^ Z.of_nat i))%Q.


(** The world once [requests] more have been sent and [pauses] more
    taken. *)
Definition after (w : World) (requests : list Request) (pauses : list Q) : World :=
  {| network := network w; sent := sent w ++ requests;
     slept := slept w ++ pauses |}.

End WeatherService.

(* ================================================================== *)
(** ** data_pipeline.py: what a run leaves behind, in closed form     *)
(* ================================================================== *)

Module PipelineModel.
Import Py Pandas DataPipeline.

(** The rows [clean_data] returns. *)
Definition clean_rows (df : list SalesRow) : list SalesRow :=
  map (fun r => {| date := date r; product_id := product_id r;
                   quantity := fill0 (quantity r);
                   revenue := fill0 (revenue r) |})
      (filter (fun r => match date r with Some _ => true | None => false end) df).

(** The rows of a table of the database. *)
Definition get_table (name : string) (ts : list (string * list SalesRow))
  : option (list SalesRow) :=
  option_map snd (find (fun t => String.eqb (fst t) name) ts).

(** The world once the loop of [main] has gone through the chunks. *)
Definition after_chunks (cs : list (list SalesRow)) (w : World) : World :=
  {| files := files w;
     log := log w ++ flat_map (fun _ => [(INFO, CleaningChunk);
                                         (INFO, ChunkCleaningComplete)]) cs;
     tables := fold_left (fun ts c => append_table "sales" (clean_rows c) ts)
                         cs (tables w);
     sink_ops := sink_ops w ++ map (fun c => Append "sales" (clean_rows c)) cs;
     figures := figures w |}.

(** The running total after the chunks. *)
Definition running_total (float_sum : list Q -> Q) (float_add : Q -> Q -> Q)
           (chunks : list (list SalesRow)) (start : list (Z * Q))
  : list (Z * Q) :=
  fold_left (fun total chunk =>
               series_add float_add total
                          (revenue_by_product float_sum (clean_rows chunk)))
            chunks start.

End PipelineModel.

(* ================================================================== *)
(** ** analytics.py: the raw metrics, in words                        *)
(* ================================================================== *)

Module RawMetrics.
Import Pandas Analytics.

(** The rows of customer [c]. *)
Definition of_customer (c : Z) (r : Transaction) : bool :=
  match CustomerID r with
  | Some c' => c' =? c
  | None => false
  end.

(** [d] is the latest invoice date among the rows selected by [sel];
    rows without a date do not count. *)
Definition latest_invoice (sel : Transaction -> bool) (rows : list Transaction)
           (d : Z) : Prop :=
  (exists r, In r rows /\ sel r = true /\ InvoiceDate r = Some d) /\
  (forall r d', In r rows -> sel r = true -> InvoiceDate r = Some d' -> d' <= d).

Definition earliest_invoice (sel : Transaction -> bool) (rows : list Transaction)
           (d : Z) : Prop :=
  (exists r, In r rows /\ sel r = true /\ InvoiceDate r = Some d) /\
  (forall r d', In r rows -> sel r = true -> InvoiceDate r = Some d' -> d <= d').

(** No row selected by [sel] has a date. *)
Definition undated (sel : Transaction -> bool) (rows : list Transaction) : Prop :=
  forall r, In r rows -> sel r = true -> InvoiceDate r = None.

(** [n] is the number of distinct invoice numbers of the rows selected
    by [sel]; rows without an invoice number do not count. *)
Definition distinct_invoices (sel : Transaction -> bool) (rows : list Transaction)
           (n : Z) : Prop :=
  exists numbers : list string,
    NoDup numbers /\
    (forall s, In s numbers <->
               exists r, In r rows /\ sel r = true /\ InvoiceNo r = Some s) /\
    n = Z.of_nat (length numbers).

(** Every customer of the table has a row with a date. *)
Definition all_dated (rows : list Transaction) : Prop :=
  forall r c, In r rows -> CustomerID r = Some c ->
              exists r', In r' rows /\ CustomerID r' = Some c /\ InvoiceDate r' <> None.

(** *** What the row of a customer in the table of [calculate_clv] says *)
Definition clv_row_ok (rows : list Transaction) (r : CLVRecord) : Prop :=
  let mine := of_customer (clv_customer r) in
  let n := total_transactions r in
  distinct_invoices mine rows n /\
  avg_order_value r = fdiv (revenue_value (total_revenue r)) (of_int64 n) /\
  clv r = fmul (fmul (avg_order_value r) (purchase_frequency r)) (of_int64 365) /\
  match purchase_lifespan r with
  | Some days =>
    (exists first last,
       first_purchase_date r = Some first /\ last_purchase_date r = Some last /\
       earliest_invoice mine rows first /\ latest_invoice mine rows last /\
       days = (last - first) / one_day /\
       (first = last -> days = 0)) /\
    0 <= days /\
    purchase_frequency r = fdiv (of_int64 n) (of_int64 (days + 1)) /\
    (days = 0 -> 0 <= n <= 2 ^ 53 -> f64_eq (purchase_frequency r) (Finite (inject_Z n)))
  | None =>
    undated mine rows /\
    first_purchase_date r = None /\ last_purchase_date r = None /\
    purchase_frequency r = NaN64
  end.

(** How many customers have the score [s]. *)
Definition customers_with_score (s : Z) (scores : list Z) : Z :=
  count (fun x => x =? s) scores.

End RawMetrics.

(* ================================================================== *)
(** ** Facts about the heap                                           *)
(* ================================================================== *)

Module HeapFacts.
Import Py.

Section Heap.
Context {Obj : Type}.
Implicit Types (h : Heap Obj) (o : Obj) (l : loc).

Lemma length_update l o h : length (update l o h) = length h.
Proof.
  revert l; induction h as [|x h IH]; intros [|l]; simpl; auto.
Qed.

Lemma nth_error_update_eq l o h :
  (l < length h)%nat -> nth_error (update l o h) l = Some o.
Proof.
  revert l; induction h as [|x h IH]; intros [|l] Hl; simpl in *; try lia; auto.
  apply IH; lia.
Qed.

Lemma nth_error_update_ne l l' o h :
  l <> l' -> nth_error (update l o h) l' = nth_error h l'.
Proof.
  revert l l'; induction h as [|x h IH]; intros [|l] [|l'] Hne; simpl; auto;
    congruence.
Qed.

Lemma update_update l o o' h : update l o (update l o' h) = update l o h.
Proof.
  revert l; induction h as [|x h IH]; intros [|l]; simpl; auto.
  now rewrite IH.
Qed.

Lemma update_last o o' h : update (length h) o (h ++ [o']) = h ++ [o].
Proof. induction h as [|x h IH]; simpl; auto. now rewrite IH. Qed.

Lemma nth_error_last o h : nth_error (h ++ [o]) (length h) = Some o.
Proof. induction h as [|x h IH]; simpl; auto. Qed.

Lemma load_ok l o h : nth_error h l = Some o -> load l h = (Ok o, h).
Proof. unfold load; now intros ->. Qed.

Lemma load_last o h : load (length h) (h ++ [o]) = (Ok o, h ++ [o]).
Proof. apply load_ok, nth_error_last. Qed.

Lemma store_last o o' h :
  store (length h) o (h ++ [o']) = (Ok tt, h ++ [o]).
Proof. unfold store; now rewrite update_last. Qed.
End Heap.

End HeapFacts.

(* ================================================================== *)
(** ** Segment labels                                                 *)
(* ================================================================== *)

Module SegmentProofs.
Import Analytics Spec.

(** C3.  The label computed by [get_rfm_segment_meaning] is the label of
    the first of the six rules of the specification, taken in the order
    Best Customers, Loyal Customers, Big Spenders, At Risk, Needs
    Attention, Others, that the row satisfies; this holds for every row,
    so for every triple of scores in 1..4.  The row R=4, F=4, M=1 gets
    "Loyal Customers", not "Best Customers". *)
Theorem segment_label_first_match :
  (forall row : ScoreRow,
      first_match segment_rules row = Some (get_rfm_segment_meaning row)) /\
  map snd segment_rules =
    ["Best Customers"; "Loyal Customers"; "Big Spenders";
     "At Risk"; "Needs Attention"; "Others"] /\
  get_rfm_segment_meaning {| R := 4; F := 4; M := 1 |} = "Loyal Customers" /\
  get_rfm_segment_meaning {| R := 4; F := 4; M := 1 |} <> "Best Customers".
Proof.
  split; [|repeat split; discriminate].
  intros [r f m].
  unfold first_match, segment_rules, get_rfm_segment_meaning; simpl.
  rewrite !Z.geb_leb.
  destruct (4 <=? r), (4 <=? f), (4 <=? m), (3 <=? r), (3 <=? f), (3 <=? m),
    (r <=? 2), (f <=? 2); reflexivity.
Qed.

End SegmentProofs.

(* ================================================================== *)
(** ** Facts about lists used by several proofs                       *)
(* ================================================================== *)

Module ListFacts.
Import Pandas.

Lemma ForallOrdPairs_filter {A} (R : A -> A -> Prop) (p : A -> bool) l :
  ForallOrdPairs R l -> ForallOrdPairs R (filter p l).
Proof.
  induction 1 as [|x l Hx Hl IH]; simpl; [constructor|].
  destruct (p x); auto.
  constructor; auto.
  rewrite Forall_forall in *; intros y Hy.
  apply filter_In in Hy; intuition.
Qed.

Section Unique.
Context {K : Type} (eqb : K -> K -> bool).

Lemma unique_incl l x : In x (unique eqb l) -> In x l.
Proof.
  induction l as [|y l IH]; simpl; auto.
  intros [->|Hx]; auto.
  apply filter_In in Hx; intuition.
Qed.

Lemma unique_pairwise l :
  ForallOrdPairs (fun earlier later => eqb later earlier = false) (unique eqb l).
Proof.
  induction l as [|x l IH]; simpl; constructor.
  - rewrite Forall_forall; intros y Hy.
    apply filter_In in Hy; destruct Hy as [_ Hy].
    now apply negb_true_iff in Hy.
  - now apply ForallOrdPairs_filter.
Qed.

Hypothesis eqb_eq : forall x y, eqb x y = true <-> x = y.

Lemma unique_In l x : In x (unique eqb l) <-> In x l.
Proof.
  split; [apply unique_incl|].
  induction l as [|y l IH]; simpl; auto.
  intros [->|Hx]; auto.
  destruct (eqb x y) eqn:E.
  - apply eqb_eq in E; auto.
  - right; apply filter_In; split; auto. now rewrite E.
Qed.

Lemma unique_NoDup l : NoDup (unique eqb l).
Proof.
  induction l as [|x l IH]; simpl; constructor.
  - intros Hx; apply filter_In in Hx; destruct Hx as [_ Hx].
    assert (eqb x x = true) by now apply eqb_eq.
    rewrite H in Hx; discriminate.
  - now apply NoDup_filter.
Qed.
End Unique.

End ListFacts.

(* ================================================================== *)
(** ** data_processing.py: validation and cleaning                    *)
(* ================================================================== *)

Module RowFacts.
Import Pandas DataProcessing ListFacts.

Lemma cell_eqb_refl c : cell_eqb c c = true.
Proof.
  destruct c; simpl; auto using Z.eqb_refl, Qeq_bool_refl, String.eqb_refl.
Qed.

Lemma cell_eqb_trans a b c :
  cell_eqb a b = true -> cell_eqb b c = true -> cell_eqb a c = true.
Proof.
  destruct a, b, c; simpl; try discriminate; auto;
    rewrite ?Z.eqb_eq, ?Qeq_bool_iff, ?String.eqb_eq; intros H1 H2; subst; auto;
    first [ rewrite H1; exact H2
          | apply inject_Z_injective; rewrite H1; exact H2 ].
Qed.

Lemma row_eqb_refl r : row_eqb r r = true.
Proof. induction r as [|c r IH]; simpl; auto. now rewrite cell_eqb_refl. Qed.

Lemma row_eqb_trans a : forall b c,
  row_eqb a b = true -> row_eqb b c = true -> row_eqb a c = true.
Proof.
  induction a as [|x a IH]; intros [|y b] [|z c]; simpl; try discriminate; auto.
  rewrite !andb_true_iff; intros [H1 H2] [H3 H4]; split.
  - eapply cell_eqb_trans; eauto.
  - eapply IH; eauto.
Qed.

Section Unique.
Context {K : Type} (eqb : K -> K -> bool).

(** A list without repetition is left alone. *)
Lemma unique_fixed l :
  ForallOrdPairs (fun earlier later => eqb later earlier = false) l ->
  unique eqb l = l.
Proof.
  induction 1 as [|x l Hx Hl IH]; simpl; auto.
  rewrite IH; f_equal.
  clear IH Hl; induction Hx as [|y l Hy Hl IH]; simpl; auto.
  now rewrite Hy, IH.
Qed.

Hypothesis eqb_refl : forall x, eqb x x = true.
Hypothesis eqb_trans :
  forall x y z, eqb x y = true -> eqb y z = true -> eqb x z = true.

(** Every element has an equal one among the elements kept. *)
Lemma unique_represents l x :
  In x l -> exists y, In y (unique eqb l) /\ eqb x y = true.
Proof.
  induction l as [|z l IH]; simpl; [tauto|].
  intros [->|Hx]; [exists x; auto|].
  destruct (IH Hx) as (y & Hy & Exy).
  destruct (eqb y z) eqn:Eyz.
  - exists z; split; auto; eauto.
  - exists y; split; auto.
    right; apply filter_In; split; auto; now rewrite Eyz.
Qed.
End Unique.

Lemma filter_all {A} (p : A -> bool) l :
  Forall (fun x => p x = true) l -> filter p l = l.
Proof. induction 1 as [|x l Hx Hl IH]; simpl; auto. now rewrite Hx, IH. Qed.

Lemma kept_in_order_refl {A} (l : list A) : Spec.kept_in_order l l.
Proof. induction l; [apply Spec.kept_nil|apply Spec.kept_keep; auto]. Qed.

Lemma kept_in_order_trans {A} (a b c : list A) :
  Spec.kept_in_order a b -> Spec.kept_in_order b c -> Spec.kept_in_order a c.
Proof.
  intros Hab Hbc; revert a Hab.
  induction Hbc as [|x b c Hbc IH|x b c Hbc IH]; intros a Hab.
  - exact Hab.
  - apply Spec.kept_drop; auto.
  - inversion Hab; subst; [apply Spec.kept_drop|apply Spec.kept_keep]; auto.
Qed.

Lemma filter_kept_in_order {A} (p : A -> bool) l :
  Spec.kept_in_order (filter p l) l.
Proof.
  induction l as [|x l IH]; simpl; [apply Spec.kept_nil|].
  destruct (p x); [apply Spec.kept_keep|apply Spec.kept_drop]; auto.
Qed.

Lemma unique_kept_in_order {K} (eqb : K -> K -> bool) l :
  Spec.kept_in_order (unique eqb l) l.
Proof.
  induction l as [|x l IH]; simpl; [apply Spec.kept_nil|apply Spec.kept_keep].
  eapply kept_in_order_trans; [apply filter_kept_in_order|exact IH].
Qed.

End RowFacts.

Module DataProcessingProofs.
Import Py Pandas DataProcessing Spec HeapFacts ListFacts RowFacts.

Lemma contains_In cols col : contains cols col = true <-> In col cols.
Proof.
  unfold contains; rewrite existsb_exists; split.
  - intros (x & Hx & E); apply String.eqb_eq in E; now subst.
  - intros H; exists col; split; auto; apply String.eqb_refl.
Qed.

Lemma contains_not_In cols col : contains cols col = false <-> ~ In col cols.
Proof.
  rewrite <- contains_In; destruct (contains cols col); split; congruence.
Qed.

(** C7.  On a table with the column labels [columns d], [validate_data]
    returns the required columns that are not among them, and nothing
    else, in the order of the required list and without repetition; it
    leaves the heap as it was.  A table that lacks only "Country" gives
    exactly ["Country"]; a table with all eight gives the empty list. *)
Theorem validate_data_missing_subset (h : State) (df : loc) (d : DataFrame) :
  nth_error h df = Some d ->
  exists missing,
    validate_data df h = (Ok missing, h) /\
    (forall col, In col missing <-> In col required_columns /\ ~ In col (columns d)) /\
    NoDup missing /\
    ((forall col, In col required_columns -> col <> "Country" -> In col (columns d)) ->
     ~ In "Country" (columns d) -> missing = ["Country"]) /\
    ((forall col, In col required_columns -> In col (columns d)) -> missing = []).
Proof.
  intros Hd.
  exists (filter (fun col => negb (contains (columns d) col)) required_columns).
  split; [|split; [|split; [|split]]].
  - unfold validate_data, bind, ret. now rewrite (load_ok _ _ _ Hd).
  - intros col; rewrite filter_In, negb_true_iff, contains_not_In; tauto.
  - apply NoDup_filter.
    unfold required_columns.
    repeat (constructor; [simpl; intuition discriminate|]); constructor.
  - intros Hall Hno.
    assert (Hc : forall col, In col required_columns -> col <> "Country" ->
                             contains (columns d) col = true)
      by (intros; apply contains_In; auto).
    apply contains_not_In in Hno.
    unfold required_columns in *; simpl.
    rewrite !Hc, Hno by (simpl; intuition discriminate); reflexivity.
  - intros Hall.
    assert (Hc : forall col, In col required_columns -> contains (columns d) col = true)
      by (intros; apply contains_In; auto).
    unfold required_columns in *; simpl.
    rewrite !Hc by (simpl; intuition); reflexivity.
Qed.

Lemma validate_data_witness :
  exists missing,
    validate_data 0%nat [ {| columns := ["InvoiceNo"; "StockCode"; "Description"; "Quantity";
                                     "InvoiceDate"; "UnitPrice"; "CustomerID"];
                         rows := [] |} ]
    = (Ok missing, [ {| columns := ["InvoiceNo"; "StockCode"; "Description"; "Quantity";
                                    "InvoiceDate"; "UnitPrice"; "CustomerID"];
                        rows := [] |} ]) /\
    missing = ["Country"].
Proof.
  destruct (validate_data_missing_subset
              [ {| columns := ["InvoiceNo"; "StockCode"; "Description"; "Quantity";
                               "InvoiceDate"; "UnitPrice"; "CustomerID"];
                   rows := [] |} ] 0%nat _ eq_refl)
    as (missing & Hrun & _ & _ & Hcountry & _).
  exists missing; split; [exact Hrun|].
  apply Hcountry; simpl.
  - intros col H Hne; intuition congruence.
  - intuition discriminate.
Defined.

(** X2.  A missing "CustomerID" column makes [clean_data] raise, before any
    change to the table. *)
Lemma clean_data_KeyError (h : State) (df : loc) (d : DataFrame) :
  nth_error h df = Some d ->
  column_position "CustomerID" (columns d) = None ->
  clean_data df h = (Raise (KeyError "CustomerID"), h).
Proof.
  intros Hd Hc.
  unfold clean_data, dropna_inplace, bind.
  now rewrite (load_ok _ _ _ Hd), Hc.
Qed.

(** C10.  [clean_data] works on the caller's table: it returns the
    reference it was given, allocates no new table, and leaves every
    other object alone; after the call the table behind that reference
    has the same columns, only rows of the original table, no row with a
    null CustomerID, and no row equal to an earlier one.  It drops those
    rows and no others: every row of the original table that has a
    CustomerID is still there, itself or, when it repeats an earlier row,
    that equal row; and the rows left are in the order they had. *)
Theorem clean_data_in_place (h : State) (df : loc) (d : DataFrame) (i : nat) :
  nth_error h df = Some d ->
  column_position "CustomerID" (columns d) = Some i ->
  exists h' d',
    clean_data df h = (Ok df, h') /\
    nth_error h' df = Some d' /\
    length h' = length h /\
    (forall l, l <> df -> nth_error h' l = nth_error h l) /\
    columns d' = columns d /\
    (forall r, In r (rows d') -> In r (rows d)) /\
    Forall (has_customer i) (rows d') /\
    no_duplicates (rows d') /\
    (forall r, In r (rows d) -> has_customer i r ->
               exists r', In r' (rows d') /\ row_eqb r r' = true) /\
    kept_in_order (rows d') (rows d).
Proof.
  intros Hd Hc.
  assert (Hlt : (df < length h)%nat) by (apply nth_error_Some; congruence).
  set (kept := filter (fun r => negb (isna (nth i r NaN))) (rows d)).
  set (d1 := {| columns := columns d; rows := kept |}).
  set (d' := {| columns := columns d; rows := unique row_eqb kept |}).
  exists (update df d' h), d'.
  split; [|split; [|split; [|split; [|split; [|split; [|split; [|split; [|split]]]]]]]].
  - unfold clean_data, dropna_inplace, drop_duplicates_inplace, bind, ret.
    rewrite (load_ok _ _ _ Hd), Hc; unfold store.
    rewrite (load_ok df d1) by now apply nth_error_update_eq.
    now rewrite update_update.
  - now apply nth_error_update_eq.
  - apply length_update.
  - intros l Hl; apply nth_error_update_ne; congruence.
  - reflexivity.
  - intros r Hr; simpl in Hr.
    apply unique_incl in Hr; apply filter_In in Hr; tauto.
  - apply Forall_forall; intros r Hr; simpl in Hr.
    apply unique_incl in Hr; apply filter_In in Hr.
    unfold has_customer; now apply negb_true_iff.
  - apply unique_pairwise.
  - intros r Hr Hcust; simpl.
    apply (unique_represents row_eqb row_eqb_refl row_eqb_trans).
    apply filter_In; split; auto.
    unfold has_customer in Hcust; now rewrite Hcust.
  - simpl; eapply kept_in_order_trans; [apply unique_kept_in_order|].
    apply filter_kept_in_order.
Qed.

Lemma clean_data_in_place_witness :
  exists h' d',
    clean_data 0%nat [ {| columns := ["InvoiceNo"; "CustomerID"];
                      rows := [ [StrCell "536365"; IntCell 17850];
                                [StrCell "536366"; NaN];
                                [StrCell "536365"; IntCell 17850];
                                [NaN; IntCell 17851] ] |} ]
    = (Ok 0%nat, h') /\
    nth_error h' 0%nat = Some d' /\
    rows d' = [ [StrCell "536365"; IntCell 17850]; [NaN; IntCell 17851] ] /\
    no_duplicates (rows d').
Proof.
  destruct (clean_data_in_place
              [ {| columns := ["InvoiceNo"; "CustomerID"];
                   rows := [ [StrCell "536365"; IntCell 17850];
                             [StrCell "536366"; NaN];
                             [StrCell "536365"; IntCell 17850];
                             [NaN; IntCell 17851] ] |} ]
              0%nat _ 1%nat eq_refl eq_refl)
    as (h' & d' & Hrun & Hd' & _ & _ & _ & _ & _ & Hnd & _).
  exists h', d'; split; [exact Hrun|split; [exact Hd'|split; [|exact Hnd]]].
  vm_compute in Hrun; injection Hrun as <-.
  vm_compute in Hd'; injection Hd' as <-.
  reflexivity.
Defined.

End DataProcessingProofs.

(* ================================================================== *)
(** ** data_pipeline.py: the source file is missing                   *)
(* ================================================================== *)

Module DataPipelineProofs.
Import Py Pandas DataPipeline.

(** C8.  When the file [CSV_FILE] does not exist, [main] logs the
    failure as an error and returns without touching the relational
    sink: no statement is run on it (no table is dropped, no chunk is
    appended), its tables are as before, and no figure is saved. *)
Theorem main_source_not_found
        (float_sum : list Q -> Q) (float_add : Q -> Q -> Q) (w : World) :
  files w CSV_FILE = None ->
  exists w',
    main float_sum float_add w = (Ok tt, w') /\
    sink_ops w' = sink_ops w /\
    tables w' = tables w /\
    figures w' = figures w /\
    log w' = log w ++ [ (INFO, StartingPipeline);
                        (INFO, ReadingData CSV_FILE CHUNK_SIZE);
                        (ERROR, FileNotFound CSV_FILE);
                        (INFO, PipelineFinished) ].
Proof.
  intros Hf.
  unfold main, read_csv_in_chunks, read_csv, try_except_FileNotFoundError,
    logging, bind, ret, raise, get; simpl.
  rewrite Hf; simpl.
  eexists; repeat split; simpl.
  now rewrite <- !app_assoc.
Qed.

Lemma main_source_not_found_witness :
  exists w',
    main sum_float Qplus
         {| files := fun _ => None; log := []; tables := [("sales", [])];
            sink_ops := []; figures := [] |} = (Ok tt, w') /\
    sink_ops w' = [] /\ tables w' = [("sales", [])].
Proof.
  destruct (main_source_not_found sum_float Qplus
              {| files := fun _ => None; log := []; tables := [("sales", [])];
                 sink_ops := []; figures := [] |} eq_refl)
    as (w' & Hrun & Hops & Htab & _).
  exists w'; auto.
Defined.

End DataPipelineProofs.

(* ================================================================== *)
(** ** Facts about sorting                                            *)
(* ================================================================== *)

Module SortFacts.
Import Pandas.

Section InsertionSort.
Context {A : Type} (leb : A -> A -> bool).

Lemma insert_sorted_perm x l : Permutation (x :: l) (insert_sorted leb x l).
Proof.
  induction l as [|y l IH]; simpl; auto.
  destruct (leb x y); auto.
  rewrite perm_swap; auto.
Qed.

Lemma sort_perm l : Permutation l (sort leb l).
Proof.
  induction l as [|x l IH]; simpl; auto.
  rewrite <- insert_sorted_perm; auto.
Qed.

Hypothesis leb_total : forall x y, leb x y = true \/ leb y x = true.

Lemma insert_sorted_sorted x l :
  Sorted (fun a b => leb a b = true) l ->
  Sorted (fun a b => leb a b = true) (insert_sorted leb x l).
Proof.
  induction 1 as [|y l Hl IH Hy]; simpl.
  - repeat constructor.
  - destruct (leb x y) eqn:E.
    + repeat constructor; auto.
    + constructor; auto.
      assert (Hyx : leb y x = true) by (destruct (leb_total x y); [congruence|auto]).
      destruct l as [|z l]; simpl in *; [repeat constructor; auto|].
      destruct (leb x z); constructor; auto.
      now inversion Hy.
Qed.

Lemma sort_sorted l : Sorted (fun a b => leb a b = true) (sort leb l).
Proof.
  induction l as [|x l IH]; simpl; [constructor|].
  now apply insert_sorted_sorted.
Qed.
End InsertionSort.

Lemma Sorted_weaken {A} (R R' : A -> A -> Prop) l :
  (forall x y, R x y -> R' x y) -> Sorted R l -> Sorted R' l.
Proof.
  intros HR; induction 1 as [|x l Hl IH Hx]; constructor; auto.
  destruct Hx; constructor; auto.
Qed.

Lemma StronglySorted_app {A} (R : A -> A -> Prop) l1 l2 :
  StronglySorted R l1 -> StronglySorted R l2 ->
  (forall a b, In a l1 -> In b l2 -> R a b) ->
  StronglySorted R (l1 ++ l2).
Proof.
  induction 1 as [|x l1 Hl IH Hx]; simpl; auto.
  intros H2 H12; constructor.
  - apply IH; auto.
  - apply Forall_app; split; auto.
    apply Forall_forall; auto.
Qed.

Lemma StronglySorted_app_inv {A} (R : A -> A -> Prop) l1 l2 :
  StronglySorted R (l1 ++ l2) -> forall a b, In a l1 -> In b l2 -> R a b.
Proof.
  induction l1 as [|x l1 IH]; simpl; [tauto|].
  intros H a b [->|Ha] Hb; inversion_clear H as [|? ? Hs Hf].
  - rewrite Forall_forall in Hf; apply Hf, in_or_app; auto.
  - eapply IH; eauto.
Qed.

Lemma StronglySorted_rev {A} (R : A -> A -> Prop) l :
  StronglySorted R l -> StronglySorted (fun a b => R b a) (rev l).
Proof.
  induction 1 as [|x l Hl IH Hx]; simpl; [constructor|].
  apply StronglySorted_app; auto.
  - repeat constructor.
  - intros a b Ha [<-|[]].
    rewrite Forall_forall in Hx; apply Hx; now apply in_rev.
Qed.

Lemma Qle_bool_total x y : Qle_bool x y = true \/ Qle_bool y x = true.
Proof.
  rewrite !Qle_bool_iff.
  destruct (Qlt_le_dec y x) as [H|H]; [right; now apply Qlt_le_weak|now left].
Qed.

Lemma descending_strongly {A} (key : A -> Q) l :
  descending key l -> StronglySorted (fun a b => (key b <= key a)%Q) l.
Proof.
  apply Sorted_StronglySorted.
  intros x y z Hxy Hyz; eapply Qle_trans; eauto.
Qed.

Lemma sort_values_stable_contract : sort_values_contract sort_values_stable.
Proof.
  split; intros A key l; unfold sort_values_stable.
  - apply sort_perm.
  - eapply Sorted_weaken; [|apply sort_sorted].
    + intros x y; apply Qle_bool_iff.
    + intros; apply Qle_bool_total.
Qed.

Lemma firstn_le_skipn {A} (R : A -> A -> Prop) (n : nat) l :
  StronglySorted R l ->
  forall a b, In a (firstn n l) -> In b (skipn n l) -> R a b.
Proof.
  intros Hs; apply StronglySorted_app_inv.
  now rewrite firstn_skipn.
Qed.

End SortFacts.

(* ================================================================== *)
(** ** Facts about grouping                                           *)
(* ================================================================== *)

Module GroupFacts.
Import Pandas ListFacts SortFacts.

Section GroupBy.
Context {K A : Type} (eqb leb : K -> K -> bool) (key : A -> option K).
Hypothesis eqb_eq : forall x y, eqb x y = true <-> x = y.

Lemma has_key_true k r : has_key eqb key k r = true <-> key r = Some k.
Proof.
  unfold has_key; destruct (key r) as [k'|]; [|split; discriminate].
  rewrite eqb_eq; split; congruence.
Qed.

Lemma keys_In k rows : In k (keys key rows) <-> exists r, In r rows /\ key r = Some k.
Proof.
  unfold keys; rewrite in_flat_map; split.
  - intros (r & Hr & Hk); exists r; split; auto.
    destruct (key r); simpl in Hk; intuition congruence.
  - intros (r & Hr & Hk); exists r; split; auto.
    rewrite Hk; simpl; auto.
Qed.

Lemma groupby_keys rows :
  map fst (groupby eqb leb key rows) = sort leb (unique eqb (keys key rows)).
Proof. unfold groupby; rewrite map_map; simpl; apply map_id. Qed.

Lemma groupby_keys_NoDup rows : NoDup (map fst (groupby eqb leb key rows)).
Proof.
  rewrite groupby_keys.
  eapply Permutation_NoDup; [apply sort_perm|].
  now apply unique_NoDup.
Qed.

Lemma groupby_keys_In rows k :
  In k (map fst (groupby eqb leb key rows)) <-> exists r, In r rows /\ key r = Some k.
Proof.
  rewrite groupby_keys, <- keys_In.
  rewrite <- (unique_In eqb eqb_eq (keys key rows) k).
  split; apply Permutation_in; [symmetry|]; apply sort_perm.
Qed.

Lemma groupby_In rows k g :
  In (k, g) (groupby eqb leb key rows) ->
  g = filter (has_key eqb key k) rows /\ exists r, In r g.
Proof.
  intros Hg.
  assert (Hk : In k (map fst (groupby eqb leb key rows)))
    by (apply in_map_iff; exists (k, g); auto).
  unfold groupby in Hg; apply in_map_iff in Hg.
  destruct Hg as (k' & E & _); inversion E; subst; split; auto.
  apply groupby_keys_In in Hk; destruct Hk as (r & Hr & Hkr).
  exists r; apply filter_In; split; auto.
  now apply has_key_true.
Qed.
End GroupBy.

Lemma Z_eqb_eq x y : (x =? y) = true <-> x = y.
Proof. apply Z.eqb_eq. Qed.

End GroupFacts.

(* ================================================================== *)
(** ** analytics.py: reading the input table                          *)
(* ================================================================== *)

Module AnalyticsFacts.
Import Py Analytics HeapFacts.

Lemma load_transactions_ok (h : State) df rows :
  nth_error h df = Some (Transactions rows) ->
  load_transactions df h = (Ok rows, h).
Proof.
  intros H; unfold load_transactions, bind.
  now rewrite (load_ok _ _ _ H).
Qed.

End AnalyticsFacts.

(* ================================================================== *)
(** ** analytics.py: top-N items and customer lifetime value          *)
(* ================================================================== *)

Module RollupProofs.
Import Py Pandas Analytics Spec HeapFacts ListFacts SortFacts GroupFacts AnalyticsFacts.

Lemma head_nonneg {A} (n : Z) (l : list A) :
  0 <= n -> head n l = firstn (Z.to_nat n) l.
Proof. unfold head; intros H. destruct (Z.ltb_spec n 0); auto; lia. Qed.

Lemma quantity_by_description_keys rows :
  map fst (quantity_by_description rows) =
  map fst (groupby String.eqb String.leb Description rows).
Proof. unfold quantity_by_description; rewrite map_map; reflexivity. Qed.

(** X7.  [get_top_products] groups the rows by description (one entry
    per description that occurs, carrying the int64 sum of the
    quantities of its rows), sorts the entries so that the sums never
    increase, and returns the first [top_n] of them ([top_n] is 10 when
    left out): every entry left out has a sum no greater than every
    entry returned.  This holds for every sorting routine that honours
    the contract of [sort_values]; the order among entries with equal
    sums is left to the routine, and nothing is said about it here. *)
Theorem get_top_products_top_n
        (sort_values : SortValues) (Hsort : sort_values_contract sort_values)
        (h : State) (df : loc) (rows : list Transaction) (top_n : option Z) :
  nth_error h df = Some (Transactions rows) ->
  let n := match top_n with Some n => n | None => 10 end in
  let sums := quantity_by_description rows in
  exists sorted,
    get_top_products sort_values df top_n h =
      (Ok (length h), h ++ [Series (head n sorted)]) /\
    Permutation sums sorted /\
    descending (fun item => inject_Z (snd item)) sorted /\
    (0 <= n -> head n sorted = firstn (Z.to_nat n) sorted) /\
    (0 <= n -> forall a b, In a (head n sorted) -> In b sorted ->
               ~ In b (head n sorted) -> snd b <= snd a) /\
    NoDup (map fst sums) /\
    (forall d, In d (map fst sums) <-> exists r, In r rows /\ Description r = Some d) /\
    (forall d q, In (d, q) sums ->
       q = sum_int64 (map Quantity
                          (filter (fun r => match Description r with
                                            | Some d' => String.eqb d' d
                                            | None => false
                                            end) rows))).
Proof.
  intros Hdf n sums.
  exists (sort_values _ (fun item => inject_Z (snd item)) sums).
  split; [|split; [|split; [|split; [|split; [|split; [|split]]]]]].
  - unfold get_top_products, bind, alloc.
    rewrite (load_transactions_ok _ _ _ Hdf).
    destruct top_n; reflexivity.
  - apply Hsort.
  - apply Hsort.
  - apply head_nonneg.
  - intros Hn a b Ha Hb Hnb.
    rewrite head_nonneg in * by assumption.
    set (sorted := sort_values _ _ sums) in *.
    assert (Hb' : In b (skipn (Z.to_nat n) sorted)).
    { rewrite <- (firstn_skipn (Z.to_nat n) sorted) in Hb.
      apply in_app_or in Hb; tauto. }
    rewrite Zle_Qle.
    apply (firstn_le_skipn (fun a b => (inject_Z (snd b) <= inject_Z (snd a))%Q)
                           (Z.to_nat n) sorted); auto.
    apply descending_strongly, Hsort.
  - subst sums; rewrite quantity_by_description_keys.
    apply groupby_keys_NoDup, String.eqb_eq.
  - intros d; subst sums; rewrite quantity_by_description_keys.
    apply groupby_keys_In, String.eqb_eq.
  - intros d q Hq; subst sums.
    unfold quantity_by_description in Hq; apply in_map_iff in Hq.
    destruct Hq as ([d' g] & E & Hg); simpl in E; inversion E; subst.
    apply groupby_In in Hg; [|apply String.eqb_eq].
    destruct Hg as [-> _]; reflexivity.
Qed.

Lemma get_top_products_top_n_witness :
  exists sorted,
    get_top_products sort_values_stable 0%nat (Some 1)
                     [Transactions two_items_tied] =
      (Ok 1%nat, [Transactions two_items_tied; Series (head 1 sorted)]) /\
    Permutation (quantity_by_description two_items_tied) sorted.
Proof.
  destruct (get_top_products_top_n sort_values_stable sort_values_stable_contract
              [Transactions two_items_tied] 0%nat two_items_tied (Some 1) eq_refl)
    as (sorted & Hrun & Hperm & _).
  exists sorted; split; [exact Hrun|exact Hperm].
Defined.

End RollupProofs.

Module FloatFacts.
Import Pandas SortFacts.

Lemma Qred_inject_Z n : Qred (inject_Z n) = inject_Z n.
Proof.
  unfold Qred, inject_Z.
  pose proof (Z.ggcd_gcd n 1) as Hg.
  pose proof (Z.ggcd_correct_divisors n 1) as Hd.
  destruct (Z.ggcd n 1) as [g [q1 q2]]; simpl in *.
  rewrite Z.gcd_1_r in Hg; subst g.
  destruct Hd as [H1 H2]; rewrite Z.mul_1_l in H1, H2; subst; reflexivity.
Qed.

(** Rounding sees the value of a rational, not the fraction it is
    written as. *)
Lemma round64_Qeq a b : (a == b)%Q -> round64 a = round64 b.
Proof. intros H; unfold round64; now rewrite (Qred_complete _ _ H). Qed.

Lemma round_half_even_int k q : (q == inject_Z k)%Q -> round_half_even q = k.
Proof.
  intros H; unfold round_half_even.
  rewrite (Qfloor_comp _ _ H), Qfloor_Z.
  assert (E : (q - inject_Z k == 0)%Q) by (rewrite H; ring).
  rewrite E; reflexivity.
Qed.

Lemma Qlog2_int n : 0 < n -> Qlog2 (inject_Z n) = Z.log2 n.
Proof.
  intros Hn; unfold Qlog2; cbn [Qnum Qden inject_Z].
  change (Z.log2 1) with 0; rewrite Z.sub_0_r.
  pose proof (Z.log2_nonneg n) as Hk.
  rewrite (Z.max_r 0 (Z.log2 n)), (Z.max_l 0 (- Z.log2 n)) by lia.
  pose proof (Z.log2_spec n Hn) as [Hlo _].
  replace (1 * 2 ^ Z.log2 n <=? n * 2 ^ 0) with true; [reflexivity|].
  symmetry; apply Z.leb_le; change (2 ^ 0) with 1; lia.
Qed.

Lemma pow2_nonpos e :
  e <= 0 -> (pow2 e == 1 / inject_Z (2 ^ (- e)))%Q.
Proof.
  intros He; unfold pow2.
  assert (Hp : 0 < 2 ^ (- e)) by (apply Z.pow_pos_nonneg; lia).
  destruct (Z.ltb_spec e 0).
  - unfold Qeq, Qdiv, Qmult, Qinv; cbn [Qnum Qden inject_Z].
    destruct (2 ^ (- e)) as [|p|p] eqn:E; try lia.
    cbn [Qnum Qden Z.to_pos]; lia.
  - replace e with 0 by lia; reflexivity.
Qed.

Lemma div_pow2_nonpos n e :
  e <= 0 -> (inject_Z n / pow2 e == inject_Z (n * 2 ^ (- e)))%Q.
Proof.
  intros He; rewrite (pow2_nonpos e He).
  assert (Hp : 0 < 2 ^ (- e)) by (apply Z.pow_pos_nonneg; lia).
  rewrite inject_Z_mult; field.
  intros E; change 0%Q with (inject_Z 0) in E.
  rewrite inject_Z_injective in E; lia.
Qed.

Lemma mul_pow2_nonpos n e :
  e <= 0 -> (inject_Z (n * 2 ^ (- e)) * pow2 e == inject_Z n)%Q.
Proof.
  intros He; rewrite (pow2_nonpos e He).
  assert (Hp : 0 < 2 ^ (- e)) by (apply Z.pow_pos_nonneg; lia).
  rewrite inject_Z_mult; field.
  intros E; change 0%Q with (inject_Z 0) in E.
  rewrite inject_Z_injective in E; lia.
Qed.

(** The whole numbers up to 2^53 are doubles. *)
Lemma round64_int n :
  0 <= n <= 2 ^ 53 -> round64 (inject_Z n) = Finite (inject_Z n).
Proof.
  intros Hn.
  destruct (Z.eq_dec n 0) as [->|Hn0]; [reflexivity|].
  destruct (Z.eq_dec n (2 ^ 53)) as [->|Hn53]; [vm_compute; reflexivity|].
  assert (Hpos : 0 < n) by lia.
  assert (Hlt : n < 2 ^ 53) by lia.
  assert (HL : 0 <= Z.log2 n < 53).
  { split; [apply Z.log2_nonneg|].
    apply Z.log2_lt_pow2; auto. }
  unfold round64; rewrite Qred_inject_Z.
  replace (Qeq_bool (inject_Z n) 0) with false.
  2:{ symmetry; apply not_true_is_false; intros E.
      apply Qeq_bool_iff in E; apply (inject_Z_injective n 0) in E; lia. }
  replace (Qabs (inject_Z n)) with (inject_Z n)
    by (unfold Qabs, inject_Z; now rewrite Z.abs_eq by lia).
  rewrite Qlog2_int by exact Hpos.
  rewrite Z.max_l by lia.
  set (e := Z.log2 n - 52).
  assert (He : e <= 0) by (unfold e; lia).
  rewrite (round_half_even_int (n * 2 ^ (- e))) by (now apply div_pow2_nonpos).
  rewrite (Qred_complete _ _ (mul_pow2_nonpos n e He)), Qred_inject_Z.
  replace (Qle_bool 0 (inject_Z n)) with true
    by (symmetry; apply Qle_bool_iff; change 0%Q with (inject_Z 0);
        rewrite <- Zle_Qle; lia).
  replace (Qle_bool (pow2 1024) (inject_Z n)) with false; [reflexivity|].
  symmetry; apply not_true_is_false; intros E.
  apply Qle_bool_iff in E.
  change (pow2 1024) with (inject_Z (2 ^ 1024)) in E.
  rewrite <- Zle_Qle in E.
  assert (2 ^ 53 < 2 ^ 1024) by (apply Z.pow_lt_mono_r; lia).
  lia.
Qed.

(** A count divided by one day is the count. *)
Lemma fdiv_by_one n :
  0 <= n <= 2 ^ 53 -> fdiv (of_int64 n) (of_int64 1) = Finite (inject_Z n).
Proof.
  intros Hn; unfold of_int64.
  rewrite (round64_int n Hn), (round64_int 1)
    by (change (2 ^ 53) with 9007199254740992; lia).
  unfold fdiv.
  change (Qeq_bool (inject_Z 1) 0) with false.
  rewrite (round64_Qeq (inject_Z n / inject_Z 1) (inject_Z n)) by field.
  now apply round64_int.
Qed.

Lemma f64_eq_refl x : f64_eq x x.
Proof. destruct x; simpl; auto; reflexivity. Qed.

Lemma f64_leb_total x y :
  is_nan x = false -> is_nan y = false ->
  f64_leb x y = true \/ f64_leb y x = true.
Proof.
  destruct x as [a|[|]|], y as [b|[|]|]; simpl; try discriminate; auto.
  intros _ _; apply Qle_bool_total.
Qed.

Lemma sort_floats_stable_contract : sort_floats_contract sort_floats_stable.
Proof.
  split; intros A key l; unfold sort_floats_stable.
  - apply sort_perm.
  - eapply Sorted_weaken; [|apply sort_sorted].
    + intros x y H; apply orb_true_iff in H; exact H.
    + intros x y.
      destruct (is_nan (key y)) eqn:Ey; [left; reflexivity|].
      destruct (is_nan (key x)) eqn:Ex; [right; reflexivity|].
      simpl; destruct (f64_leb_total (key x) (key y) Ex Ey); auto.
Qed.

End FloatFacts.

Module DateFacts.
Import Pandas Analytics RawMetrics ListFacts.

Lemma filter_true {A} (l : list A) : filter (fun _ => true) l = l.
Proof. induction l; simpl; congruence. Qed.

Lemma In_somes {A} (l : list (option A)) x : In x (somes l) <-> In (Some x) l.
Proof.
  unfold somes; rewrite in_flat_map; split.
  - intros ([y|] & Hy & Hx); simpl in Hx; [|contradiction].
    destruct Hx as [->|[]]; exact Hy.
  - intros H; exists (Some x); simpl; auto.
Qed.

Lemma somes_map_Some {A} (l : list A) : somes (map Some l) = l.
Proof. induction l as [|x l IH]; simpl; congruence. Qed.

Lemma In_dates rows d :
  In d (dates rows) <-> exists r, In r rows /\ InvoiceDate r = Some d.
Proof.
  unfold dates; rewrite In_somes, in_map_iff.
  split; intros (r & H1 & H2); exists r; auto.
Qed.

Lemma In_invoices rows s :
  In s (invoices rows) <-> exists r, In r rows /\ InvoiceNo r = Some s.
Proof.
  unfold invoices; rewrite In_somes, in_map_iff.
  split; intros (r & H1 & H2); exists r; auto.
Qed.

Lemma fold_max_spec l : forall x,
  In (fold_left Z.max l x) (x :: l) /\
  forall y, In y (x :: l) -> y <= fold_left Z.max l x.
Proof.
  induction l as [|z l IH]; intros x; simpl.
  - split; auto; intros y [->|[]]; lia.
  - destruct (IH (Z.max x z)) as [Hin Hle]; split.
    + destruct Hin as [E|Hin]; [|simpl; auto].
      rewrite <- E; destruct (Z.max_spec x z) as [[_ ->]|[_ ->]]; simpl; auto.
    + intros y Hy.
      assert (Z.max x z <= fold_left Z.max l (Z.max x z)) by (apply Hle; now left).
      destruct Hy as [->|[->|Hy]]; try lia.
      apply Hle; now right.
Qed.

Lemma fold_min_spec l : forall x,
  In (fold_left Z.min l x) (x :: l) /\
  forall y, In y (x :: l) -> fold_left Z.min l x <= y.
Proof.
  induction l as [|z l IH]; intros x; simpl.
  - split; auto; intros y [->|[]]; lia.
  - destruct (IH (Z.min x z)) as [Hin Hle]; split.
    + destruct Hin as [E|Hin]; [|simpl; auto].
      rewrite <- E; destruct (Z.min_spec x z) as [[_ ->]|[_ ->]]; simpl; auto.
    + intros y Hy.
      assert (fold_left Z.min l (Z.min x z) <= Z.min x z) by (apply Hle; now left).
      destruct Hy as [->|[->|Hy]]; try lia.
      apply Hle; now right.
Qed.

Lemma series_max_spec l :
  l <> [] ->
  exists m, series_max l = Some m /\ In m l /\ forall y, In y l -> y <= m.
Proof.
  destruct l as [|x l]; [congruence|intros _].
  exists (fold_left Z.max l x); split; [reflexivity|apply fold_max_spec].
Qed.

Lemma series_min_spec l :
  l <> [] ->
  exists m, series_min l = Some m /\ In m l /\ forall y, In y l -> m <= y.
Proof.
  destruct l as [|x l]; [congruence|intros _].
  exists (fold_left Z.min l x); split; [reflexivity|apply fold_min_spec].
Qed.

Section Selected.
Variables (sel : Transaction -> bool) (rows : list Transaction).

Lemma In_dates_filter d :
  In d (dates (filter sel rows))
  <-> exists r, In r rows /\ sel r = true /\ InvoiceDate r = Some d.
Proof.
  rewrite In_dates; split.
  - intros (r & Hr & E); apply filter_In in Hr; exists r; tauto.
  - intros (r & Hr & Hs & E); exists r; split; auto; apply filter_In; auto.
Qed.

(** A group with a dated row has a latest and an earliest date. *)
Lemma series_max_latest :
  dates (filter sel rows) <> [] ->
  exists d, series_max (dates (filter sel rows)) = Some d /\
            latest_invoice sel rows d.
Proof.
  intros Hne.
  destruct (series_max_spec _ Hne) as (d & Hd & Hin & Hle).
  exists d; split; auto; split.
  - now apply In_dates_filter.
  - intros r d' Hr Hs E; apply Hle, In_dates_filter; eauto.
Qed.

Lemma series_min_earliest :
  dates (filter sel rows) <> [] ->
  exists d, series_min (dates (filter sel rows)) = Some d /\
            earliest_invoice sel rows d.
Proof.
  intros Hne.
  destruct (series_min_spec _ Hne) as (d & Hd & Hin & Hle).
  exists d; split; auto; split.
  - now apply In_dates_filter.
  - intros r d' Hr Hs E; apply Hle, In_dates_filter; eauto.
Qed.

(** A group without any dated row. *)
Lemma no_dates_undated :
  dates (filter sel rows) = [] <-> undated sel rows.
Proof.
  split.
  - intros E r Hr Hs.
    destruct (InvoiceDate r) as [d|] eqn:Ed; auto.
    assert (H : In d (dates (filter sel rows))) by (apply In_dates_filter; eauto).
    rewrite E in H; contradiction.
  - intros Hu.
    destruct (dates (filter sel rows)) as [|d l] eqn:E; auto.
    assert (H : In d (dates (filter sel rows))) by (rewrite E; now left).
    apply In_dates_filter in H; destruct H as (r & Hr & Hs & Ed).
    rewrite (Hu r Hr Hs) in Ed; discriminate.
Qed.

Lemma nunique_distinct_invoices :
  distinct_invoices sel rows (nunique (invoices (filter sel rows))).
Proof.
  exists (unique String.eqb (invoices (filter sel rows))).
  split; [apply unique_NoDup, String.eqb_eq|split; [|reflexivity]].
  intros s; rewrite (unique_In String.eqb String.eqb_eq), In_invoices; split.
  - intros (r & Hr & E); apply filter_In in Hr; exists r; tauto.
  - intros (r & Hr & Hs & E); exists r; split; auto; apply filter_In; auto.
Qed.
End Selected.

End DateFacts.

Module CLVProofs.
Import Py Pandas Analytics Spec RawMetrics.
Import HeapFacts ListFacts SortFacts GroupFacts AnalyticsFacts FloatFacts DateFacts.

(** The row of a customer says what [clv_row_ok] asks. *)
Lemma clv_record_ok float_sum b rows c :
  clv_row_ok rows (clv_record float_sum b (c, filter (of_customer c) rows)).
Proof.
  unfold clv_row_ok; cbn [clv_customer total_transactions avg_order_value clv
                          purchase_lifespan purchase_frequency total_revenue
                          first_purchase_date last_purchase_date clv_record fst snd].
  split; [apply nunique_distinct_invoices|].
  split; [reflexivity|split; [reflexivity|]].
  destruct (dates (filter (of_customer c) rows)) as [|d0 l] eqn:Ed.
  - simpl; split; [|auto].
    now apply no_dates_undated.
  - assert (Hne : dates (filter (of_customer c) rows) <> []) by (rewrite Ed; discriminate).
    destruct (series_max_latest (of_customer c) rows Hne) as (last & Hmax & Hlast).
    destruct (series_min_earliest (of_customer c) rows Hne) as (first & Hmin & Hfirst).
    rewrite <- Ed, Hmax, Hmin; cbn [days_between].
    assert (Hle : first <= last).
    { destruct Hlast as [(r & Hr & Hs & E) _]; destruct Hfirst as [_ Hall]; eauto. }
    split; [|split; [|split]].
    + exists first, last; repeat split; try apply Hlast; try apply Hfirst.
      intros ->; rewrite Z.sub_diag; reflexivity.
    + apply Z.div_pos; [lia|reflexivity].
    + reflexivity.
    + intros E Hn; rewrite E; cbn [Z.add].
      rewrite (fdiv_by_one _ Hn); apply f64_eq_refl.
Qed.

(** C4.  For every transaction table, every sorting routine that honours
    the contract of [sort_values] and every summation kernel,
    [calculate_clv] returns one row per customer.  In the row of a
    customer the number of transactions is the number of distinct
    invoice numbers of the customer's rows, the first and the last
    purchase date are the earliest and the latest date of these rows,
    the lifespan is the number of whole days between them, never
    negative, and the purchase frequency is the float64 quotient of the
    number of transactions by the lifespan plus one, a divisor of at
    least 1; with equal first and last dates the lifespan is 0 and the
    purchase frequency is the number of transactions.  A customer none
    of whose rows has a date has no lifespan and a purchase frequency
    (and a CLV) that is NaN.  Along the returned table the projected CLV
    never increases, the rows whose CLV is NaN coming last. *)
Theorem calculate_clv_frequency_and_order
        (sort_floats : SortFloats) (Hsort : sort_floats_contract sort_floats)
        (float_sum : list Q -> float64)
        (h : State) (df : loc) (rows : list Transaction) :
  nth_error h df = Some (Transactions rows) ->
  exists out,
    calculate_clv sort_floats float_sum df h = (Ok (length h), h ++ [CLVTable out]) /\
    NoDup (map clv_customer out) /\
    (forall c, In c (map clv_customer out)
               <-> exists r, In r rows /\ CustomerID r = Some c) /\
    Forall (clv_row_ok rows) out /\
    descending_nan_last clv out.
Proof.
  intros Hdf.
  set (recs := map (clv_record float_sum (number_column_is_int (map TotalPrice rows)))
                   (groupby Z.eqb Z.leb CustomerID rows)).
  assert (Hperm : Permutation recs (sort_floats _ clv recs)) by apply Hsort.
  assert (Hids : map clv_customer recs = map fst (groupby Z.eqb Z.leb CustomerID rows))
    by (unfold recs; rewrite map_map; reflexivity).
  exists (sort_floats _ clv recs).
  split; [|split; [|split; [|split]]].
  - unfold calculate_clv, bind, alloc.
    now rewrite (load_transactions_ok _ _ _ Hdf).
  - eapply Permutation_NoDup; [apply Permutation_map, Hperm|].
    rewrite Hids; apply groupby_keys_NoDup, Z.eqb_eq.
  - intros c.
    rewrite <- (groupby_keys_In Z.eqb Z.leb CustomerID Z.eqb_eq rows c), <- Hids.
    split; apply Permutation_in, Permutation_map; [symmetry|]; exact Hperm.
  - eapply Permutation_Forall; [exact Hperm|].
    apply Forall_forall; intros r Hr.
    apply in_map_iff in Hr; destruct Hr as ([c g] & <- & Hg).
    apply groupby_In in Hg; [|apply Z.eqb_eq].
    destruct Hg as [-> _].
    apply clv_record_ok.
  - apply Hsort.
Qed.

Lemma calculate_clv_frequency_and_order_witness :
  exists out,
    calculate_clv sort_floats_stable sum_left_to_right 0%nat
                  [Transactions three_invoices]
    = (Ok 1%nat, [Transactions three_invoices; CLVTable out]) /\
    map clv_customer out = [17851; 17850] /\
    Forall (clv_row_ok three_invoices) out /\
    descending_nan_last clv out.
Proof.
  destruct (calculate_clv_frequency_and_order
              sort_floats_stable sort_floats_stable_contract
              sum_left_to_right
              [Transactions three_invoices] 0%nat three_invoices eq_refl)
    as (out & Hrun & _ & _ & Hrows & Hdesc).
  exists out; split; [exact Hrun|split; [|split; [exact Hrows|exact Hdesc]]].
  vm_compute in Hrun; injection Hrun as <-; reflexivity.
Defined.

(** The customers of [three_invoices]: two invoices four days apart give
    the lifespan 4 and the frequency 2/5, rounded to the nearest double;
    a single invoice gives the lifespan 0 and the frequency 1. *)
Lemma calculate_clv_three_invoices :
  exists a b,
    calculate_clv sort_floats_stable sum_left_to_right 0%nat
                  [Transactions three_invoices]
    = (Ok 1%nat, [Transactions three_invoices; CLVTable [a; b]]) /\
    clv_customer a = 17851 /\ total_transactions a = 1 /\
    purchase_lifespan a = Some 0 /\ purchase_frequency a = Finite 1 /\
    clv_customer b = 17850 /\ total_transactions b = 2 /\
    purchase_lifespan b = Some 4 /\
    purchase_frequency b = Finite (3602879701896397 # 9007199254740992).
Proof.
  eexists; eexists; split; [vm_compute; reflexivity|].
  repeat split.
Qed.

End CLVProofs.

Module RFMRun.
Import Py Pandas Analytics Spec HeapFacts ListFacts SortFacts GroupFacts AnalyticsFacts.

Lemma astype_int_raises c e : astype_int c = Raise e -> exists msg, e = ValueError msg.
Proof.
  induction c as [|[z|] c IH]; simpl; try discriminate.
  - destruct (astype_int c); try discriminate.
    intros E; inversion E; subst; auto.
  - intros E; inversion E; eauto.
Qed.

Lemma qcut_raises x q labels e :
  qcut x q labels = Raise e -> exists msg, e = ValueError msg.
Proof.
  unfold qcut; destruct x; [intros E; inversion E; eauto|].
  repeat match goal with |- context [if ?b then _ else _] => destruct b end;
    intros E; inversion E; eauto.
Qed.

Lemma qcut_series_raises x q labels e :
  qcut_series x q labels = Raise e -> exists msg, e = ValueError msg.
Proof.
  unfold qcut_series.
  destruct (qcut (somes x) q labels) as [cat|e'] eqn:Hq; [discriminate|].
  intros E; inversion E; subst; eapply qcut_raises; eauto.
Qed.

Lemma score_metric_run (h : State) (t : Frame) col labels c :
  getitem col t = Ok c ->
  score_metric (length h) col labels (h ++ [Table t]) =
  (Ok tt, h ++ [Table (setitem (substring 0 1 col)
                               (IntCol (score_column c labels (length (index t)))) t)]).
Proof.
  intros Hc.
  unfold score_metric, try_except_ValueError, bind, load_table, lift, bind, ret, score_column.
  rewrite !load_last, Hc.
  destruct (qcut_series (rank_series c) 4 labels) as [cat|e] eqn:Hq.
  - destruct (astype_int cat) as [scores|e] eqn:Ha.
    + now rewrite store_last.
    + destruct (astype_int_raises _ _ Ha) as [msg ->].
      cbv beta iota; rewrite load_last; now rewrite store_last.
  - destruct (qcut_series_raises _ _ _ _ Hq) as [msg ->].
    cbv beta iota; rewrite load_last; now rewrite store_last.
Qed.

Lemma is_float_sum_TotalPrice rows groups :
  is_float_column (sum_TotalPrice rows groups)
  = negb (number_column_is_int (map TotalPrice rows)).
Proof. unfold sum_TotalPrice; now destruct (number_column_is_int _). Qed.

Lemma is_str_sum_TotalPrice rows groups :
  is_str_column (sum_TotalPrice rows groups) = false.
Proof. unfold sum_TotalPrice; now destruct (number_column_is_int _). Qed.

Lemma is_nan_sum_TotalPrice rows groups :
  is_nan_column (sum_TotalPrice rows groups) = false.
Proof. unfold sum_TotalPrice; now destruct (number_column_is_int _). Qed.

Lemma load_table_last (h : State) t :
  load_table (length h) (h ++ [Table t]) = (Ok t, h ++ [Table t]).
Proof. unfold load_table, bind; now rewrite load_last. Qed.

Ltac eval_int_values :=
  repeat match goal with
         | |- context [int_values ?n ?t] =>
           let H := fresh in
           eassert (H : int_values n t = Ok _) by reflexivity;
           rewrite H; clear H
         end.

(** The program, run on a heap that holds the transaction table [rows]
    at [df], returns a reference to a new object, the table
    [rfm_table rows], appended to a heap that is otherwise as before. *)
Lemma calculate_rfm_run (h : State) (df : loc) (rows : list Transaction) :
  nth_error h df = Some (Transactions rows) ->
  calculate_rfm df h = (Ok (length h), h ++ [Table (rfm_table rows)]).
Proof.
  intros Hdf.
  unfold calculate_rfm.
  unfold bind at 1; rewrite (load_transactions_ok _ _ _ Hdf).
  unfold bind at 1; unfold alloc.
  unfold bind at 1. unfold bind at 1. unfold load_table at 1; unfold bind at 1.
  rewrite load_last. unfold ret at 1. rewrite store_last.
  unfold for_each; cbn [fst snd].
  unfold bind at 1. unfold bind at 1.
  erewrite score_metric_run by reflexivity.
  unfold bind at 1.
  erewrite score_metric_run by reflexivity.
  unfold bind at 1.
  erewrite score_metric_run by reflexivity.
  unfold ret at 1.
  unfold bind at 1. unfold bind at 1.
  rewrite load_table_last.
  unfold bind, lift; eval_int_values.
  rewrite store_last, load_table_last.
  eval_int_values.
  rewrite store_last.
  unfold ret.
  unfold rfm_table, segment_dtype, R_scores, F_scores, M_scores, monetary_column,
    recency_column, frequency_column, customers, rfm_aggregate, agg_rfm, sum_TotalPrice,
    days_column.
  destruct (number_column_is_int (map TotalPrice rows));
    destruct (forallb is_some _); reflexivity.
Qed.

End RFMRun.

(* ================================================================== *)
(** ** Facts about ranking                                            *)
(* ================================================================== *)

Module RankFacts.
Import Pandas.

Section Count.
Context {A : Type}.
Implicit Types (p q r : A -> bool) (l : list A).

Lemma count_nil p : count p [] = 0.
Proof. reflexivity. Qed.

Lemma count_cons p x l : count p (x :: l) = (if p x then 1 else 0) + count p l.
Proof. unfold count; simpl; destruct (p x); simpl length; lia. Qed.

Lemma count_app p l1 l2 : count p (l1 ++ l2) = count p l1 + count p l2.
Proof. unfold count; rewrite filter_app, length_app; lia. Qed.

Lemma count_bounds p l : 0 <= count p l <= Z.of_nat (length l).
Proof.
  induction l as [|x l IH]; [now cbv|].
  rewrite count_cons; simpl length; destruct (p x); lia.
Qed.

Lemma count_ext p q l :
  (forall y, In y l -> p y = q y) -> count p l = count q l.
Proof.
  induction l as [|x l IH]; intros H; [reflexivity|].
  rewrite !count_cons, (H x), IH; simpl in *; auto.
Qed.

Lemma count_impl p q l :
  (forall y, In y l -> p y = true -> q y = true) -> count p l <= count q l.
Proof.
  induction l as [|x l IH]; intros H; [reflexivity|].
  rewrite !count_cons.
  assert (count p l <= count q l) by (apply IH; simpl in *; auto).
  destruct (p x) eqn:E; [rewrite (H x) by (simpl; auto); lia|destruct (q x); lia].
Qed.

Lemma count_disjoint p q r l :
  (forall y, In y l -> p y = true -> q y = false) ->
  (forall y, In y l -> p y = true -> r y = true) ->
  (forall y, In y l -> q y = true -> r y = true) ->
  count p l + count q l <= count r l.
Proof.
  induction l as [|x l IH]; intros Hpq Hp Hq; [reflexivity|].
  rewrite !count_cons.
  assert (count p l + count q l <= count r l) by (apply IH; simpl in *; auto).
  destruct (p x) eqn:Ep.
  - rewrite (Hpq x), (Hp x) by (simpl; auto); lia.
  - destruct (q x) eqn:Eq; [rewrite (Hq x) by (simpl; auto); lia|destruct (r x); lia].
Qed.
End Count.

Lemma nth_error_split_firstn {A} (l : list A) i x :
  nth_error l i = Some x -> l = firstn i l ++ x :: skipn (S i) l.
Proof.
  revert i; induction l as [|y l IH]; intros [|i] H; simpl in *; try discriminate.
  - now inversion H.
  - f_equal; auto.
Qed.

Lemma firstn_firstn_lt {A} (l : list A) i j x :
  (i < j)%nat -> nth_error l i = Some x ->
  firstn j l = firstn i l ++ x :: firstn (j - S i) (skipn (S i) l).
Proof.
  revert i j; induction l as [|y l IH]; intros [|i] [|j] Hij H; simpl in *;
    try discriminate; try lia.
  - inversion H; subst; now rewrite Nat.sub_0_r.
  - f_equal; apply IH; auto; lia.
Qed.

Lemma nth_error_combine_seq {A} (l : list A) s i :
  nth_error (combine (seq s (length l)) l) i
  = option_map (fun x => ((s + i)%nat, x)) (nth_error l i).
Proof.
  revert s i; induction l as [|x l IH]; intros s [|i]; simpl; auto.
  - now rewrite Nat.add_0_r.
  - rewrite IH; now rewrite Nat.add_succ_r.
Qed.

Section Rank.
Context {A : Type} (ltb : A -> A -> bool).

Lemma length_rank_first l : length (rank_first ltb l) = length l.
Proof.
  unfold rank_first.
  rewrite length_map, length_combine, length_seq; lia.
Qed.

Lemma nth_error_rank_first l i :
  nth_error (rank_first ltb l) i = option_map (rank_at ltb l i) (nth_error l i).
Proof.
  unfold rank_first.
  rewrite nth_error_map, nth_error_combine_seq.
  destruct (nth_error l i); reflexivity.
Qed.

(** [ltb] is a strict weak order: the order of the integers, and of
    the rationals compared by value. *)
Hypothesis ltb_irrefl : forall x, ltb x x = false.
Hypothesis ltb_trans : forall x y z, ltb x y = true -> ltb y z = true -> ltb x z = true.
Hypothesis ltb_split : forall x y z, ltb x z = true -> ltb x y = true \/ ltb y z = true.

Lemma ltb_asym x y : ltb x y = true -> ltb y x = false.
Proof.
  intros H; destruct (ltb y x) eqn:E; auto.
  rewrite <- (ltb_irrefl x); symmetry; eauto.
Qed.

Lemma tied_lt_l x y z : tied ltb y x = true -> ltb x z = true -> ltb y z = true.
Proof.
  unfold tied; rewrite andb_true_iff, !negb_true_iff; intros [_ H] Hxz.
  destruct (ltb_split x y z Hxz); congruence.
Qed.

Lemma tied_lt_r x y z : tied ltb x z = true -> ltb y x = true -> ltb y z = true.
Proof.
  unfold tied; rewrite andb_true_iff, !negb_true_iff; intros [_ H] Hyx.
  destruct (ltb_split y z x Hyx); congruence.
Qed.

Lemma tied_sym x y : tied ltb x y = tied ltb y x.
Proof. unfold tied; apply andb_comm. Qed.

Lemma tied_refl x : tied ltb x x = true.
Proof. unfold tied; now rewrite ltb_irrefl. Qed.

Lemma tied_trans x y z :
  tied ltb x y = true -> tied ltb y z = true -> tied ltb x z = true.
Proof.
  intros Hxy Hyz.
  destruct (ltb x z) eqn:E1.
  - rewrite tied_sym in Hyz.
    pose proof (tied_lt_r z x y Hyz) as H.
    unfold tied in Hxy; rewrite andb_true_iff, !negb_true_iff in Hxy.
    destruct (ltb_split x y z E1) as [H'|H'].
    + destruct Hxy; congruence.
    + unfold tied in Hyz; rewrite andb_true_iff, !negb_true_iff in Hyz.
      destruct Hyz; congruence.
  - destruct (ltb z x) eqn:E2; [|unfold tied; now rewrite E1, E2].
    destruct (ltb_split z y x E2) as [H'|H'].
    + unfold tied in Hyz; rewrite andb_true_iff, !negb_true_iff in Hyz.
      destruct Hyz; congruence.
    + unfold tied in Hxy; rewrite andb_true_iff, !negb_true_iff in Hxy.
      destruct Hxy; congruence.
Qed.

Lemma tied_not_lt x y : tied ltb y x = true -> ltb y x = false.
Proof.
  unfold tied; rewrite andb_true_iff, !negb_true_iff; tauto.
Qed.

(** A strictly smaller value has a strictly smaller rank. *)
Lemma rank_at_lt l i j x y :
  nth_error l i = Some x -> nth_error l j = Some y -> ltb x y = true ->
  rank_at ltb l i x < rank_at ltb l j y.
Proof.
  intros Hi Hj Hxy; unfold rank_at.
  pose proof (count_bounds (fun z => tied ltb z y) (firstn j l)) as Hb.
  enough (count (fun z => ltb z x) l + count (fun z => tied ltb z x) (firstn i l)
          < count (fun z => ltb z y) l) by lia.
  rewrite (nth_error_split_firstn l i x Hi) at 1 3.
  rewrite !count_app, !count_cons, ltb_irrefl, Hxy.
  pose proof (count_disjoint (fun z => ltb z x) (fun z => tied ltb z x)
                             (fun z => ltb z y) (firstn i l)) as H1.
  pose proof (count_impl (fun z => ltb z x) (fun z => ltb z y) (skipn (S i) l)) as H2.
  cut (count (fun z => ltb z x) (firstn i l) + count (fun z => tied ltb z x) (firstn i l)
       <= count (fun z => ltb z y) (firstn i l) /\
       count (fun z => ltb z x) (skipn (S i) l) <= count (fun z => ltb z y) (skipn (S i) l));
    [lia|split].
  - apply H1; intros z _ Hz.
    + unfold tied; now rewrite Hz.
    + eapply ltb_trans; eauto.
    + eapply tied_lt_l; eauto.
  - apply H2; intros z _ Hz; eapply ltb_trans; eauto.
Qed.

(** Of two equal values the earlier one has the smaller rank. *)
Lemma rank_at_tied l i j x y :
  nth_error l i = Some x -> nth_error l j = Some y -> (i < j)%nat ->
  tied ltb x y = true ->
  rank_at ltb l i x < rank_at ltb l j y.
Proof.
  intros Hi Hj Hij Hxy; unfold rank_at.
  assert (E1 : count (fun z => ltb z x) l = count (fun z => ltb z y) l).
  { apply count_ext; intros z _.
    destruct (ltb z x) eqn:E.
    - symmetry; eapply tied_lt_r; eauto.
    - destruct (ltb z y) eqn:E'; auto.
      rewrite tied_sym in Hxy.
      rewrite (tied_lt_r y z x Hxy E') in E; discriminate. }
  rewrite E1, (firstn_firstn_lt l i j x Hij Hi), !count_app, count_cons, Hxy.
  assert (E2 : count (fun z => tied ltb z x) (firstn i l)
               = count (fun z => tied ltb z y) (firstn i l)).
  { apply count_ext; intros z _.
    destruct (tied ltb z x) eqn:E.
    - symmetry; eapply tied_trans; eauto.
    - destruct (tied ltb z y) eqn:E'; auto.
      rewrite tied_sym in Hxy.
      rewrite (tied_trans z y x E' Hxy) in E; discriminate. }
  pose proof (count_bounds (fun z => tied ltb z y)
                           (firstn (j - S i) (skipn (S i) l))).
  lia.
Qed.

Lemma rank_at_bounds l i x :
  nth_error l i = Some x -> 1 <= rank_at ltb l i x <= Z.of_nat (length l).
Proof.
  intros Hi; unfold rank_at.
  pose proof (nth_error_split_firstn l i x Hi) as Hs.
  set (l1 := firstn i l) in *; set (l2 := skipn (S i) l) in *.
  clearbody l1 l2; clear Hi; subst l.
  rewrite !count_app, count_cons, ltb_irrefl, !length_app; simpl length.
  pose proof (count_bounds (fun z => ltb z x) l1).
  pose proof (count_bounds (fun z => tied ltb z x) l1).
  pose proof (count_bounds (fun _ : A => true) l1).
  pose proof (count_bounds (fun z => ltb z x) l2).
  assert (count (fun z => ltb z x) l1 + count (fun z => tied ltb z x) l1
          <= count (fun _ => true) l1).
  { apply count_disjoint; auto; intros z _ Hz; unfold tied; now rewrite Hz. }
  lia.
Qed.

Lemma rank_at_inj l i j x y :
  nth_error l i = Some x -> nth_error l j = Some y ->
  rank_at ltb l i x = rank_at ltb l j y -> i = j.
Proof.
  intros Hi Hj E.
  destruct (ltb x y) eqn:Exy.
  { pose proof (rank_at_lt l i j x y Hi Hj Exy); lia. }
  destruct (ltb y x) eqn:Eyx.
  { pose proof (rank_at_lt l j i y x Hj Hi Eyx); lia. }
  assert (Ht : tied ltb x y = true) by (unfold tied; now rewrite Exy, Eyx).
  destruct (Nat.lt_trichotomy i j) as [H|[H|H]]; auto.
  - pose proof (rank_at_tied l i j x y Hi Hj H Ht); lia.
  - rewrite tied_sym in Ht.
    pose proof (rank_at_tied l j i y x Hj Hi H Ht); lia.
Qed.
End Rank.

End RankFacts.

(* ================================================================== *)
(** ** Facts about quantile binning of ranks                          *)
(* ================================================================== *)

Module QcutFacts.
Import Py Pandas Spec ListFacts SortFacts RankFacts.

(** *** The ranks are the numbers 1..n in some order *)

Lemma In_ranks_1_to n z : In z (ranks_1_to n) <-> 1 <= z <= Z.of_nat n.
Proof.
  unfold ranks_1_to; rewrite in_map_iff; split.
  - intros (k & <- & Hk); apply in_seq in Hk; lia.
  - intros Hz; exists (Z.to_nat z); split; [lia|apply in_seq; lia].
Qed.

Lemma length_ranks_1_to n : length (ranks_1_to n) = n.
Proof. unfold ranks_1_to; now rewrite length_map, length_seq. Qed.

Lemma nth_ranks_1_to n k : (k < n)%nat -> nth k (ranks_1_to n) 0 = Z.of_nat k + 1.
Proof.
  intros Hk; unfold ranks_1_to.
  change 0 with (Z.of_nat 0); rewrite map_nth, seq_nth by lia; lia.
Qed.

Lemma ranks_1_to_sorted n : StronglySorted Z.le (ranks_1_to n).
Proof.
  unfold ranks_1_to; generalize 1%nat as s.
  induction n as [|n IH]; intros s; simpl; constructor; auto.
  apply Forall_forall; intros z Hz.
  apply in_map_iff in Hz; destruct Hz as (k & <- & Hk).
  apply in_seq in Hk; lia.
Qed.

Lemma sorted_perm_unique (a b : list Z) :
  StronglySorted Z.le a -> StronglySorted Z.le b -> Permutation a b -> a = b.
Proof.
  intros Ha; revert b; induction Ha as [|x a Ha IH Hx]; intros b Hb Hp.
  - apply Permutation_nil in Hp; now subst.
  - destruct Hb as [|y b Hb Hy].
    + symmetry in Hp; apply Permutation_nil in Hp; discriminate.
    + assert (x = y).
      { rewrite Forall_forall in Hx, Hy.
        assert (Hxin : In x (y :: b)) by (eapply Permutation_in; eauto; now left).
        assert (Hyin : In y (x :: a))
          by (eapply Permutation_in; [symmetry; eauto|now left]).
        destruct Hxin as [|Hxin]; auto; destruct Hyin as [|Hyin]; auto.
        specialize (Hx _ Hyin); specialize (Hy _ Hxin); lia. }
      subst y; f_equal; apply IH; auto.
      eapply Permutation_cons_inv; eauto.
Qed.

Lemma Z_leb_total x y : (x <=? y) = true \/ (y <=? x) = true.
Proof. rewrite !Z.leb_le; lia. Qed.

Lemma sort_Z_sorted l : StronglySorted Z.le (sort Z.leb l).
Proof.
  apply Sorted_StronglySorted; [intros x y z; apply Z.le_trans|].
  eapply Sorted_weaken; [|apply (sort_sorted Z.leb Z_leb_total)].
  intros x y; apply Z.leb_le.
Qed.

Section Ranks.
Context {A : Type} (ltb : A -> A -> bool).
Hypothesis ltb_irrefl : forall x, ltb x x = false.
Hypothesis ltb_trans : forall x y z, ltb x y = true -> ltb y z = true -> ltb x z = true.
Hypothesis ltb_split : forall x y z, ltb x z = true -> ltb x y = true \/ ltb y z = true.

Lemma rank_first_range l r :
  In r (rank_first ltb l) -> 1 <= r <= Z.of_nat (length l).
Proof.
  intros Hr; apply In_nth_error in Hr; destruct Hr as [i Hi].
  rewrite nth_error_rank_first in Hi.
  destruct (nth_error l i) as [x|] eqn:E; simpl in Hi; inversion Hi; subst.
  now apply rank_at_bounds.
Qed.

Lemma rank_first_NoDup l : NoDup (rank_first ltb l).
Proof.
  apply NoDup_nth_error; intros i j Hi E.
  rewrite length_rank_first in Hi.
  rewrite !nth_error_rank_first in E.
  destruct (nth_error l i) as [x|] eqn:Ei; [|apply nth_error_None in Ei; lia].
  destruct (nth_error l j) as [y|] eqn:Ej; simpl in E; [|discriminate].
  inversion E; eapply rank_at_inj; eauto.
Qed.

Lemma rank_first_perm l : Permutation (rank_first ltb l) (ranks_1_to (length l)).
Proof.
  apply NoDup_Permutation_bis.
  - apply rank_first_NoDup.
  - now rewrite length_ranks_1_to, length_rank_first.
  - intros r Hr; apply In_ranks_1_to; now apply rank_first_range.
Qed.

Lemma sort_rank_first l : sort Z.leb (rank_first ltb l) = ranks_1_to (length l).
Proof.
  apply sorted_perm_unique.
  - apply sort_Z_sorted.
  - apply ranks_1_to_sorted.
  - rewrite <- (sort_perm Z.leb); apply rank_first_perm.
Qed.

(** Some customer has rank 1. *)
Lemma rank_first_has_1 l : l <> [] -> exists i, nth_error (rank_first ltb l) i = Some 1.
Proof.
  intros Hl; apply In_nth_error.
  eapply Permutation_in; [symmetry; apply rank_first_perm|].
  apply In_ranks_1_to; destruct l; [congruence|simpl length; lia].
Qed.
End Ranks.

End QcutFacts.

Module QuartileFacts.
Import Py Pandas Spec ListFacts SortFacts RankFacts QcutFacts.

(** *** The bin edges of the ranks 1..n *)

Lemma quantile_ranks n k :
  (1 <= n)%nat -> 0 <= k <= 4 ->
  (quantile (ranks_1_to n) (inject_Z k / inject_Z 4)
   == 1 + inject_Z k * inject_Z (Z.of_nat n - 1) / 4)%Q.
Proof.
  intros Hn Hk; unfold quantile.
  rewrite length_ranks_1_to.
  set (d := Z.of_nat n - 1).
  set (pos := (inject_Z k / inject_Z 4 * inject_Z d)%Q).
  assert (Hd : (inject_Z 0 <= inject_Z d)%Q) by (rewrite <- Zle_Qle; lia).
  assert (Hk0 : (inject_Z 0 <= inject_Z k)%Q) by (rewrite <- Zle_Qle; lia).
  assert (Hk4 : (inject_Z k <= inject_Z 4)%Q) by (rewrite <- Zle_Qle; lia).
  change (inject_Z 0) with 0%Q in Hd, Hk0; change (inject_Z 4) with 4%Q in Hk4.
  assert (Hpos : (pos == inject_Z k * inject_Z d / 4)%Q) by (unfold pos; field).
  assert (Hpos0 : (0 <= pos)%Q).
  { rewrite Hpos. apply Qle_shift_div_l; [reflexivity|].
    rewrite Qmult_0_l; now apply Qmult_le_0_compat. }
  assert (Hposd : (pos <= inject_Z d)%Q).
  { rewrite Hpos. apply Qle_shift_div_r; [reflexivity|].
    rewrite (Qmult_comm (inject_Z d)).
    apply Qmult_le_compat_r; auto. }
  pose proof (Qfloor_le pos) as Hlo1.
  pose proof (Qlt_floor pos) as Hlo2.
  set (lo := Qfloor pos) in *.
  assert (Hlo : 0 <= lo <= d).
  { split.
    - assert (H : (inject_Z 0 < inject_Z (lo + 1))%Q)
        by (eapply Qle_lt_trans; eauto).
      rewrite <- Zlt_Qlt in H; lia.
    - rewrite Zle_Qle; eapply Qle_trans; eauto. }
  clearbody lo pos.
  destruct (Z_lt_le_dec lo d) as [Hlt|Hge].
  - rewrite Z.min_l by lia.
    rewrite !nth_ranks_1_to by lia.
    rewrite !Z2Nat.id by lia.
    replace (lo + 1 + 1 - (lo + 1)) with 1 by lia.
    rewrite inject_Z_plus, Hpos; change (inject_Z 1) with 1%Q; ring.
  - assert (lo = d) by lia.
    rewrite Z.min_r by lia.
    replace (Z.to_nat d) with (Z.to_nat lo) by lia.
    rewrite Z.sub_diag.
    rewrite nth_ranks_1_to by lia.
    rewrite Z2Nat.id by lia.
    assert (E : (pos == inject_Z lo)%Q).
    { apply Qle_antisym; auto. now subst lo. }
    rewrite <- Hpos, inject_Z_plus, E.
    change (inject_Z 0) with 0%Q; change (inject_Z 1) with 1%Q; ring.
Qed.

Lemma linspace01_4 :
  linspace01 4 = map (fun k => (inject_Z k / inject_Z 4)%Q) [0; 1; 2; 3; 4].
Proof. reflexivity. Qed.

Lemma quartile_bins n :
  (1 <= n)%nat ->
  Forall2 Qeq (map (quantile (ranks_1_to n)) (linspace01 4)) (quartile_edges n).
Proof.
  intros Hn; rewrite linspace01_4; unfold quartile_edges; simpl map.
  repeat (constructor; [apply quantile_ranks; auto; lia|]); constructor.
Qed.

(** *** Binning does not depend on how the edges are written *)

Lemma existsb_Qeq x x' l l' :
  (x == x')%Q -> Forall2 Qeq l l' ->
  existsb (Qeq_bool x) l = existsb (Qeq_bool x') l'.
Proof.
  intros Hx; induction 1 as [|y y' l l' Hy Hl IH]; simpl; auto.
  now rewrite IH, Hx, Hy.
Qed.

Lemma all_distinct_Qeq l l' : Forall2 Qeq l l' -> all_distinct l = all_distinct l'.
Proof.
  induction 1 as [|y y' l l' Hy Hl IH]; simpl; auto.
  now rewrite IH, (existsb_Qeq y y' l l' Hy Hl).
Qed.

Lemma searchsorted_left_Qeq l l' v :
  Forall2 Qeq l l' -> searchsorted_left l v = searchsorted_left l' v.
Proof.
  unfold searchsorted_left.
  induction 1 as [|y y' l l' Hy Hl IH]; simpl; auto.
  assert (E : Qltb y v = Qltb y' v) by (unfold Qltb; now rewrite Hy).
  rewrite E; destruct (Qltb y' v); simpl; auto.
Qed.

Lemma bin_id_Qeq l l' v : Forall2 Qeq l l' -> bin_id l v = bin_id l' v.
Proof.
  intros H; unfold bin_id.
  rewrite (searchsorted_left_Qeq l l' _ H).
  destruct H as [|y y' l l' Hy Hl]; simpl; auto.
  now rewrite Hy.
Qed.

(** *** The edges are distinct from two customers on, and every rank
    falls into one of the four bins *)

Lemma all_distinct_increasing l : StronglySorted Qlt l -> all_distinct l = true.
Proof.
  induction 1 as [|x l Hl IH Hx]; simpl; auto.
  rewrite IH, andb_true_r, negb_true_iff.
  apply not_true_is_false; intros E.
  apply existsb_exists in E; destruct E as (y & Hy & E).
  rewrite Forall_forall in Hx; specialize (Hx y Hy).
  apply Qeq_bool_iff in E; rewrite E in Hx.
  now apply Qlt_irrefl in Hx.
Qed.

Lemma quartile_edges_increasing n :
  (2 <= n)%nat -> StronglySorted Qlt (quartile_edges n).
Proof.
  intros Hn; unfold quartile_edges; simpl map.
  assert (Hd : (inject_Z 0 < inject_Z (Z.of_nat n - 1))%Q)
    by (rewrite <- Zlt_Qlt; lia).
  change (inject_Z 0) with 0%Q in Hd.
  set (d := inject_Z (Z.of_nat n - 1)) in *.
  change (inject_Z 0) with 0%Q; change (inject_Z 1) with 1%Q;
    change (inject_Z 2) with 2%Q; change (inject_Z 3) with 3%Q;
    change (inject_Z 4) with 4%Q.
  unfold Qdiv; change (/ 4)%Q with (1 # 4)%Q.
  repeat (apply SSorted_cons || apply SSorted_nil
          || apply Forall_cons || apply Forall_nil); lra.
Qed.

Lemma quartile_first n : quartile n 1 = 1%nat.
Proof.
  unfold quartile, bin_id, quartile_edges; simpl hd.
  destruct (Qeq_bool _ _) eqn:E; [reflexivity|].
  apply Qeq_bool_neq in E; exfalso; apply E.
  change (inject_Z 0) with 0%Q; change (inject_Z 1) with 1%Q. field.
Qed.

Lemma quartile_range n r :
  (2 <= n)%nat -> 1 <= r <= Z.of_nat n -> (1 <= quartile n r <= 4)%nat.
Proof.
  intros Hn Hr.
  destruct (Z.eq_dec r 1) as [->|Hr1]; [rewrite quartile_first; lia|].
  unfold quartile, bin_id, quartile_edges, searchsorted_left; simpl map; simpl hd.
  assert (Hr2 : (inject_Z 2 <= inject_Z r)%Q) by (rewrite <- Zle_Qle; lia).
  change (inject_Z 2) with 2%Q in Hr2.
  assert (Hrn : (inject_Z r <= inject_Z (Z.of_nat n - 1) + inject_Z 1)%Q).
  { rewrite <- inject_Z_plus, <- Zle_Qle; lia. }
  change (inject_Z 1) with 1%Q in Hrn.
  set (d := inject_Z (Z.of_nat n - 1)) in *.
  set (v := inject_Z r) in *.
  change (inject_Z 0) with 0%Q; change (inject_Z 1) with 1%Q;
    change (inject_Z 2) with 2%Q; change (inject_Z 3) with 3%Q;
    change (inject_Z 4) with 4%Q.
  unfold Qdiv; change (/ 4)%Q with (1 # 4)%Q.
  replace (Qeq_bool v (1 + 0 * d * (1 # 4))) with false.
  2:{ symmetry; apply not_true_is_false; intros E.
      apply Qeq_bool_iff in E; lra. }
  simpl filter.
  replace (Qltb (1 + 0 * d * (1 # 4)) v) with true.
  2:{ symmetry; unfold Qltb; apply negb_true_iff, not_true_is_false; intros E.
      apply Qle_bool_iff in E; lra. }
  replace (Qltb (1 + 4 * d * (1 # 4)) v) with false.
  2:{ symmetry; unfold Qltb; apply negb_false_iff, Qle_bool_iff; lra. }
  destruct (Qltb (1 + 1 * d * (1 # 4)) v), (Qltb (1 + 2 * d * (1 # 4)) v),
    (Qltb (1 + 3 * d * (1 # 4)) v); simpl; lia.
Qed.

Lemma quartile_monotone n r1 r2 :
  (2 <= n)%nat -> 1 <= r1 -> r1 <= r2 -> r2 <= Z.of_nat n ->
  (quartile n r1 <= quartile n r2)%nat.
Proof.
  intros Hn H1 H12 H2.
  destruct (Z.eq_dec r1 1) as [->|Hr1].
  { rewrite quartile_first; apply quartile_range; auto; lia. }
  unfold quartile, bin_id.
  assert (Hne : forall r, 1 < r -> Qeq_bool (inject_Z r) (hd 0%Q (quartile_edges n)) = false).
  { intros r Hr; apply not_true_is_false; intros E; apply Qeq_bool_iff in E.
    unfold quartile_edges in E; simpl in E.
    assert (Hr' : (inject_Z 1 < inject_Z r)%Q) by (rewrite <- Zlt_Qlt; lia).
    change (inject_Z 1) with 1%Q in Hr'.
    change (inject_Z 0) with 0%Q in E.
    rewrite E in Hr'. 
    assert (X : (1 + 0 * inject_Z (Z.of_nat n - 1) / 4 == 1)%Q) by field.
    rewrite X in Hr'; now apply Qlt_irrefl in Hr'. }
  rewrite !Hne by lia.
  unfold searchsorted_left.
  apply Nat2Z.inj_le.
  apply (count_impl (fun b => Qltb b (inject_Z r1)) (fun b => Qltb b (inject_Z r2))).
  intros b _; unfold Qltb; rewrite !negb_true_iff.
  intros E; apply not_true_is_false; intros E'.
  apply Qle_bool_iff in E'.
  assert (Hle : (inject_Z r1 <= b)%Q).
  { eapply Qle_trans; [|exact E']. rewrite <- Zle_Qle; lia. }
  apply Qle_bool_iff in Hle; congruence.
Qed.

End QuartileFacts.

Module ScoreFacts.
Import Py Pandas Spec ListFacts SortFacts RankFacts QcutFacts QuartileFacts.

Lemma astype_int_Some l : astype_int (map Some l) = Ok l.
Proof. induction l as [|z l IH]; simpl; auto. now rewrite IH. Qed.

Lemma astype_int_Ok c l : astype_int c = Ok l -> c = map Some l.
Proof.
  revert l; induction c as [|[z|] c IH]; simpl; intros l E; try discriminate.
  - now inversion E.
  - destruct (astype_int c) as [l'|]; [|discriminate].
    inversion E; subst; simpl; f_equal; auto.
Qed.

Lemma length_linspace01 q : length (linspace01 q) = S q.
Proof. unfold linspace01; now rewrite length_map, length_seq. Qed.

Section Ranks.
Context {A : Type} (ltb : A -> A -> bool).
Hypothesis ltb_irrefl : forall x, ltb x x = false.
Hypothesis ltb_trans : forall x y z, ltb x y = true -> ltb y z = true -> ltb x z = true.
Hypothesis ltb_split : forall x y z, ltb x z = true -> ltb x y = true \/ ltb y z = true.

(** From two customers on, binning the ranks succeeds: every rank
    gets the label of its quartile. *)
Lemma qcut_rank_first l labels :
  (2 <= length l)%nat -> length labels = 4%nat ->
  qcut (rank_first ltb l) 4 labels
  = Ok (map Some (map (fun r => nth (quartile (length l) r - 1) labels 0)
                      (rank_first ltb l))).
Proof.
  intros Hn Hlab; unfold qcut.
  destruct (rank_first ltb l) as [|r0 rs] eqn:E.
  { apply (f_equal (@length Z)) in E; rewrite length_rank_first in E.
    simpl in E; lia. }
  rewrite <- E; clear E r0 rs.
  rewrite (sort_rank_first ltb ltb_irrefl ltb_trans ltb_split).
  pose proof (quartile_bins (length l) ltac:(lia)) as Hb.
  set (bins := map (quantile (ranks_1_to (length l))) (linspace01 4)) in *.
  assert (Hlen : length bins = 5%nat)
    by (unfold bins; now rewrite length_map, length_linspace01).
  rewrite (all_distinct_Qeq _ _ Hb),
    (all_distinct_increasing _ (quartile_edges_increasing _ Hn)).
  rewrite Hlen, Hlab; simpl.
  f_equal; rewrite map_map; apply map_ext_in; intros r Hr.
  rewrite (bin_id_Qeq _ _ r Hb); fold (quartile (length l) r).
  pose proof (quartile_range (length l) r Hn
                (rank_first_range ltb ltb_irrefl l r Hr)) as Hq.
  replace (quartile (length l) r =? 0)%nat with false
    by (symmetry; apply Nat.eqb_neq; lia).
  replace (quartile (length l) r =? 5)%nat with false
    by (symmetry; apply Nat.eqb_neq; lia).
  simpl; apply nth_error_nth'; lia.
Qed.

(** A single customer has rank 1, and binning one rank raises. *)
Lemma qcut_rank_first_single x labels :
  qcut (rank_first ltb [x]) 4 labels = Raise (ValueError "Bin edges must be unique").
Proof.
  unfold rank_first, rank_at, count; simpl.
  rewrite ltb_irrefl; reflexivity.
Qed.
End Ranks.

(** The orders of the integers and of the rationals are strict weak
    orders. *)
Lemma Z_ltb_irrefl x : (x <? x) = false.
Proof. apply Z.ltb_irrefl. Qed.

Lemma Z_ltb_trans x y z : (x <? y) = true -> (y <? z) = true -> (x <? z) = true.
Proof. rewrite !Z.ltb_lt; lia. Qed.

Lemma Z_ltb_split x y z : (x <? z) = true -> (x <? y) = true \/ (y <? z) = true.
Proof. rewrite !Z.ltb_lt; lia. Qed.

Lemma Qltb_lt x y : Qltb x y = true <-> (x < y)%Q.
Proof.
  unfold Qltb; rewrite negb_true_iff; split.
  - intros E; apply Qnot_le_lt; intros H; apply Qle_bool_iff in H; congruence.
  - intros H; apply not_true_is_false; intros E; apply Qle_bool_iff in E.
    now apply Qle_not_lt in E.
Qed.

Lemma Qltb_irrefl x : Qltb x x = false.
Proof. apply not_true_is_false; rewrite Qltb_lt; apply Qlt_irrefl. Qed.

Lemma Qltb_trans x y z : Qltb x y = true -> Qltb y z = true -> Qltb x z = true.
Proof. rewrite !Qltb_lt; apply Qlt_trans. Qed.

Lemma Qltb_split x y z : Qltb x z = true -> Qltb x y = true \/ Qltb y z = true.
Proof.
  rewrite !Qltb_lt; intros H.
  destruct (Qlt_le_dec x y) as [|Hle]; auto.
  right; eapply Qle_lt_trans; eauto.
Qed.

Lemma length_rank c :
  is_nan_column c = false -> length (rank c) = column_length c.
Proof. destruct c; simpl; try discriminate; intros _; apply length_rank_first. Qed.

(** *** Series with NaN cells *)

Lemma length_spread {A B} (x : list (option A)) : forall ys : list (option B),
  length (spread x ys) = length x.
Proof.
  induction x as [|[a|] x IH]; intros ys; simpl; auto.
  destruct ys; simpl; auto.
Qed.

Lemma spread_map_Some {A B} (x : list A) : forall ys : list (option B),
  length ys = length x -> spread (map Some x) ys = ys.
Proof.
  induction x as [|a x IH]; intros [|y ys]; simpl; try discriminate; auto.
  intros E; f_equal; apply IH; lia.
Qed.

Lemma In_None_spread {A B} (x : list (option A)) : forall ys : list (option B),
  In None x -> In None (spread x ys).
Proof.
  induction x as [|[a|] x IH]; intros ys; simpl; [tauto| |auto].
  intros [E|H]; [discriminate|].
  destruct ys; simpl; right; auto.
Qed.

Lemma In_Some_spread {A B} (x : list (option A)) (z : B) : forall ys,
  In (Some z) (spread x ys) -> In (Some z) ys.
Proof.
  induction x as [|[a|] x IH]; intros ys; simpl; [tauto| |].
  - destruct ys as [|y ys]; simpl.
    + intros [E|H]; [discriminate|exact (IH _ H)].
    + intros [E|H]; [now left|right; exact (IH _ H)].
  - intros [E|H]; [discriminate|exact (IH _ H)].
Qed.

Lemma somes_Some {A} (l : list A) : somes (map Some l) = l.
Proof. induction l as [|x l IH]; simpl; congruence. Qed.

Lemma qcut_length x q labels cat :
  qcut x q labels = Ok cat -> length cat = length x.
Proof.
  unfold qcut; destruct x as [|x0 x]; [discriminate|].
  generalize (x0 :: x) as xs; intros xs.
  repeat match goal with |- context [if ?b then _ else _] => destruct b end;
    try discriminate.
  intros E; injection E as <-; apply length_map.
Qed.

Lemma qcut_series_Some x q labels :
  qcut_series (map Some x) q labels = qcut x q labels.
Proof.
  unfold qcut_series; rewrite somes_Some.
  destruct (qcut x q labels) as [cat|e] eqn:E; auto.
  rewrite spread_map_Some; auto.
  eapply qcut_length; eauto.
Qed.

(** On a column without NaN cells the Series of ranks has no NaN, and
    binning it is binning the ranks. *)
Lemma qcut_series_rank c q labels :
  is_nan_column c = false ->
  qcut_series (rank_series c) q labels = qcut (rank c) q labels.
Proof.
  destruct c; simpl; try discriminate; intros _; apply qcut_series_Some.
Qed.

Lemma astype_int_None c :
  In None c -> astype_int c = Raise (ValueError "Cannot convert float NaN to integer").
Proof.
  induction c as [|[z|] c IH]; simpl; [tauto| |auto].
  intros [E|H]; [discriminate|].
  now rewrite IH.
Qed.

(** A NaN cell makes the scoring round fall back: its rank is NaN, it
    falls into no bin, and the conversion to int raises. *)
Lemma score_column_nan v labels m :
  In None v -> score_column (NaNCol v) labels m = repeat 2 m.
Proof.
  intros Hv; unfold score_column, qcut_series.
  destruct (qcut _ 4 labels) as [cat|e]; auto.
  rewrite astype_int_None; auto.
  apply In_None_spread; simpl; now apply In_None_spread.
Qed.

Lemma length_rank_series c : length (rank_series c) = column_length c.
Proof.
  destruct c; simpl; rewrite ?length_map, ?length_spread; auto;
    apply length_rank_first.
Qed.

(** The scoring round, from two customers on. *)
Lemma score_column_quartiles c labels m :
  Analytics.is_str_column c = false -> is_nan_column c = false ->
  (2 <= column_length c)%nat -> length labels = 4%nat ->
  score_column c labels m
  = map (fun r => nth (quartile (column_length c) r - 1) labels 0) (rank c).
Proof.
  intros Hc Hnan Hn Hlab; unfold score_column.
  rewrite qcut_series_rank by exact Hnan.
  destruct c as [v|v|v|v]; simpl in *; try discriminate.
  - rewrite (qcut_rank_first Z.ltb Z_ltb_irrefl Z_ltb_trans Z_ltb_split) by auto.
    now rewrite astype_int_Some.
  - rewrite (qcut_rank_first Qltb Qltb_irrefl Qltb_trans Qltb_split) by auto.
    now rewrite astype_int_Some.
Qed.

(** The scoring round, for at most one customer. *)
Lemma score_column_fallback c labels m :
  Analytics.is_str_column c = false ->
  (column_length c <= 1)%nat ->
  score_column c labels m = repeat 2 m.
Proof.
  intros Hc Hn.
  destruct c as [v|v|v|v]; try discriminate;
    (destruct v as [|x [|y v]]; [reflexivity| |simpl in Hn; lia]).
  - unfold score_column, rank_series, rank; rewrite qcut_series_Some.
    now rewrite (qcut_rank_first_single Z.ltb Z_ltb_irrefl).
  - unfold score_column, rank_series, rank; rewrite qcut_series_Some.
    now rewrite (qcut_rank_first_single Qltb Qltb_irrefl).
  - destruct x as [x|]; [|apply score_column_nan; now left].
    unfold score_column, qcut_series, rank_series, rank, rank_first, rank_at, count.
    simpl; rewrite Qltb_irrefl; reflexivity.
Qed.

Lemma length_score_column c labels :
  length (score_column c labels (column_length c)) = column_length c.
Proof.
  unfold score_column.
  destruct (qcut_series (rank_series c) 4 labels) as [cat|e] eqn:Hq;
    [|apply repeat_length].
  destruct (astype_int cat) as [scores|e] eqn:Ha; [|apply repeat_length].
  apply astype_int_Ok in Ha; subst cat.
  unfold qcut_series in Hq.
  destruct (qcut _ 4 labels); [|discriminate].
  injection Hq as Hq.
  apply (f_equal (@length (option Z))) in Hq.
  rewrite length_spread, length_rank_series, length_map in Hq; auto.
Qed.

(** Whatever happens in the scoring round, a score is one of the labels
    or the neutral 2. *)
Lemma qcut_labels x q labels cat z :
  qcut x q labels = Ok cat -> In (Some z) cat -> In z labels.
Proof.
  unfold qcut; destruct x as [|x0 x]; [discriminate|].
  generalize (x0 :: x) as xs; intros xs.
  set (bins := map (quantile (sort Z.leb xs)) (linspace01 q)).
  destruct (negb (all_distinct bins) && _); [discriminate|].
  destruct (negb (length labels =? _)%nat); [discriminate|].
  intros E Hz; injection E as <-.
  apply in_map_iff in Hz; destruct Hz as (v & Hv & _).
  destruct (_ || _); [discriminate|].
  eapply nth_error_In; eauto.
Qed.

Lemma score_column_range c labels m :
  Forall (fun z => 1 <= z <= 4) labels ->
  Forall (fun s => 1 <= s <= 4) (score_column c labels m).
Proof.
  intros Hlab; unfold score_column.
  assert (H2 : Forall (fun s => 1 <= s <= 4) (repeat 2 m))
    by (apply Forall_forall; intros s Hs; apply repeat_spec in Hs; lia).
  destruct (qcut_series (rank_series c) 4 labels) as [cat|] eqn:Hq; auto.
  destruct (astype_int cat) as [scores|] eqn:Ha; auto.
  apply astype_int_Ok in Ha; subst cat.
  apply Forall_forall; intros s Hs.
  rewrite Forall_forall in Hlab; apply Hlab.
  unfold qcut_series in Hq.
  destruct (qcut _ 4 labels) as [cat|] eqn:Hq'; [|discriminate].
  injection Hq as Hq.
  eapply qcut_labels; [exact Hq'|].
  eapply In_Some_spread; rewrite Hq; now apply in_map.
Qed.

End ScoreFacts.

(* ================================================================== *)
(** ** analytics.py: RFM scoring                                      *)
(* ================================================================== *)

Module RFMProofs.
Import Py Pandas Analytics Spec RawMetrics HeapFacts ListFacts SortFacts GroupFacts.
Import RankFacts QcutFacts QuartileFacts ScoreFacts RFMRun DateFacts.

(** *** The columns of the table *)

Lemma recency_column_cells rows :
  recency_column rows = days_column (recency_cells rows).
Proof. reflexivity. Qed.

Lemma somes_all_some {A} (cells : list (option A)) :
  forallb is_some cells = true -> map Some (somes cells) = cells.
Proof.
  induction cells as [|[a|] cells IH]; simpl; try discriminate; auto.
  intros H; f_equal; auto.
Qed.

Lemma days_column_cases cells :
  (forallb is_some cells = true /\ days_column cells = IntCol (somes cells)) \/
  (forallb is_some cells = false /\
   days_column cells = NaNCol (map (option_map inject_Z) cells) /\
   In None (map (option_map inject_Z) cells)).
Proof.
  unfold days_column; destruct (forallb is_some cells) eqn:E; [left; auto|right].
  repeat split.
  induction cells as [|[a|] cells IH]; simpl in *; try discriminate; auto.
Qed.

Lemma length_days_column cells : column_length (days_column cells) = length cells.
Proof.
  destruct (days_column_cases cells) as [[E ->]|[E [-> _]]]; simpl.
  - rewrite <- (somes_all_some cells E) at 2; now rewrite length_map.
  - apply length_map.
Qed.

Lemma days_column_not_str cells : is_str_column (days_column cells) = false.
Proof. unfold days_column; now destruct (forallb is_some cells). Qed.

Lemma recency_column_not_str rows : is_str_column (recency_column rows) = false.
Proof. apply days_column_not_str. Qed.

(** The Recency of a customer has a value when one of the customer's
    rows has a date. *)
Lemma recency_cell_some rows c :
  dates (filter (of_customer c) rows) <> [] ->
  exists last_c last_all,
    series_max (dates (filter (of_customer c) rows)) = Some last_c /\
    series_max (dates rows) = Some last_all /\
    latest_invoice (of_customer c) rows last_c /\
    latest_invoice (fun _ => true) rows last_all /\
    last_c <= last_all.
Proof.
  intros Hne.
  destruct (series_max_latest (of_customer c) rows Hne) as (last_c & Hmc & Hlc).
  assert (Hne' : dates (filter (fun _ => true) rows) <> []).
  { destruct Hlc as [(r & Hr & _ & E) _].
    intros E0.
    assert (H : In last_c (dates (filter (fun _ => true) rows)))
      by (apply In_dates_filter; eauto).
    rewrite E0 in H; contradiction. }
  destruct (series_max_latest (fun _ => true) rows Hne') as (last_all & Hma & Hla).
  rewrite filter_true in Hma.
  exists last_c, last_all; repeat split; auto; try apply Hlc; try apply Hla.
  destruct Hlc as [(r & Hr & _ & E) _]; destruct Hla as [_ Hall]; eauto.
Qed.

(** Every customer has a Recency exactly when every customer has a
    dated row. *)
Lemma all_dated_cells rows :
  all_dated rows <-> forallb is_some (recency_cells rows) = true.
Proof.
  unfold recency_cells; rewrite forallb_forall; split.
  - intros Hall x Hx.
    apply in_map_iff in Hx; destruct Hx as ([c g] & <- & Hg).
    apply groupby_In in Hg; [|apply Z.eqb_eq].
    destruct Hg as [-> [r0 Hr0]]; cbn [snd].
    apply filter_In in Hr0; destruct Hr0 as [Hr0 Hc0].
    assert (Hid : CustomerID r0 = Some c)
      by (now apply (has_key_true Z.eqb CustomerID Z.eqb_eq)).
    destruct (Hall r0 c Hr0 Hid) as (r' & Hr' & Hc' & Hd').
    destruct (InvoiceDate r') as [d|] eqn:Ed; [|congruence].
    assert (Hne : dates (filter (of_customer c) rows) <> []).
    { intros E0.
      assert (H : In d (dates (filter (of_customer c) rows))).
      { apply In_dates_filter; exists r'; repeat split; auto.
        now apply (has_key_true Z.eqb CustomerID Z.eqb_eq). }
      rewrite E0 in H; contradiction. }
    change (has_key Z.eqb CustomerID c) with (of_customer c).
    destruct (recency_cell_some rows c Hne) as (lc & la & -> & -> & _).
    reflexivity.
  - intros Hcells r c Hr Hc.
    assert (Hk : In c (map fst (groupby Z.eqb Z.leb CustomerID rows)))
      by (apply groupby_keys_In; [apply Z.eqb_eq|eauto]).
    apply in_map_iff in Hk; destruct Hk as ([c' g] & E & Hg); simpl in E; subst c'.
    pose proof Hg as Hg'.
    apply groupby_In in Hg'; [|apply Z.eqb_eq].
    destruct Hg' as [-> _].
    specialize (Hcells _ (in_map _ _ _ Hg)); cbn [snd] in Hcells.
    destruct (dates (filter (has_key Z.eqb CustomerID c) rows)) as [|d l] eqn:Ed.
    + simpl in Hcells.
      destruct (option_map _ _); discriminate.
    + assert (H : In d (dates (filter (of_customer c) rows)))
        by (change (of_customer c) with (has_key Z.eqb CustomerID c);
            rewrite Ed; now left).
      apply In_dates_filter in H; destruct H as (r' & Hr' & Hs & E).
      exists r'; repeat split; auto; [|congruence].
      now apply (has_key_true Z.eqb CustomerID Z.eqb_eq).
Qed.

Lemma recency_column_dated rows :
  all_dated rows ->
  recency_column rows = IntCol (somes (recency_cells rows)).
Proof.
  intros H; apply all_dated_cells in H.
  rewrite recency_column_cells.
  destruct (days_column_cases (recency_cells rows)) as [[_ E]|[E _]]; congruence.
Qed.

Lemma recency_column_undated rows :
  ~ all_dated rows ->
  exists v, recency_column rows = NaNCol v /\ In None v.
Proof.
  intros H; rewrite all_dated_cells in H.
  rewrite recency_column_cells.
  destruct (days_column_cases (recency_cells rows)) as [[E _]|[_ [E Hn]]];
    [contradiction|eauto].
Qed.

Lemma recency_column_float rows :
  is_float_column (recency_column rows) = negb (forallb is_some (recency_cells rows)).
Proof.
  rewrite recency_column_cells; unfold days_column.
  now destruct (forallb is_some _).
Qed.

Lemma frequency_column_int rows : exists v, frequency_column rows = IntCol v.
Proof. eexists; reflexivity. Qed.

Lemma monetary_column_not_str rows : is_str_column (monetary_column rows) = false.
Proof.
  unfold monetary_column, rfm_aggregate, agg_rfm; simpl.
  apply is_str_sum_TotalPrice.
Qed.

Lemma monetary_column_not_nan rows : is_nan_column (monetary_column rows) = false.
Proof.
  unfold monetary_column, rfm_aggregate, agg_rfm; simpl.
  apply is_nan_sum_TotalPrice.
Qed.

Lemma monetary_column_float rows :
  is_float_column (monetary_column rows)
  = negb (number_column_is_int (map TotalPrice rows)).
Proof.
  unfold monetary_column, rfm_aggregate, agg_rfm; simpl.
  apply is_float_sum_TotalPrice.
Qed.

Lemma length_recency_column rows :
  column_length (recency_column rows) = length (customers rows).
Proof.
  rewrite recency_column_cells, length_days_column.
  unfold recency_cells, customers, rfm_aggregate, agg_rfm; simpl.
  now rewrite !length_map.
Qed.

Lemma length_frequency_column rows :
  column_length (frequency_column rows) = length (customers rows).
Proof.
  unfold frequency_column, customers, rfm_aggregate, agg_rfm; simpl.
  now rewrite !length_map.
Qed.

Lemma length_monetary_column rows :
  column_length (monetary_column rows) = length (customers rows).
Proof.
  unfold monetary_column, customers, rfm_aggregate, agg_rfm, sum_TotalPrice; simpl.
  destruct (number_column_is_int _); simpl; now rewrite !length_map.
Qed.

Lemma length_R_scores rows : length (R_scores rows) = length (customers rows).
Proof.
  unfold R_scores; rewrite <- length_recency_column.
  apply length_score_column; auto.
Qed.

Lemma length_F_scores rows : length (F_scores rows) = length (customers rows).
Proof.
  unfold F_scores; rewrite <- length_frequency_column.
  apply length_score_column; auto.
Qed.

Lemma length_M_scores rows : length (M_scores rows) = length (customers rows).
Proof.
  unfold M_scores; rewrite <- length_monetary_column.
  apply length_score_column.
Qed.

Lemma labels_descending_range : Forall (fun z => 1 <= z <= 4) [4; 3; 2; 1].
Proof. repeat constructor; lia. Qed.

Lemma labels_ascending_range : Forall (fun z => 1 <= z <= 4) [1; 2; 3; 4].
Proof. repeat constructor; lia. Qed.

Lemma nth_error_zip3 {A B C D} (f : A -> B -> C -> D) a b c i x y z :
  nth_error a i = Some x -> nth_error b i = Some y -> nth_error c i = Some z ->
  nth_error (zip3 f a b c) i = Some (f x y z).
Proof.
  revert b c i; induction a as [|x' a IH]; intros [|y' b] [|z' c] [|i];
    simpl; try discriminate; auto.
  intros; congruence.
Qed.

Lemma sum_int64_scores r f m :
  1 <= r <= 4 -> 1 <= f <= 4 -> 1 <= m <= 4 -> sum_int64 [r; f; m] = r + f + m.
Proof.
  intros Hr Hf Hm; unfold sum_int64; cbn [fold_left].
  assert (E : forall z, 0 <= z <= 12 -> int64 z = z).
  { intros z Hz; unfold int64.
    change (2 ^ 63) with 9223372036854775808.
    change (2 ^ 64) with 18446744073709551616.
    rewrite Z.mod_small; lia. }
  rewrite (E (0 + r)) by lia.
  rewrite (E (0 + r + f)) by lia.
  rewrite E by lia; lia.
Qed.

Lemma str_int_digit z : 1 <= z <= 4 -> String.length (str_int z) = 1%nat.
Proof.
  intros Hz.
  assert (H : z = 1 \/ z = 2 \/ z = 3 \/ z = 4) by lia.
  destruct H as [-> | [-> | [-> | ->]]]; reflexivity.
Qed.

Lemma length_append (a b : string) :
  String.length (a ++ b) = (String.length a + String.length b)%nat.
Proof. induction a as [|c a IH]; simpl; auto. Qed.

(** X9.  The scores are whole numbers from 1 to 4 and add up to a total
    from 3 to 12, on every input; the segment code is the three digits
    when every line total is a whole number and every customer has a
    dated row, and the three floats "r.0", "f.0", "m.0", nine
    characters, as soon as one line total is a float or one customer has
    no dated row (the Recency column is then float64, with a NaN). *)
Theorem rfm_scores_and_segments (h : State) (df : loc) (rows : list Transaction) :
  nth_error h df = Some (Transactions rows) ->
  exists t rs fs ms segs totals,
    calculate_rfm df h = (Ok (length h), h ++ [Table t]) /\
    lookup "R" (columns t) = Some (IntCol rs) /\
    lookup "F" (columns t) = Some (IntCol fs) /\
    lookup "M" (columns t) = Some (IntCol ms) /\
    lookup "RFM_Segment" (columns t) = Some (StrCol segs) /\
    lookup "RFM_Score" (columns t) = Some (IntCol totals) /\
    length rs = length (index t) /\
    length fs = length (index t) /\
    length ms = length (index t) /\
    forall i r f m,
      nth_error rs i = Some r -> nth_error fs i = Some f -> nth_error ms i = Some m ->
      1 <= r <= 4 /\ 1 <= f <= 4 /\ 1 <= m <= 4 /\
      nth_error totals i = Some (r + f + m) /\ 3 <= r + f + m <= 12 /\
      (number_column_is_int (map TotalPrice rows) = true -> all_dated rows ->
       nth_error segs i = Some (str_int r ++ str_int f ++ str_int m)%string /\
       String.length (str_int r ++ str_int f ++ str_int m) = 3%nat) /\
      (number_column_is_int (map TotalPrice rows) = false \/ ~ all_dated rows ->
       nth_error segs i
       = Some ((str_int r ++ ".0") ++ (str_int f ++ ".0") ++ (str_int m ++ ".0"))%string /\
       String.length ((str_int r ++ ".0") ++ (str_int f ++ ".0") ++ (str_int m ++ ".0"))
       = 9%nat).
Proof.
  intros Hdf.
  exists (rfm_table rows), (R_scores rows), (F_scores rows), (M_scores rows).
  eexists; eexists.
  split; [now apply calculate_rfm_run|].
  repeat (split; [reflexivity|]).
  split; [apply length_R_scores|].
  split; [apply length_F_scores|].
  split; [apply length_M_scores|].
  intros i r f m Hr Hf Hm.
  assert (Rr : 1 <= r <= 4).
  { pose proof (score_column_range (recency_column rows) [4; 3; 2; 1]
                  (length (customers rows)) labels_descending_range) as H.
    rewrite Forall_forall in H; apply H; eapply nth_error_In; eauto. }
  assert (Rf : 1 <= f <= 4).
  { pose proof (score_column_range (frequency_column rows) [1; 2; 3; 4]
                  (length (customers rows)) labels_ascending_range) as H.
    rewrite Forall_forall in H; apply H; eapply nth_error_In; eauto. }
  assert (Rm : 1 <= m <= 4).
  { pose proof (score_column_range (monetary_column rows) [1; 2; 3; 4]
                  (length (customers rows)) labels_ascending_range) as H.
    rewrite Forall_forall in H; apply H; eapply nth_error_In; eauto. }
  repeat (split; [lia|]).
  split; [|split; [lia|split]].
  - rewrite (nth_error_zip3 _ _ _ _ i r f m Hr Hf Hm).
    now rewrite sum_int64_scores.
  - intros Hint Hdated; split.
    + rewrite (nth_error_zip3 _ _ _ _ i r f m Hr Hf Hm).
      apply all_dated_cells in Hdated.
      unfold segment_dtype.
      rewrite recency_column_float, monetary_column_float, Hint, Hdated; reflexivity.
    + rewrite !length_append, !str_int_digit; auto.
  - intros Hfloat; split.
    + rewrite (nth_error_zip3 _ _ _ _ i r f m Hr Hf Hm).
      assert (E : segment_dtype rows = RowFloat).
      { unfold segment_dtype.
        rewrite recency_column_float, monetary_column_float.
        destruct Hfloat as [-> | Hnd]; [now rewrite orb_true_r|].
        rewrite all_dated_cells in Hnd.
        destruct (forallb is_some (recency_cells rows)); [contradiction|reflexivity]. }
      rewrite E; reflexivity.
    + rewrite !length_append, !str_int_digit; auto.
Qed.

Lemma rfm_scores_and_segments_witness :
  exists t rs segs,
    calculate_rfm 0%nat [Transactions two_customers_same_day]
    = (Ok 1%nat, [Transactions two_customers_same_day; Table t]) /\
    lookup "R" (columns t) = Some (IntCol rs) /\
    lookup "RFM_Segment" (columns t) = Some (StrCol segs).
Proof.
  destruct (rfm_scores_and_segments [Transactions two_customers_same_day] 0%nat
              two_customers_same_day eq_refl)
    as (t & rs & fs & ms & segs & totals & Hrun & HR & _ & _ & HS & _).
  exists t, rs, segs; auto.
Defined.

(** C1.  On the two customers of [two_customers_float_prices], whose
    line totals are the floats 2.55 and 3.39, the scores are whole
    numbers from 1 to 4 and the totals are 3 and 12, but the segment
    codes are "1.01.01.0" and "4.04.04.0": nine characters each, not the
    three digits "111" and "444". *)
Theorem rfm_segment_float_prices :
  exists t,
    calculate_rfm 0%nat [Transactions two_customers_float_prices]
    = (Ok 1%nat, [Transactions two_customers_float_prices; Table t]) /\
    lookup "R" (columns t) = Some (IntCol [1; 4]) /\
    lookup "F" (columns t) = Some (IntCol [1; 4]) /\
    lookup "M" (columns t) = Some (IntCol [1; 4]) /\
    lookup "RFM_Score" (columns t) = Some (IntCol [3; 12]) /\
    lookup "RFM_Segment" (columns t) = Some (StrCol ["1.01.01.0"; "4.04.04.0"]) /\
    map String.length ["1.01.01.0"; "4.04.04.0"] = [9%nat; 9%nat] /\
    ["1.01.01.0"; "4.04.04.0"] <> ["111"; "444"].
Proof.
  eexists; split; [vm_compute; reflexivity|].
  repeat (split; [reflexivity|]); discriminate.
Qed.

End RFMProofs.

Module RFMProperties.
Import Py Pandas Analytics Spec RawMetrics HeapFacts ListFacts SortFacts GroupFacts.
Import RankFacts QcutFacts QuartileFacts ScoreFacts RFMRun RFMProofs.

(** C9.  On every transaction table [calculate_rfm] returns normally,
    with a reference to a table it has just allocated; every object that
    was on the heap before the call, the input table among them, is
    unchanged afterwards; and for an input without rows the returned
    table has no rows either. *)
Theorem calculate_rfm_total_and_pure (h : State) (df : loc) (rows : list Transaction) :
  nth_error h df = Some (Transactions rows) ->
  exists t,
    calculate_rfm df h = (Ok (length h), h ++ [Table t]) /\
    (forall l o, nth_error h l = Some o -> nth_error (h ++ [Table t]) l = Some o) /\
    nth_error (h ++ [Table t]) df = Some (Transactions rows) /\
    nth_error (h ++ [Table t]) (length h) = Some (Table t) /\
    (rows = [] ->
     index t = [] /\ Forall (fun nc => column_length (snd nc) = 0%nat) (columns t)).
Proof.
  intros Hdf.
  assert (Hkeep : forall l o, nth_error h l = Some o ->
                              nth_error (h ++ [Table (rfm_table rows)]) l = Some o).
  { intros l o Hl; rewrite nth_error_app1; auto.
    apply nth_error_Some; congruence. }
  exists (rfm_table rows).
  split; [now apply calculate_rfm_run|].
  split; [exact Hkeep|].
  split; [now apply Hkeep|].
  split; [apply nth_error_last|].
  intros ->; split; [reflexivity|].
  repeat constructor.
Qed.

Lemma calculate_rfm_total_and_pure_witness :
  exists t,
    calculate_rfm 0%nat [Transactions one_customer]
    = (Ok 1%nat, [Transactions one_customer; Table t]).
Proof.
  destruct (calculate_rfm_total_and_pure [Transactions one_customer] 0%nat
              one_customer eq_refl) as (t & Hrun & _).
  exists t; exact Hrun.
Defined.

(** *** Monotonicity of the quartile scores *)

Lemma nth_ascending_labels q :
  (1 <= q <= 4)%nat -> nth (q - 1) [1; 2; 3; 4] 0 = Z.of_nat q.
Proof.
  intros Hq.
  assert (H : q = 1%nat \/ q = 2%nat \/ q = 3%nat \/ q = 4%nat) by lia.
  destruct H as [-> | [-> | [-> | ->]]]; reflexivity.
Qed.

Section Monotone.
Context {A : Type} (ltb : A -> A -> bool).
Hypothesis ltb_irrefl : forall x, ltb x x = false.
Hypothesis ltb_trans : forall x y z, ltb x y = true -> ltb y z = true -> ltb x z = true.
Hypothesis ltb_split : forall x y z, ltb x z = true -> ltb x y = true \/ ltb y z = true.

Lemma quartile_scores_monotone v i j x y a b :
  (2 <= length v)%nat ->
  nth_error v i = Some x -> nth_error v j = Some y -> ltb x y = true ->
  nth_error (map (fun r => nth (quartile (length v) r - 1) [1; 2; 3; 4] 0)
                 (rank_first ltb v)) i = Some a ->
  nth_error (map (fun r => nth (quartile (length v) r - 1) [1; 2; 3; 4] 0)
                 (rank_first ltb v)) j = Some b ->
  a <= b.
Proof.
  intros Hn Hi Hj Hxy Ha Hb.
  rewrite nth_error_map, nth_error_rank_first, Hi in Ha.
  rewrite nth_error_map, nth_error_rank_first, Hj in Hb.
  cbn [option_map] in Ha, Hb.
  assert (Ea : a = nth (quartile (length v) (rank_at ltb v i x) - 1) [1; 2; 3; 4] 0)
    by (injection Ha; auto).
  assert (Eb : b = nth (quartile (length v) (rank_at ltb v j y) - 1) [1; 2; 3; 4] 0)
    by (injection Hb; auto).
  rewrite Ea, Eb; clear Ha Hb Ea Eb.
  pose proof (rank_at_bounds ltb ltb_irrefl v i x Hi) as Bi.
  pose proof (rank_at_bounds ltb ltb_irrefl v j y Hj) as Bj.
  pose proof (rank_at_lt ltb ltb_irrefl ltb_trans ltb_split v i j x y Hi Hj Hxy) as Hlt.
  rewrite !nth_ascending_labels by (apply quartile_range; auto).
  apply Nat2Z.inj_le, quartile_monotone; auto; lia.
Qed.
End Monotone.

(** C5.  In the table of [calculate_rfm], whenever the raw Monetary value
    of one customer is strictly below that of another, the M score of
    the first is at most the M score of the second.  This holds whether
    or not the Monetary metric is degraded: when it is, both scores
    are 2. *)
Theorem monetary_score_monotone (h : State) (df : loc) (rows : list Transaction) :
  nth_error h df = Some (Transactions rows) ->
  exists t mon ms,
    calculate_rfm df h = (Ok (length h), h ++ [Table t]) /\
    lookup "MonetaryValue" (columns t) = Some mon /\
    lookup "M" (columns t) = Some (IntCol ms) /\
    forall i j m1 m2,
      column_lt mon i j ->
      nth_error ms i = Some m1 -> nth_error ms j = Some m2 ->
      m1 <= m2.
Proof.
  intros Hdf.
  exists (rfm_table rows), (monetary_column rows), (M_scores rows).
  split; [now apply calculate_rfm_run|].
  split; [reflexivity|split; [reflexivity|]].
  intros i j m1 m2 Hlt H1 H2.
  unfold M_scores in H1, H2.
  destruct (le_lt_dec (column_length (monetary_column rows)) 1) as [Hn|Hn].
  - rewrite score_column_fallback in H1, H2
      by auto using monetary_column_not_str.
    apply nth_error_In, repeat_spec in H1.
    apply nth_error_In, repeat_spec in H2; lia.
  - rewrite score_column_quartiles in H1, H2
      by (auto using monetary_column_not_str, monetary_column_not_nan; lia).
    pose proof (monetary_column_not_nan rows) as Hnan.
    destruct (monetary_column rows) as [v|v|v|v]; simpl in *.
    + destruct Hlt as (x & y & Hx & Hy & Hxy).
      apply (quartile_scores_monotone Z.ltb Z_ltb_irrefl Z_ltb_trans Z_ltb_split
               v i j x y m1 m2); auto.
      now apply Z.ltb_lt.
    + destruct Hlt as (x & y & Hx & Hy & Hxy).
      apply (quartile_scores_monotone Qltb Qltb_irrefl Qltb_trans Qltb_split
               v i j x y m1 m2); auto.
      now apply Qltb_lt.
    + contradiction.
    + discriminate.
Qed.

(** The exact quartile split of the specification: raw Monetary values
    10, 20, 30, 40 get the M scores 1, 2, 3, 4. *)
Lemma monetary_score_four_customers :
  monetary_column four_customers = FloatCol [10%Q; 20%Q; 30%Q; 40%Q] /\
  M_scores four_customers = [1; 2; 3; 4].
Proof. split; vm_compute; reflexivity. Qed.

Lemma monetary_score_monotone_witness :
  exists t mon ms,
    calculate_rfm 0%nat [Transactions four_customers]
    = (Ok 1%nat, [Transactions four_customers; Table t]) /\
    lookup "MonetaryValue" (columns t) = Some mon /\
    lookup "M" (columns t) = Some (IntCol ms) /\
    column_lt mon 0 3 /\
    (forall m1 m2, nth_error ms 0 = Some m1 -> nth_error ms 3 = Some m2 -> m1 <= m2).
Proof.
  destruct (monetary_score_monotone [Transactions four_customers] 0%nat
              four_customers eq_refl) as (t & mon & ms & Hrun & Hmon & Hms & Hle).
  exists t, mon, ms.
  split; [exact Hrun|split; [exact Hmon|split; [exact Hms|]]].
  assert (Hlt : column_lt mon 0 3).
  { vm_compute in Hrun. injection Hrun as <-.
    vm_compute in Hmon. injection Hmon as <-.
    exists 10%Q, 40%Q; repeat split. }
  split; [exact Hlt|].
  intros m1 m2; apply Hle; exact Hlt.
Defined.

(** C2 (as stated) fails.  The two customers of
    [two_customers_same_day] bought on the same day: their raw Recency
    values are 1 and 1, one distinct value, fewer than four.  R scoring
    does not raise, but it gives them R = 4 and R = 1, not 2 and 2. *)
Lemma recency_fallback_counterexample :
  recency_values two_customers_same_day = [1; 1] /\
  (exists t,
      calculate_rfm 0%nat [Transactions two_customers_same_day]
      = (Ok 1%nat, [Transactions two_customers_same_day; Table t]) /\
      lookup "R" (columns t) = Some (IntCol [4; 1])) /\
  ~ fallback_below_four_distinct_recency.
Proof.
  split; [reflexivity|].
  split; [eexists; split; [vm_compute; reflexivity|reflexivity]|].
  intros rule.
  destruct (rule [Transactions two_customers_same_day] 0%nat
                  two_customers_same_day eq_refl)
    as (t & rs & Hrun & HR & Hall).
  - vm_compute; lia.
  - vm_compute in Hrun; injection Hrun as <-.
    vm_compute in HR; injection HR as <-.
    inversion Hall; discriminate.
Qed.

(** The rank 1 occurs in every non-empty numeric column without a
    missing cell. *)
Lemma rank_has_1 c :
  is_str_column c = false -> is_nan_column c = false ->
  (1 <= column_length c)%nat -> In 1 (rank c).
Proof.
  intros Hc Hnan Hn.
  destruct c as [v|v|v|v]; simpl in *; try discriminate.
  - destruct (rank_first_has_1 Z.ltb Z_ltb_irrefl Z_ltb_trans Z_ltb_split v) as [i Hi].
    + intros ->; simpl in Hn; lia.
    + eapply nth_error_In; eauto.
  - destruct (rank_first_has_1 Qltb Qltb_irrefl Qltb_trans Qltb_split v) as [i Hi].
    + intros ->; simpl in Hn; lia.
    + eapply nth_error_In; eauto.
Qed.

(** A scoring round over a column without a missing cell gives the
    neutral 2 to everybody exactly when there is at most one customer:
    from two customers on, the customer of rank 1 gets the first label,
    which is 4 or 1. *)
Lemma score_column_neutral_iff c labels :
  is_str_column c = false -> is_nan_column c = false ->
  length labels = 4%nat -> nth 0 labels 0 <> 2 ->
  (Forall (fun s => s = 2) (score_column c labels (column_length c))
   <-> (column_length c <= 1)%nat) /\
  ((2 <= column_length c)%nat ->
   score_column c labels (column_length c)
   = map (fun r => nth (quartile (column_length c) r - 1) labels 0) (rank c) /\
   In (nth 0 labels 0) (score_column c labels (column_length c))).
Proof.
  intros Hc Hnan Hlab Hfirst.
  assert (Hbig : (2 <= column_length c)%nat ->
                 score_column c labels (column_length c)
                 = map (fun r => nth (quartile (column_length c) r - 1) labels 0) (rank c) /\
                 In (nth 0 labels 0) (score_column c labels (column_length c))).
  { intros Hn.
    rewrite score_column_quartiles by auto.
    split; [reflexivity|].
    apply in_map_iff; exists 1; split; [now rewrite quartile_first|].
    apply rank_has_1; auto; lia. }
  split; [|exact Hbig].
  split.
  - intros Hall.
    destruct (le_lt_dec (column_length c) 1) as [|Hn]; auto.
    destruct (Hbig Hn) as [_ Hin].
    rewrite Forall_forall in Hall; specialize (Hall _ Hin); contradiction.
  - intros Hn; rewrite score_column_fallback by auto.
    apply Forall_forall; intros r Hr; now apply repeat_spec in Hr.
Qed.

Lemma Forall_repeat_2 m : Forall (fun s => s = 2) (repeat 2 m).
Proof. apply Forall_forall; intros r Hr; now apply repeat_spec in Hr. Qed.

(** A customer without a dated row degrades the R scores of the whole
    table: of the four customers of [four_customers_one_undated] the
    third has no date, the Recency column is float64 with a NaN, the
    cast of the scores to int raises, and every customer gets R = 2,
    while F and M are scored by quartiles. *)
Lemma recency_fallback_undated_customer :
  ~ all_dated four_customers_one_undated /\
  exists t,
    calculate_rfm 0%nat [Transactions four_customers_one_undated]
    = (Ok 1%nat, [Transactions four_customers_one_undated; Table t]) /\
    lookup "Recency" (columns t) = Some (NaNCol [Some 4%Q; Some 3%Q; None; Some 1%Q]) /\
    lookup "R" (columns t) = Some (IntCol [2; 2; 2; 2]) /\
    lookup "F" (columns t) = Some (IntCol [1; 2; 3; 4]) /\
    lookup "M" (columns t) = Some (IntCol [1; 2; 3; 4]).
Proof.
  split.
  - intros H.
    destruct (H (undated_sale "536367" 17852 "C" 1 (Int 30)) 17852)
      as (r & Hr & Hc & Hd); [simpl; tauto|reflexivity|].
    simpl in Hr.
    destruct Hr as [<- | [<- | [<- | [<- | []]]]];
      try discriminate; now apply Hd.
  - eexists; split; [vm_compute; reflexivity|].
    repeat split; reflexivity.
Qed.

(** C2 (as amended).  R scoring never raises.  Every customer gets the
    neutral R = 2 when the population has at most one customer, or when
    some customer has no dated row.  A population of two or more
    customers, each with a dated row, is not degraded, however few
    distinct raw Recency values it has: each customer gets the label of
    the quartile of their first-occurrence rank, and the customer of
    rank 1 gets R = 4.  The fallback is per metric: with at most one
    customer F and M are 2 as well. *)
Theorem recency_fallback_conditions (h : State) (df : loc) (rows : list Transaction) :
  nth_error h df = Some (Transactions rows) ->
  exists t recency rs fs ms,
    calculate_rfm df h = (Ok (length h), h ++ [Table t]) /\
    lookup "Recency" (columns t) = Some recency /\
    lookup "R" (columns t) = Some (IntCol rs) /\
    lookup "F" (columns t) = Some (IntCol fs) /\
    lookup "M" (columns t) = Some (IntCol ms) /\
    length rs = length (index t) /\
    ((length (index t) <= 1)%nat \/ ~ all_dated rows ->
     Forall (fun r => r = 2) rs) /\
    ((2 <= length (index t))%nat -> all_dated rows ->
     rs = map (fun r => nth (quartile (length (index t)) r - 1) [4; 3; 2; 1] 0)
              (rank recency) /\
     In 4 rs) /\
    ((length (index t) <= 1)%nat ->
     Forall (fun f => f = 2) fs /\ Forall (fun m => m = 2) ms).
Proof.
  intros Hdf.
  exists (rfm_table rows), (recency_column rows),
    (R_scores rows), (F_scores rows), (M_scores rows).
  split; [now apply calculate_rfm_run|].
  repeat (split; [reflexivity|]).
  split; [apply length_R_scores|].
  change (index (rfm_table rows)) with (customers rows).
  split; [|split].
  - intros [Hn | Hnd]; unfold R_scores.
    + rewrite score_column_fallback;
        [apply Forall_repeat_2|apply recency_column_not_str|].
      now rewrite length_recency_column.
    + destruct (recency_column_undated rows Hnd) as (v & -> & Hv).
      rewrite score_column_nan by exact Hv.
      apply Forall_repeat_2.
  - intros Hn Hd.
    destruct (score_column_neutral_iff (recency_column rows) [4; 3; 2; 1])
      as [_ HRbig];
      [apply recency_column_not_str
      |now rewrite (recency_column_dated rows Hd)
      |reflexivity|discriminate|].
    rewrite length_recency_column in HRbig.
    exact (HRbig Hn).
  - intros Hn; split.
    + unfold F_scores; rewrite score_column_fallback;
        [apply Forall_repeat_2|reflexivity|].
      now rewrite length_frequency_column.
    + unfold M_scores; rewrite score_column_fallback;
        [apply Forall_repeat_2|apply monetary_column_not_str|].
      now rewrite length_monetary_column.
Qed.

Lemma recency_fallback_conditions_witness :
  exists t,
    calculate_rfm 0%nat [Transactions one_customer]
    = (Ok 1%nat, [Transactions one_customer; Table t]) /\
    lookup "R" (columns t) = Some (IntCol [2]).
Proof.
  destruct (recency_fallback_conditions [Transactions one_customer] 0%nat
              one_customer eq_refl)
    as (t & recency & rs & fs & ms & Hrun & _ & HR & _ & _ & Hlen & Hall & _).
  exists t; split; [exact Hrun|].
  vm_compute in Hrun; injection Hrun as <-.
  exact eq_refl.
Defined.

End RFMProperties.

(* ================================================================== *)
(** ** Segment labels in closed form                                  *)
(* ================================================================== *)

Module SegmentMore.
Import Analytics.

(** X1.  Each label has one condition of its own: the six conditions are
    disjoint and cover every row.  Below R = 3 the M score plays no
    part. *)
Theorem segment_label_conditions (row : ScoreRow) :
  let label := get_rfm_segment_meaning row in
  (label = "Best Customers" <-> 4 <= R row /\ 4 <= F row /\ 4 <= M row) /\
  (label = "Loyal Customers" <->
     3 <= R row /\ 3 <= F row /\ ~ (4 <= R row /\ 4 <= F row /\ 4 <= M row)) /\
  (label = "Big Spenders" <-> 3 <= R row /\ F row <= 2 /\ 3 <= M row) /\
  (label = "At Risk" <-> R row <= 2 /\ F row <= 2) /\
  (label = "Needs Attention" <-> R row <= 2 /\ 3 <= F row) /\
  (label = "Others" <-> 3 <= R row /\ F row <= 2 /\ M row <= 2).
Proof.
  destruct row as [r f m]; unfold get_rfm_segment_meaning; simpl.
  rewrite !Z.geb_leb.
  destruct (Z.leb_spec 4 r), (Z.leb_spec 4 f), (Z.leb_spec 4 m),
    (Z.leb_spec 3 r), (Z.leb_spec 3 f), (Z.leb_spec 3 m),
    (Z.leb_spec r 2), (Z.leb_spec f 2); simpl;
    repeat split; intros; try discriminate; try lia.
Qed.

End SegmentMore.

(* ================================================================== *)
(** ** data_processing.py: more on cleaning                           *)
(* ================================================================== *)

Module CleaningMore.
Import Py Pandas DataProcessing Spec HeapFacts ListFacts RowFacts DataProcessingProofs.

(** What [clean_data] leaves on the heap. *)
Lemma clean_data_run (h : State) (df : loc) (d : DataFrame) (i : nat) :
  nth_error h df = Some d ->
  column_position "CustomerID" (columns d) = Some i ->
  clean_data df h
  = (Ok df,
     update df {| columns := columns d;
                  rows := unique row_eqb
                            (filter (fun r => negb (isna (nth i r NaN))) (rows d)) |} h).
Proof.
  intros Hd Hc.
  assert (Hlt : (df < length h)%nat) by (apply nth_error_Some; congruence).
  unfold clean_data, dropna_inplace, drop_duplicates_inplace, bind, ret.
  rewrite (load_ok _ _ _ Hd), Hc; unfold store.
  erewrite load_ok by now apply nth_error_update_eq.
  simpl; now rewrite update_update.
Qed.

(** X3.  Cleaning a cleaned table changes nothing. *)
Theorem clean_data_idempotent (h : State) (df : loc) (d : DataFrame) (i : nat) :
  nth_error h df = Some d ->
  column_position "CustomerID" (columns d) = Some i ->
  exists h',
    clean_data df h = (Ok df, h') /\
    clean_data df h' = (Ok df, h').
Proof.
  intros Hd Hc.
  assert (Hlt : (df < length h)%nat) by (apply nth_error_Some; congruence).
  set (kept := filter (fun r => negb (isna (nth i r NaN))) (rows d)).
  set (d1 := {| columns := columns d; rows := kept |}).
  set (d' := {| columns := columns d; rows := unique row_eqb kept |}).
  exists (update df d' h); split.
  - now rewrite (clean_data_run h df d i Hd Hc).
  - rewrite (clean_data_run (update df d' h) df d' i
               (nth_error_update_eq _ _ _ Hlt) Hc).
    simpl; rewrite update_update; f_equal; f_equal.
    unfold d'; f_equal.
    rewrite filter_all.
    + apply unique_fixed, unique_pairwise.
    + apply Forall_forall; intros r Hr.
      apply unique_incl in Hr; apply filter_In in Hr; tauto.
Qed.

Lemma clean_data_idempotent_witness :
  exists h',
    clean_data 0%nat [ {| columns := ["InvoiceNo"; "CustomerID"];
                          rows := [ [StrCell "536365"; IntCell 17850];
                                    [StrCell "536366"; NaN];
                                    [StrCell "536365"; IntCell 17850] ] |} ]
    = (Ok 0%nat, h') /\
    clean_data 0%nat h' = (Ok 0%nat, h').
Proof.
  exact (clean_data_idempotent
           [ {| columns := ["InvoiceNo"; "CustomerID"];
                rows := [ [StrCell "536365"; IntCell 17850];
                          [StrCell "536366"; NaN];
                          [StrCell "536365"; IntCell 17850] ] |} ]
           0%nat _ 1%nat eq_refl eq_refl).
Defined.

(** X4.  Cleaning loses no customer row: every row of the table that has a
    CustomerID is still there after the call, itself or a row equal to
    it. *)
Theorem clean_data_keeps_every_customer_row
        (h : State) (df : loc) (d : DataFrame) (i : nat) :
  nth_error h df = Some d ->
  column_position "CustomerID" (columns d) = Some i ->
  exists h' d',
    clean_data df h = (Ok df, h') /\
    nth_error h' df = Some d' /\
    forall r, In r (rows d) -> has_customer i r ->
              exists r', In r' (rows d') /\ row_eqb r r' = true.
Proof.
  intros Hd Hc.
  assert (Hlt : (df < length h)%nat) by (apply nth_error_Some; congruence).
  set (kept := filter (fun r => negb (isna (nth i r NaN))) (rows d)).
  set (d1 := {| columns := columns d; rows := kept |}).
  set (d' := {| columns := columns d; rows := unique row_eqb kept |}).
  exists (update df d' h), d'.
  split; [|split].
  - now rewrite (clean_data_run h df d i Hd Hc).
  - now apply nth_error_update_eq.
  - intros r Hr Hcust; simpl.
    apply (unique_represents row_eqb row_eqb_refl row_eqb_trans).
    apply filter_In; split; auto.
    unfold has_customer in Hcust; now rewrite Hcust.
Qed.

Lemma clean_data_keeps_every_customer_row_witness :
  exists h' d',
    clean_data 0%nat [ {| columns := ["InvoiceNo"; "CustomerID"];
                          rows := [ [StrCell "536365"; IntCell 17850];
                                    [StrCell "536366"; NaN];
                                    [StrCell "536365"; IntCell 17850] ] |} ]
    = (Ok 0%nat, h') /\
    nth_error h' 0%nat = Some d' /\
    exists r', In r' (rows d') /\
               row_eqb [StrCell "536365"; IntCell 17850] r' = true.
Proof.
  destruct (clean_data_keeps_every_customer_row
              [ {| columns := ["InvoiceNo"; "CustomerID"];
                   rows := [ [StrCell "536365"; IntCell 17850];
                             [StrCell "536366"; NaN];
                             [StrCell "536365"; IntCell 17850] ] |} ]
              0%nat _ 1%nat eq_refl eq_refl)
    as (h' & d' & Hrun & Hd' & Hkeep).
  exists h', d'; split; [exact Hrun|split; [exact Hd'|]].
  apply Hkeep; [simpl; auto|reflexivity].
Defined.

Lemma column_position_In name cols :
  In name cols -> exists i, column_position name cols = Some i.
Proof.
  induction cols as [|c cols IH]; simpl; [tauto|].
  intros H; destruct (String.eqb c name) eqn:E; [eauto|].
  destruct H as [->|H]; [now rewrite String.eqb_refl in E|].
  destruct (IH H) as [i ->]; simpl; eauto.
Qed.

(** X5.  The order of the calls in the dashboard: a table that
    [validate_data] finds complete is cleaned without error. *)
Theorem clean_data_after_validate_data (h : State) (df : loc) :
  validate_data df h = (Ok [], h) ->
  exists h', clean_data df h = (Ok df, h').
Proof.
  intros Hv.
  unfold validate_data, bind, load, ret in Hv.
  destruct (nth_error h df) as [d|] eqn:Hd; [|discriminate].
  assert (Hmissing : filter (fun col => negb (contains (columns d) col))
                            required_columns = []) by congruence.
  assert (Hin : In "CustomerID" (columns d)).
  { apply contains_In.
    destruct (contains (columns d) "CustomerID") eqn:E; auto.
    assert (H : In "CustomerID"
                   (filter (fun col => negb (contains (columns d) col)) required_columns)).
    { apply filter_In; split; [simpl; tauto|now rewrite E]. }
    rewrite Hmissing in H; contradiction. }
  destruct (column_position_In _ _ Hin) as [i Hi].
  rewrite (clean_data_run h df d i Hd Hi); eauto.
Qed.

Lemma clean_data_after_validate_data_witness :
  exists h', clean_data 0%nat [ {| columns := required_columns; rows := [] |} ]
             = (Ok 0%nat, h').
Proof.
  exact (clean_data_after_validate_data
           [ {| columns := required_columns; rows := [] |} ] 0%nat eq_refl).
Defined.

Lemma clean_data_KeyError_witness :
  clean_data 0%nat [ {| columns := ["InvoiceNo"; "Country"]; rows := [] |} ]
  = (Raise (KeyError "CustomerID"),
     [ {| columns := ["InvoiceNo"; "Country"]; rows := [] |} ]).
Proof.
  exact (clean_data_KeyError
           [ {| columns := ["InvoiceNo"; "Country"]; rows := [] |} ] 0%nat _
           eq_refl eq_refl).
Defined.

End CleaningMore.

(* ================================================================== *)
(** ** analytics.py: more on the rollups                              *)
(* ================================================================== *)

Module RollupMore.
Import Py Pandas Analytics Geography Spec.
Import HeapFacts ListFacts SortFacts GroupFacts AnalyticsFacts.

Lemma NoDup_firstn {A} (n : nat) (l : list A) : NoDup l -> NoDup (firstn n l).
Proof.
  intros H; rewrite <- (firstn_skipn n l) in H.
  eapply NoDup_app_remove_r; eauto.
Qed.

Lemma firstn_In {A} (n : nat) (l : list A) x : In x (firstn n l) -> In x l.
Proof.
  intros H; rewrite <- (firstn_skipn n l); apply in_or_app; now left.
Qed.

Lemma head_length {A} (n : Z) (l : list A) :
  (0 <= n -> length (head n l) = Nat.min (Z.to_nat n) (length l)) /\
  (n < 0 -> length (head n l) = (length l - Z.to_nat (- n))%nat).
Proof.
  unfold head; split; intros Hn.
  - destruct (Z.ltb_spec n 0); [lia|apply length_firstn].
  - destruct (Z.ltb_spec n 0); [|lia].
    rewrite length_firstn; lia.
Qed.

Lemma head_prefix {A} (n : Z) (l : list A) : exists k, head n l = firstn k l.
Proof. unfold head; destruct (n <? 0); eauto. Qed.

(** X6.  How many items [get_top_products] returns: [top_n] of them when
    there are that many distinct descriptions, all of them otherwise,
    none for [top_n = 0], and all but the last [-top_n] for a negative
    [top_n].  No description is listed twice, and rows without a
    description are not counted. *)
Theorem get_top_products_length
        (sort_values : SortValues) (Hsort : sort_values_contract sort_values)
        (h : State) (df : loc) (rows : list Transaction) (top_n : option Z) :
  nth_error h df = Some (Transactions rows) ->
  let n := match top_n with Some n => n | None => 10 end in
  let distinct := length (unique String.eqb (keys Description rows)) in
  exists out,
    get_top_products sort_values df top_n h = (Ok (length h), h ++ [Series out]) /\
    (0 <= n -> length out = Nat.min (Z.to_nat n) distinct) /\
    (n < 0 -> length out = (distinct - Z.to_nat (- n))%nat) /\
    NoDup (map fst out) /\
    (forall d, In d (map fst out) -> exists r, In r rows /\ Description r = Some d).
Proof.
  intros Hdf n distinct.
  set (sums := quantity_by_description rows).
  set (sorted := sort_values _ (fun item : string * Z => inject_Z (snd item)) sums).
  assert (Hperm : Permutation sums sorted) by apply Hsort.
  assert (Hlen : length sorted = distinct).
  { rewrite <- (Permutation_length Hperm).
    unfold sums, quantity_by_description, groupby, distinct.
    rewrite !length_map.
    symmetry; apply Permutation_length, sort_perm. }
  assert (Hnd : NoDup (map fst sorted)).
  { eapply Permutation_NoDup; [apply Permutation_map, Hperm|].
    unfold sums; rewrite RollupProofs.quantity_by_description_keys.
    apply groupby_keys_NoDup, String.eqb_eq. }
  exists (head n sorted).
  split; [|split; [|split; [|split]]].
  - unfold get_top_products, bind, alloc.
    rewrite (load_transactions_ok _ _ _ Hdf).
    destruct top_n; reflexivity.
  - intros Hn; rewrite <- Hlen; now apply head_length.
  - intros Hn; rewrite <- Hlen; now apply head_length.
  - destruct (head_prefix n sorted) as [k ->].
    rewrite <- firstn_map; now apply NoDup_firstn.
  - intros d Hd.
    destruct (head_prefix n sorted) as [k Hk]; rewrite Hk in Hd.
    apply in_map_iff in Hd; destruct Hd as (item & <- & Hitem).
    apply firstn_In in Hitem.
    assert (Hin : In (fst item) (map fst sums)).
    { apply in_map.
      eapply Permutation_in; [symmetry; exact Hperm|exact Hitem]. }
    unfold sums in Hin; rewrite RollupProofs.quantity_by_description_keys in Hin.
    apply groupby_keys_In in Hin; [exact Hin|apply String.eqb_eq].
Qed.

Lemma get_top_products_length_witness :
  exists out,
    get_top_products sort_values_stable 0%nat (Some 1) [Transactions two_items_tied]
    = (Ok 1%nat, [Transactions two_items_tied; Series out]) /\
    length out = 1%nat.
Proof.
  destruct (get_top_products_length sort_values_stable sort_values_stable_contract
              [Transactions two_items_tied] 0%nat two_items_tied (Some 1) eq_refl)
    as (out & Hrun & Hlen & _).
  exists out; split; [exact Hrun|].
  rewrite Hlen by lia; reflexivity.
Defined.

(** *** Revenue by country *)

(** X8.  [get_geographic_distribution] lists every country that occurs in
    the table once; rows without a country are left out.  When every
    line total is an integer the totals are the int64 sums of the line
    totals of the rows of each country, in an order in which they never
    increase.  Otherwise each total is the float64 the summation kernel
    gives for the line totals of the rows of the country, in row order,
    and the totals never increase, a NaN standing last.  The call
    changes nothing on the heap. *)
Theorem get_geographic_distribution_totals
        (sort_values : SortValues) (Hsort : sort_values_contract sort_values)
        (sort_floats : SortFloats) (Hfloats : sort_floats_contract sort_floats)
        (float_sum : list Q -> float64)
        (h : State) (df : loc) (rows : list Transaction) :
  nth_error h df = Some (Transactions rows) ->
  let of_country c := filter (has_key String.eqb Country c) rows in
  exists out,
    get_geographic_distribution sort_values sort_floats float_sum df h = (Ok out, h) /\
    NoDup (map fst out) /\
    (forall c, In c (map fst out) <-> exists r, In r rows /\ Country r = Some c) /\
    (number_column_is_int (map TotalPrice rows) = true ->
     descending (fun item => inject_Z (int_total (snd item))) out /\
     forall c v, In (c, v) out ->
       v = IntRevenue (sum_int64 (map (fun r => to_Z (TotalPrice r)) (of_country c)))) /\
    (number_column_is_int (map TotalPrice rows) = false ->
     descending_nan_last (fun item => revenue_value (snd item)) out /\
     forall c v, In (c, v) out ->
       v = FloatRevenue (float_sum (map (fun r => to_Q (TotalPrice r)) (of_country c)))).
Proof.
  intros Hdf of_country.
  set (sums := revenue_by_country float_sum rows).
  set (sorted :=
         if number_column_is_int (map TotalPrice rows)
         then sort_values _ (fun item : string * Revenue =>
                               inject_Z (int_total (snd item))) sums
         else sort_floats _ (fun item : string * Revenue =>
                               revenue_value (snd item)) sums).
  assert (Hperm : Permutation sums sorted).
  { unfold sorted; destruct (number_column_is_int _);
      [apply Hsort|apply Hfloats]. }
  assert (Hkeys : map fst sums
                  = map fst (groupby String.eqb String.leb Country rows))
    by (unfold sums, revenue_by_country; rewrite map_map; reflexivity).
  assert (Hval : forall c v, In (c, v) sorted ->
            v = if number_column_is_int (map TotalPrice rows)
                then IntRevenue (sum_int64 (map (fun r => to_Z (TotalPrice r))
                                                (of_country c)))
                else FloatRevenue (float_sum (map (fun r => to_Q (TotalPrice r))
                                                  (of_country c)))).
  { intros c v Hv.
    apply (Permutation_in _ (Permutation_sym Hperm)) in Hv.
    unfold sums, revenue_by_country in Hv; apply in_map_iff in Hv.
    destruct Hv as ([c' g] & E & Hg); simpl in E; inversion E; subst c' v; clear E.
    apply groupby_In in Hg; [|apply String.eqb_eq].
    destruct Hg as [-> _]; reflexivity. }
  exists sorted.
  split; [|split; [|split; [|split]]].
  - unfold get_geographic_distribution, bind, ret.
    now rewrite (load_transactions_ok _ _ _ Hdf).
  - eapply Permutation_NoDup; [apply Permutation_map, Hperm|].
    rewrite Hkeys; apply groupby_keys_NoDup, String.eqb_eq.
  - intros c.
    assert (E : In c (map fst sorted) <-> In c (map fst sums)).
    { split; apply Permutation_in, Permutation_map;
        [symmetry|]; exact Hperm. }
    rewrite E, Hkeys; apply groupby_keys_In, String.eqb_eq.
  - intros Hint; split.
    + unfold sorted; rewrite Hint; apply Hsort.
    + intros c v Hv; rewrite (Hval c v Hv), Hint; reflexivity.
  - intros Hfloat; split.
    + unfold sorted; rewrite Hfloat; apply Hfloats.
    + intros c v Hv; rewrite (Hval c v Hv), Hfloat; reflexivity.
Qed.

(** The totals of the two countries of [two_countries], summed from
    left to right: 300 for France, and for the United Kingdom the
    double 5.9399999999999995 that 2.55 + 3.39 gives, which is not the
    double nearest to 5.94. *)
Lemma get_geographic_distribution_two_countries :
  get_geographic_distribution sort_values_stable sort_floats_stable
    sum_left_to_right 0%nat [Transactions two_countries]
  = (Ok [("France", FloatRevenue (Finite 300));
         ("United Kingdom",
          FloatRevenue (Finite (3343922723322593 # 562949953421312)))],
     [Transactions two_countries]) /\
  round64 5.94 = Finite (6687845446645187 # 1125899906842624).
Proof. split; vm_compute; reflexivity. Qed.

Lemma get_geographic_distribution_totals_witness :
  exists out,
    get_geographic_distribution sort_values_stable sort_floats_stable
      sum_left_to_right 0%nat [Transactions two_countries]
    = (Ok out, [Transactions two_countries]) /\
    map fst out = ["France"; "United Kingdom"].
Proof.
  destruct (get_geographic_distribution_totals
              sort_values_stable sort_values_stable_contract
              sort_floats_stable FloatFacts.sort_floats_stable_contract
              sum_left_to_right
              [Transactions two_countries] 0%nat two_countries eq_refl)
    as (out & Hrun & _).
  exists out; split; [exact Hrun|].
  vm_compute in Hrun; injection Hrun as <-; reflexivity.
Defined.

End RollupMore.

(* ================================================================== *)
(** ** analytics.py: more on the RFM table                            *)
(* ================================================================== *)

Module RFMMore.
Import Py Pandas Analytics Spec RawMetrics.
Import HeapFacts ListFacts SortFacts GroupFacts AnalyticsFacts.
Import RankFacts QcutFacts QuartileFacts ScoreFacts RFMRun RFMProofs DateFacts.

Lemma length_zip3 {A B C D} (f : A -> B -> C -> D) a b c n :
  length a = n -> length b = n -> length c = n -> length (zip3 f a b c) = n.
Proof.
  revert a b c; induction n as [|n IH]; intros [|x a] [|y b] [|z c];
    simpl; try discriminate; auto.
Qed.

Lemma customers_groupby rows :
  customers rows = map fst (groupby Z.eqb Z.leb CustomerID rows).
Proof. reflexivity. Qed.

(** X10.  The table of [calculate_rfm] has one row per customer: its index
    lists every customer identifier present in the input exactly once,
    in increasing order, rows without an identifier being left out; and
    each of its eight columns has one cell per customer. *)
Theorem rfm_one_row_per_customer (h : State) (df : loc) (rows : list Transaction) :
  nth_error h df = Some (Transactions rows) ->
  exists t,
    calculate_rfm df h = (Ok (length h), h ++ [Table t]) /\
    NoDup (index t) /\
    StronglySorted Z.le (index t) /\
    (forall c, In c (index t) <-> exists r, In r rows /\ CustomerID r = Some c) /\
    map fst (columns t)
    = ["Recency"; "Frequency"; "MonetaryValue"; "R"; "F"; "M";
       "RFM_Segment"; "RFM_Score"] /\
    Forall (fun nc => column_length (snd nc) = length (index t)) (columns t).
Proof.
  intros Hdf.
  exists (rfm_table rows).
  split; [now apply calculate_rfm_run|].
  change (index (rfm_table rows)) with (customers rows).
  split; [|split; [|split; [|split]]].
  - rewrite customers_groupby; apply groupby_keys_NoDup, Z.eqb_eq.
  - rewrite customers_groupby, groupby_keys; apply sort_Z_sorted.
  - intros c; rewrite customers_groupby; apply groupby_keys_In, Z.eqb_eq.
  - reflexivity.
  - unfold rfm_table; simpl columns.
    repeat (apply Forall_cons || apply Forall_nil); simpl snd.
    + apply length_recency_column.
    + apply length_frequency_column.
    + apply length_monetary_column.
    + apply length_R_scores.
    + apply length_F_scores.
    + apply length_M_scores.
    + simpl; apply length_zip3;
        auto using length_R_scores, length_F_scores, length_M_scores.
    + simpl; apply length_zip3;
        auto using length_R_scores, length_F_scores, length_M_scores.
Qed.

Lemma rfm_one_row_per_customer_witness :
  exists t,
    calculate_rfm 0%nat [Transactions four_customers]
    = (Ok 1%nat, [Transactions four_customers; Table t]) /\
    NoDup (index t).
Proof.
  destruct (rfm_one_row_per_customer [Transactions four_customers] 0%nat
              four_customers eq_refl) as (t & Hrun & Hnd & _).
  exists t; auto.
Defined.

(** *** Recency and Frequency *)

Lemma days_column_cell cells i x :
  nth_error cells i = Some x -> days_cell (days_column cells) i x.
Proof.
  intros H.
  destruct (days_column_cases cells) as [[E ->]|[_ [-> _]]]; simpl.
  - rewrite <- (somes_all_some cells E), nth_error_map in H.
    destruct (nth_error (somes cells) i) as [z|]; simpl in H; inversion H; eauto.
  - now rewrite nth_error_map, H.
Qed.

Lemma length_somes_le {A} (l : list (option A)) : (length (somes l) <= length l)%nat.
Proof. induction l as [|[a|] l IH]; simpl; lia. Qed.

Lemma length_unique_le {K} (eqb : K -> K -> bool) l :
  (length (unique eqb l) <= length l)%nat.
Proof.
  induction l as [|x l IH]; simpl; auto.
  pose proof (filter_length_le (fun y => negb (eqb y x)) (unique eqb l)); lia.
Qed.

Lemma nunique_invoices_bounds g :
  0 <= nunique (invoices g) <= Z.of_nat (length g).
Proof.
  unfold nunique, invoices.
  pose proof (length_unique_le String.eqb (somes (map InvoiceNo g))).
  pose proof (length_somes_le (map InvoiceNo g)).
  rewrite length_map in *; lia.
Qed.

(** X11.  Frequency is the number of distinct invoice numbers of the
    customer's rows, rows without an invoice number not counting: it is
    at least 0 and at most the number of rows of the customer.  For a
    customer with a dated row, Recency is one plus the number of whole
    days between the customer's latest date and the latest date of the
    whole table (rows without a customer identifier included), so it is
    at least 1; for a customer without any dated row it is NaN.  The
    Recency column is int64 exactly when every customer has a dated
    row. *)
Theorem rfm_recency_and_frequency (h : State) (df : loc) (rows : list Transaction) :
  nth_error h df = Some (Transactions rows) ->
  exists t recency frequency,
    calculate_rfm df h = (Ok (length h), h ++ [Table t]) /\
    lookup "Recency" (columns t) = Some recency /\
    lookup "Frequency" (columns t) = Some (IntCol frequency) /\
    (is_float_column recency = false <-> all_dated rows) /\
    forall i c,
      nth_error (index t) i = Some c ->
      (exists freq,
         nth_error frequency i = Some freq /\
         distinct_invoices (of_customer c) rows freq /\
         0 <= freq <= Z.of_nat (length (filter (of_customer c) rows))) /\
      (~ undated (of_customer c) rows ->
       exists last_c last_all,
         latest_invoice (of_customer c) rows last_c /\
         latest_invoice (fun _ => true) rows last_all /\
         last_c <= last_all /\
         days_cell recency i (Some (1 + (last_all - last_c) / one_day)) /\
         1 <= 1 + (last_all - last_c) / one_day) /\
      (undated (of_customer c) rows -> days_cell recency i None).
Proof.
  intros Hdf.
  eexists (rfm_table rows), (recency_column rows), _.
  split; [now apply calculate_rfm_run|].
  split; [reflexivity|split; [reflexivity|]].
  split.
  { rewrite recency_column_float, all_dated_cells.
    destruct (forallb is_some (recency_cells rows)); simpl; split; congruence. }
  intros i c Hi.
  change (index (rfm_table rows)) with (customers rows) in Hi.
  rewrite customers_groupby in Hi.
  rewrite nth_error_map in Hi.
  destruct (nth_error (groupby Z.eqb Z.leb CustomerID rows) i) as [[c' g]|] eqn:Hg;
    simpl in Hi; inversion Hi; subst c'; clear Hi.
  pose proof (nth_error_In _ _ Hg) as Hin.
  apply groupby_In in Hin; [|apply Z.eqb_eq].
  destruct Hin as [Eg _].
  change (has_key Z.eqb CustomerID c) with (of_customer c) in Eg.
  subst g.
  assert (Hcell : nth_error (recency_cells rows) i
                  = Some (days_between
                            (option_map (fun m => m + one_day) (series_max (dates rows)))
                            (series_max (dates (filter (of_customer c) rows)))))
    by (unfold recency_cells; now rewrite nth_error_map, Hg).
  split; [|split].
  - exists (nunique (invoices (filter (of_customer c) rows))).
    split; [now rewrite nth_error_map, Hg|].
    split; [apply nunique_distinct_invoices|apply nunique_invoices_bounds].
  - intros Hnu.
    assert (Hne : dates (filter (of_customer c) rows) <> [])
      by (intros E; now apply Hnu, no_dates_undated).
    destruct (recency_cell_some rows c Hne) as (last_c & last_all & Hmc & Hma & Hlc & Hla & Hle).
    assert (Hdiv : 0 <= (last_all - last_c) / one_day)
      by (apply Z.div_pos; [lia|reflexivity]).
    exists last_c, last_all.
    repeat (split; [assumption|]).
    split; [|lia].
    rewrite recency_column_cells; apply days_column_cell.
    rewrite Hcell, Hma, Hmc; simpl; do 2 f_equal.
    replace (last_all + one_day - last_c) with (last_all - last_c + 1 * one_day) by lia.
    rewrite Z.div_add by (intros E; vm_compute in E; discriminate).
    apply Z.add_comm.
  - intros Hu.
    apply no_dates_undated in Hu.
    rewrite recency_column_cells; apply days_column_cell.
    rewrite Hcell, Hu; simpl.
    now destruct (option_map _ _).
Qed.

Lemma rfm_recency_and_frequency_witness :
  exists t,
    calculate_rfm 0%nat [Transactions four_customers_one_undated]
    = (Ok 1%nat, [Transactions four_customers_one_undated; Table t]) /\
    lookup "Recency" (columns t) = Some (NaNCol [Some 4%Q; Some 3%Q; None; Some 1%Q]) /\
    lookup "Frequency" (columns t) = Some (IntCol [1; 1; 1; 1]).
Proof.
  destruct (rfm_recency_and_frequency [Transactions four_customers_one_undated] 0%nat
              four_customers_one_undated eq_refl)
    as (t & recency & frequency & Hrun & _).
  exists t; split; [exact Hrun|].
  vm_compute in Hrun; injection Hrun as <-.
  split; reflexivity.
Defined.

End RFMMore.

(* ================================================================== *)
(** ** analytics.py: the direction of the R and F scores         *)
(* ================================================================== *)

Module ScoreOrder.
Import Py Pandas Analytics Spec RawMetrics.
Import HeapFacts ListFacts SortFacts GroupFacts AnalyticsFacts.
Import RankFacts QcutFacts QuartileFacts ScoreFacts RFMRun RFMProofs.

Lemma count_all {A} (p : A -> bool) l :
  (forall y, In y l -> p y = true) -> count p l = Z.of_nat (length l).
Proof.
  induction l as [|x l IH]; intros H; [reflexivity|].
  rewrite count_cons, (H x), IH by (simpl in *; auto).
  simpl length; lia.
Qed.

Lemma count_none {A} (p : A -> bool) l :
  (forall y, In y l -> p y = false) -> count p l = 0.
Proof.
  induction l as [|x l IH]; intros H; [reflexivity|].
  rewrite count_cons, (H x), IH by (simpl in *; auto); reflexivity.
Qed.

Lemma quartile_last n : (2 <= n)%nat -> quartile n (Z.of_nat n) = 4%nat.
Proof.
  intros Hn.
  unfold quartile, bin_id, quartile_edges, searchsorted_left; simpl map; simpl hd.
  assert (Hd : (inject_Z 1 <= inject_Z (Z.of_nat n - 1))%Q)
    by (rewrite <- Zle_Qle; lia).
  assert (Hv : (inject_Z (Z.of_nat n) == inject_Z (Z.of_nat n - 1) + inject_Z 1)%Q)
    by (rewrite <- inject_Z_plus; f_equal; apply inject_Z_injective; lia).
  set (d := inject_Z (Z.of_nat n - 1)) in *.
  set (v := inject_Z (Z.of_nat n)) in *.
  clearbody d v.
  change (inject_Z 0) with 0%Q; change (inject_Z 1) with 1%Q in *;
    change (inject_Z 2) with 2%Q; change (inject_Z 3) with 3%Q;
    change (inject_Z 4) with 4%Q.
  unfold Qdiv; change (/ 4)%Q with (1 # 4)%Q.
  replace (Qeq_bool v (1 + 0 * d * (1 # 4))) with false.
  2:{ symmetry; apply not_true_is_false; intros E.
      apply Qeq_bool_iff in E; lra. }
  simpl filter.
  assert (Hlt : forall e, (e < v)%Q -> Qltb e v = true) by (intros; now apply Qltb_lt).
  rewrite !Hlt by lra.
  replace (Qltb (1 + 4 * d * (1 # 4)) v) with false; [reflexivity|].
  symmetry; apply not_true_is_false; intros E; apply Qltb_lt in E; lra.
Qed.

Section Ranks.
Context {A : Type} (ltb : A -> A -> bool).
Hypothesis ltb_irrefl : forall x, ltb x x = false.
Hypothesis ltb_trans : forall x y z, ltb x y = true -> ltb y z = true -> ltb x z = true.
Hypothesis ltb_split : forall x y z, ltb x z = true -> ltb x y = true \/ ltb y z = true.

Lemma In_nth_error_split (v : list A) i x y :
  nth_error v i = Some x -> In y (firstn i v) \/ In y (skipn (S i) v) ->
  exists j, j <> i /\ nth_error v j = Some y.
Proof.
  revert i; induction v as [|z v IH]; intros [|i] Hi Hy; simpl in *; try discriminate.
  - destruct Hy as [[]|Hy].
    apply In_nth_error in Hy; destruct Hy as [j Hj].
    exists (S j); split; auto.
  - destruct Hy as [[->|Hy]|Hy].
    + exists O; split; auto.
    + destruct (IH i Hi (or_introl Hy)) as (j & Hj & E); exists (S j); split; auto.
    + destruct (IH i Hi (or_intror Hy)) as (j & Hj & E); exists (S j); split; auto.
Qed.

(** A value above all the others has the last rank. *)
Lemma rank_at_greatest v i x :
  nth_error v i = Some x ->
  (forall j y, j <> i -> nth_error v j = Some y -> ltb y x = true) ->
  rank_at ltb v i x = Z.of_nat (length v).
Proof.
  intros Hi Hall; unfold rank_at.
  pose proof (nth_error_split_firstn v i x Hi) as Hs.
  assert (H1 : forall y, In y (firstn i v) -> ltb y x = true).
  { intros y Hy; destruct (In_nth_error_split v i x y Hi (or_introl Hy)) as (j & Hj & E).
    eauto. }
  assert (H2 : forall y, In y (skipn (S i) v) -> ltb y x = true).
  { intros y Hy; destruct (In_nth_error_split v i x y Hi (or_intror Hy)) as (j & Hj & E).
    eauto. }
  set (l1 := firstn i v) in *; set (l2 := skipn (S i) v) in *.
  clearbody l1 l2; clear Hi Hall; subst v.
  rewrite !count_app, count_cons, ltb_irrefl, !length_app; simpl length.
  rewrite (count_all _ l1 H1), (count_all _ l2 H2).
  rewrite (count_none (fun y => tied ltb y x) l1).
  - lia.
  - intros y Hy; unfold tied; now rewrite (H1 y Hy).
Qed.

(** A value below all the others has rank 1. *)
Lemma rank_at_least v i x :
  nth_error v i = Some x ->
  (forall j y, j <> i -> nth_error v j = Some y -> ltb x y = true) ->
  rank_at ltb v i x = 1.
Proof.
  intros Hi Hall; unfold rank_at.
  pose proof (nth_error_split_firstn v i x Hi) as Hs.
  assert (H1 : forall y, In y (firstn i v) -> ltb x y = true).
  { intros y Hy; destruct (In_nth_error_split v i x y Hi (or_introl Hy)) as (j & Hj & E).
    eauto. }
  assert (H2 : forall y, In y (skipn (S i) v) -> ltb x y = true).
  { intros y Hy; destruct (In_nth_error_split v i x y Hi (or_intror Hy)) as (j & Hj & E).
    eauto. }
  set (l1 := firstn i v) in *; set (l2 := skipn (S i) v) in *.
  clearbody l1 l2; clear Hi Hall; subst v.
  rewrite !count_app, count_cons, ltb_irrefl.
  rewrite (count_none (fun y => ltb y x) l1), (count_none (fun y => ltb y x) l2),
    (count_none (fun y => tied ltb y x) l1).
  - lia.
  - intros y Hy; unfold tied; rewrite (H1 y Hy); apply andb_false_r.
  - intros y Hy; apply (ltb_asym ltb ltb_irrefl ltb_trans); auto.
  - intros y Hy; apply (ltb_asym ltb ltb_irrefl ltb_trans); auto.
Qed.

(** The quartiles of two customers, the first with the smaller value. *)
Lemma quartiles_ordered v i j x y :
  (2 <= length v)%nat ->
  nth_error v i = Some x -> nth_error v j = Some y -> ltb x y = true ->
  (1 <= quartile (length v) (rank_at ltb v i x)
   <= quartile (length v) (rank_at ltb v j y))%nat /\
  (quartile (length v) (rank_at ltb v j y) <= 4)%nat.
Proof.
  intros Hn Hi Hj Hxy.
  pose proof (rank_at_bounds ltb ltb_irrefl v i x Hi) as Bi.
  pose proof (rank_at_bounds ltb ltb_irrefl v j y Hj) as Bj.
  pose proof (rank_at_lt ltb ltb_irrefl ltb_trans ltb_split v i j x y Hi Hj Hxy) as Hlt.
  pose proof (quartile_range (length v) _ Hn Bi).
  pose proof (quartile_range (length v) _ Hn Bj).
  pose proof (quartile_monotone (length v) (rank_at ltb v i x) (rank_at ltb v j y) Hn).
  lia.
Qed.
End Ranks.

(** The ranks of a numeric column, cell by cell. *)
Lemma column_lt_ranks c i j :
  is_str_column c = false -> is_nan_column c = false ->
  (2 <= column_length c)%nat -> column_lt c i j ->
  exists ri rj,
    nth_error (rank c) i = Some ri /\ nth_error (rank c) j = Some rj /\
    (1 <= quartile (column_length c) ri <= quartile (column_length c) rj)%nat /\
    (quartile (column_length c) rj <= 4)%nat.
Proof.
  intros Hc Hnan Hn Hlt.
  destruct c as [v|v|v|v]; simpl in *; try discriminate;
    destruct Hlt as (x & y & Hx & Hy & Hxy);
    rewrite !nth_error_rank_first, Hx, Hy; simpl; eexists _, _;
      (split; [reflexivity|split; [reflexivity|]]).
  - apply (quartiles_ordered Z.ltb Z_ltb_irrefl Z_ltb_trans Z_ltb_split); auto.
    now apply Z.ltb_lt.
  - apply (quartiles_ordered Qltb Qltb_irrefl Qltb_trans Qltb_split); auto.
    now apply Qltb_lt.
Qed.

(** One scoring round keeps the order of the raw values, through the
    labels. *)
Lemma score_column_order c labels i j a b :
  is_str_column c = false -> is_nan_column c = false ->
  length labels = 4%nat -> column_lt c i j ->
  nth_error (score_column c labels (column_length c)) i = Some a ->
  nth_error (score_column c labels (column_length c)) j = Some b ->
  (a = 2 /\ b = 2) \/
  exists qi qj, (1 <= qi <= qj)%nat /\ (qj <= 4)%nat /\
                a = nth (qi - 1) labels 0 /\ b = nth (qj - 1) labels 0.
Proof.
  intros Hc Hnan Hlab Hlt Ha Hb.
  destruct (le_lt_dec (column_length c) 1) as [Hn|Hn].
  - left; rewrite score_column_fallback in Ha, Hb by auto.
    apply nth_error_In, repeat_spec in Ha.
    apply nth_error_In, repeat_spec in Hb; auto.
  - right; rewrite score_column_quartiles in Ha, Hb by (auto; lia).
    destruct (column_lt_ranks c i j Hc Hnan ltac:(lia) Hlt)
      as (ri & rj & Hi & Hj & Hq & Hq4).
    rewrite nth_error_map, Hi in Ha; rewrite nth_error_map, Hj in Hb.
    exists (quartile (column_length c) ri), (quartile (column_length c) rj).
    split; [exact Hq|split; [exact Hq4|split]].
    + injection Ha; auto.
    + injection Hb; auto.
Qed.

Lemma descending_labels_order qi qj :
  (1 <= qi <= qj)%nat -> (qj <= 4)%nat ->
  nth (qj - 1) [4; 3; 2; 1] 0 <= nth (qi - 1) [4; 3; 2; 1] 0.
Proof.
  intros H1 H2.
  assert (Hi : qi = 1%nat \/ qi = 2%nat \/ qi = 3%nat \/ qi = 4%nat) by lia.
  assert (Hj : qj = 1%nat \/ qj = 2%nat \/ qj = 3%nat \/ qj = 4%nat) by lia.
  destruct Hi as [-> | [-> | [-> | ->]]], Hj as [-> | [-> | [-> | ->]]];
    simpl; lia.
Qed.

Lemma ascending_labels_order qi qj :
  (1 <= qi <= qj)%nat -> (qj <= 4)%nat ->
  nth (qi - 1) [1; 2; 3; 4] 0 <= nth (qj - 1) [1; 2; 3; 4] 0.
Proof.
  intros H1 H2.
  assert (Hi : qi = 1%nat \/ qi = 2%nat \/ qi = 3%nat \/ qi = 4%nat) by lia.
  assert (Hj : qj = 1%nat \/ qj = 2%nat \/ qj = 3%nat \/ qj = 4%nat) by lia.
  destruct Hi as [-> | [-> | [-> | ->]]], Hj as [-> | [-> | [-> | ->]]];
    simpl; lia.
Qed.

(** X12.  The two directions of the scores: a customer with strictly fewer
    days since the last purchase never has a lower R score, and a
    customer with strictly more invoices never has a lower F score. *)
Theorem recency_and_frequency_score_order
        (h : State) (df : loc) (rows : list Transaction) :
  nth_error h df = Some (Transactions rows) ->
  exists t recency frequency rs fs,
    calculate_rfm df h = (Ok (length h), h ++ [Table t]) /\
    lookup "Recency" (columns t) = Some recency /\
    lookup "Frequency" (columns t) = Some frequency /\
    lookup "R" (columns t) = Some (IntCol rs) /\
    lookup "F" (columns t) = Some (IntCol fs) /\
    (forall i j r1 r2,
        column_lt recency i j ->
        nth_error rs i = Some r1 -> nth_error rs j = Some r2 -> r2 <= r1) /\
    (forall i j f1 f2,
        column_lt frequency i j ->
        nth_error fs i = Some f1 -> nth_error fs j = Some f2 -> f1 <= f2).
Proof.
  intros Hdf.
  exists (rfm_table rows), (recency_column rows), (frequency_column rows),
    (R_scores rows), (F_scores rows).
  split; [now apply calculate_rfm_run|].
  repeat (split; [reflexivity|]).
  split.
  - intros i j r1 r2 Hlt H1 H2.
    unfold R_scores in H1, H2.
    rewrite recency_column_cells in *.
    destruct (days_column_cases (recency_cells rows)) as [[_ E]|[_ [E Hnone]]];
      rewrite E in *.
    + rewrite <- (length_recency_column rows), recency_column_cells, E in H1, H2.
      destruct (score_column_order (IntCol (somes (recency_cells rows)))
                                   [4; 3; 2; 1] i j r1 r2
                                   eq_refl eq_refl eq_refl Hlt H1 H2)
        as [[-> ->]|(qi & qj & Hq & Hq4 & -> & ->)]; [lia|].
      now apply descending_labels_order.
    + rewrite score_column_nan in H1, H2 by exact Hnone.
      apply nth_error_In, repeat_spec in H1.
      apply nth_error_In, repeat_spec in H2; lia.
  - intros i j f1 f2 Hlt H1 H2.
    unfold F_scores in H1, H2; rewrite <- length_frequency_column in H1, H2.
    destruct (score_column_order (frequency_column rows) [1; 2; 3; 4] i j f1 f2
                                 eq_refl eq_refl eq_refl Hlt H1 H2)
      as [[-> ->]|(qi & qj & Hq & Hq4 & -> & ->)]; [lia|].
    now apply ascending_labels_order.
Qed.

Lemma recency_and_frequency_score_order_witness :
  exists t recency rs,
    calculate_rfm 0%nat [Transactions four_customers]
    = (Ok 1%nat, [Transactions four_customers; Table t]) /\
    lookup "Recency" (columns t) = Some recency /\
    lookup "R" (columns t) = Some (IntCol rs) /\
    column_lt recency 3 0 /\
    (forall r1 r2, nth_error rs 3 = Some r1 -> nth_error rs 0 = Some r2 -> r2 <= r1).
Proof.
  destruct (recency_and_frequency_score_order [Transactions four_customers] 0%nat
              four_customers eq_refl)
    as (t & recency & frequency & rs & fs & Hrun & Hrec & _ & HR & _ & Hord & _).
  exists t, recency, rs.
  split; [exact Hrun|split; [exact Hrec|split; [exact HR|]]].
  assert (Hlt : column_lt recency 3 0).
  { vm_compute in Hrun. injection Hrun as <-.
    vm_compute in Hrec. injection Hrec as <-.
    exists 1, 4; repeat split. }
  split; [exact Hlt|].
  intros r1 r2; apply Hord; exact Hlt.
Defined.

End ScoreOrder.

(* ================================================================== *)
(** ** analytics.py: the best and the worst customer             *)
(* ================================================================== *)

Module ScoreShares.
Import Py Pandas Analytics Spec RawMetrics.
Import HeapFacts ListFacts SortFacts GroupFacts AnalyticsFacts.
Import RankFacts QcutFacts QuartileFacts ScoreFacts RFMRun RFMProofs ScoreOrder.

(** *** The best and the worst customer *)

Lemma score_column_extremes c labels i :
  is_str_column c = false -> is_nan_column c = false -> length labels = 4%nat ->
  (2 <= column_length c)%nat -> (i < column_length c)%nat ->
  ((forall j, j <> i -> (j < column_length c)%nat -> column_lt c j i) ->
   nth_error (score_column c labels (column_length c)) i = Some (nth 3 labels 0)) /\
  ((forall j, j <> i -> (j < column_length c)%nat -> column_lt c i j) ->
   nth_error (score_column c labels (column_length c)) i = Some (nth 0 labels 0)).
Proof.
  intros Hc Hnan Hlab Hn Hi.
  rewrite score_column_quartiles by auto.
  rewrite nth_error_map.
  destruct c as [v|v|v|v]; simpl in *; try discriminate;
    rewrite nth_error_rank_first;
    (destruct (nth_error v i) as [x|] eqn:Hx; [|apply nth_error_None in Hx; lia]);
    simpl; split; intros Hall.
  - rewrite (rank_at_greatest Z.ltb Z_ltb_irrefl), quartile_last; auto.
    intros j y Hj Hy.
    destruct (Hall j Hj) as (a & b & Ha & Hb & Hab);
      [apply nth_error_Some; congruence|].
    apply Z.ltb_lt; congruence.
  - rewrite (rank_at_least Z.ltb Z_ltb_irrefl Z_ltb_trans), quartile_first; auto.
    intros j y Hj Hy.
    destruct (Hall j Hj) as (a & b & Ha & Hb & Hab);
      [apply nth_error_Some; congruence|].
    apply Z.ltb_lt; congruence.
  - rewrite (rank_at_greatest Qltb Qltb_irrefl), quartile_last; auto.
    intros j y Hj Hy.
    destruct (Hall j Hj) as (a & b & Ha & Hb & Hab);
      [apply nth_error_Some; congruence|].
    apply Qltb_lt; congruence.
  - rewrite (rank_at_least Qltb Qltb_irrefl Qltb_trans), quartile_first; auto.
    intros j y Hj Hy.
    destruct (Hall j Hj) as (a & b & Ha & Hb & Hab);
      [apply nth_error_Some; congruence|].
    apply Qltb_lt; congruence.
Qed.

(** X13.  From two customers on: the customer whose raw Monetary value is
    strictly above all the others gets M = 4, the one strictly below all
    the others gets M = 1; the customer with strictly the fewest days
    since the last purchase gets R = 4, the one with strictly the most
    gets R = 1. *)
Theorem best_and_worst_scores (h : State) (df : loc) (rows : list Transaction) :
  nth_error h df = Some (Transactions rows) ->
  exists t recency monetary rs ms,
    calculate_rfm df h = (Ok (length h), h ++ [Table t]) /\
    lookup "Recency" (columns t) = Some recency /\
    lookup "MonetaryValue" (columns t) = Some monetary /\
    lookup "R" (columns t) = Some (IntCol rs) /\
    lookup "M" (columns t) = Some (IntCol ms) /\
    forall i,
      (2 <= length (index t))%nat -> (i < length (index t))%nat ->
      ((forall j, j <> i -> (j < length (index t))%nat -> column_lt monetary j i) ->
       nth_error ms i = Some 4) /\
      ((forall j, j <> i -> (j < length (index t))%nat -> column_lt monetary i j) ->
       nth_error ms i = Some 1) /\
      ((forall j, j <> i -> (j < length (index t))%nat -> column_lt recency i j) ->
       nth_error rs i = Some 4) /\
      ((forall j, j <> i -> (j < length (index t))%nat -> column_lt recency j i) ->
       nth_error rs i = Some 1).
Proof.
  intros Hdf.
  exists (rfm_table rows), (recency_column rows), (monetary_column rows),
    (R_scores rows), (M_scores rows).
  split; [now apply calculate_rfm_run|].
  repeat (split; [reflexivity|]).
  change (index (rfm_table rows)) with (customers rows).
  intros i Hn Hi.
  unfold R_scores, M_scores.
  pose proof (length_recency_column rows) as Lr.
  pose proof (length_monetary_column rows) as Lm.
  destruct (score_column_extremes (monetary_column rows) [1; 2; 3; 4] i)
    as [Mtop Mbottom]; try reflexivity; try lia;
    [apply monetary_column_not_str|apply monetary_column_not_nan|].
  rewrite Lm in Mtop, Mbottom.
  split; [exact Mtop|split; [exact Mbottom|]].
  rewrite recency_column_cells in *.
  destruct (days_column_cases (recency_cells rows)) as [[_ E]|[_ [E Hnone]]];
    rewrite E in *.
  - destruct (score_column_extremes (IntCol (somes (recency_cells rows)))
                                    [4; 3; 2; 1] i)
      as [Rtop Rbottom]; try reflexivity; try lia.
    rewrite Lr in Rtop, Rbottom.
    split; [exact Rbottom|exact Rtop].
  - (* a customer without a date is neither above nor below another *)
    apply In_nth_error in Hnone; destruct Hnone as [k Hk].
    assert (Hklt : (k < length (customers rows))%nat)
      by (rewrite <- Lr; simpl; apply nth_error_Some; congruence).
    assert (Hother : exists j, j <> i /\ (j < length (customers rows))%nat)
      by (destruct i; [exists 1%nat|exists 0%nat]; split; lia).
    split; intros Hall; exfalso.
    + destruct (Nat.eq_dec k i) as [->|Hki].
      * destruct Hother as (j & Hj & Hjlt).
        destruct (Hall j Hj Hjlt) as (a & b & Ha & _); simpl in *; congruence.
      * destruct (Hall k Hki Hklt) as (a & b & _ & Hb & _); simpl in *; congruence.
    + destruct (Nat.eq_dec k i) as [->|Hki].
      * destruct Hother as (j & Hj & Hjlt).
        destruct (Hall j Hj Hjlt) as (a & b & _ & Hb & _); simpl in *; congruence.
      * destruct (Hall k Hki Hklt) as (a & b & Ha & _); simpl in *; congruence.
Qed.

Lemma best_and_worst_scores_witness :
  exists t ms,
    calculate_rfm 0%nat [Transactions two_customers_float_prices]
    = (Ok 1%nat, [Transactions two_customers_float_prices; Table t]) /\
    lookup "M" (columns t) = Some (IntCol ms) /\
    nth_error ms 1 = Some 4.
Proof.
  destruct (best_and_worst_scores [Transactions two_customers_float_prices] 0%nat
              two_customers_float_prices eq_refl)
    as (t & recency & monetary & rs & ms & Hrun & _ & Hmon & _ & HM & Hext).
  exists t, ms; split; [exact Hrun|split; [exact HM|]].
  assert (Hlen : length (index t) = 2%nat).
  { vm_compute in Hrun. injection Hrun as <-. reflexivity. }
  destruct (Hext 1%nat) as (Htop & _); [lia|lia|].
  apply Htop; intros j Hj Hlt.
  assert (j = 0%nat) by lia; subst j.
  vm_compute in Hrun. injection Hrun as <-.
  vm_compute in Hmon. injection Hmon as <-.
  eexists _, _; repeat split.
Defined.

End ScoreShares.

(* ================================================================== *)
(** ** analytics.py: equal quartiles                             *)
(* ================================================================== *)

Module EqualShares.
Import Py Pandas Analytics Spec RawMetrics.
Import HeapFacts ListFacts SortFacts GroupFacts AnalyticsFacts.
Import RankFacts QcutFacts QuartileFacts ScoreFacts RFMRun RFMProofs ScoreOrder.

(** *** With 4k customers, every quartile holds k of them *)

Ltac decide_edge v :=
  match goal with
  | |- context [Qltb ?e v] =>
    first [ replace (Qltb e v) with true
              by (symmetry; apply Qltb_lt; lra)
          | replace (Qltb e v) with false
              by (symmetry; apply not_true_is_false;
                  let E := fresh in intros E; apply Qltb_lt in E; lra) ]
  end.

(** The ranks (j-1)k+1 .. jk fall into the quartile j. *)
Lemma quartile_block_of (n k : nat) (j : Z) (r : Z) :
  Z.of_nat n = 4 * Z.of_nat k ->
  (1 <= k)%nat -> 1 <= j <= 4 ->
  (j - 1) * Z.of_nat k + 1 <= r <= j * Z.of_nat k ->
  Z.of_nat (quartile n r) = j.
Proof.
  intros Hn Hk Hj Hr.
  destruct (Z.eq_dec r 1) as [->|Hr1].
  { rewrite quartile_first; nia. }
  unfold quartile, bin_id, quartile_edges, searchsorted_left; simpl map; simpl hd.
  assert (HK : (inject_Z 1 <= inject_Z (Z.of_nat k))%Q) by (rewrite <- Zle_Qle; lia).
  assert (Hd : (inject_Z (Z.of_nat n - 1)
                == inject_Z 4 * inject_Z (Z.of_nat k) - inject_Z 1)%Q).
  { unfold Qminus; rewrite <- inject_Z_mult, <- inject_Z_opp, <- inject_Z_plus.
    rewrite Hn; reflexivity. }
  assert (Hlo : (inject_Z (j - 1) * inject_Z (Z.of_nat k) + inject_Z 1 <= inject_Z r)%Q)
    by (rewrite <- inject_Z_mult, <- inject_Z_plus, <- Zle_Qle; lia).
  assert (Hhi : (inject_Z r <= inject_Z j * inject_Z (Z.of_nat k))%Q)
    by (rewrite <- inject_Z_mult, <- Zle_Qle; lia).
  assert (Hr2 : (inject_Z 2 <= inject_Z r)%Q).
  { rewrite <- Zle_Qle.
    assert (0 <= (j - 1) * Z.of_nat k) by nia; lia. }
  set (K := inject_Z (Z.of_nat k)) in *.
  set (d := inject_Z (Z.of_nat n - 1)) in *.
  set (v := inject_Z r) in *.
  clearbody K d v.
  change (inject_Z 0) with 0%Q in *; change (inject_Z 1) with 1%Q in *;
    change (inject_Z 2) with 2%Q in *; change (inject_Z 3) with 3%Q in *;
    change (inject_Z 4) with 4%Q in *.
  unfold Qdiv; change (/ 4)%Q with (1 # 4)%Q.
  replace (Qeq_bool v (1 + 0 * d * (1 # 4))) with false.
  2:{ symmetry; apply not_true_is_false; intros E.
      apply Qeq_bool_iff in E; lra. }
  simpl filter.
  assert (Hcases : j = 1 \/ j = 2 \/ j = 3 \/ j = 4) by lia.
  destruct Hcases as [-> | [-> | [-> | ->]]];
    repeat match goal with
           | H : context [inject_Z ?z] |- _ =>
             let x := eval vm_compute in (inject_Z z) in
             change (inject_Z z) with x in H
           end;
    repeat decide_edge v; reflexivity.
Qed.

Lemma quartile_block (k : nat) (j : Z) (r : Z) :
  (1 <= k)%nat -> 1 <= j <= 4 ->
  (j - 1) * Z.of_nat k + 1 <= r <= j * Z.of_nat k ->
  Z.of_nat (quartile (4 * k) r) = j.
Proof. apply quartile_block_of; lia. Qed.

Lemma count_perm {A} (p : A -> bool) l l' :
  Permutation l l' -> count p l = count p l'.
Proof.
  induction 1 as [|x l l' Hp IH|x y l|l l' l'' H1 IH1 H2 IH2];
    rewrite ?count_cons; try lia.
Qed.

Lemma count_map {A B} (f : A -> B) (p : B -> bool) l :
  count p (map f l) = count (fun x => p (f x)) l.
Proof.
  induction l as [|x l IH]; [reflexivity|].
  simpl map; rewrite !count_cons, IH; reflexivity.
Qed.

Lemma ranks_blocks k :
  ranks_1_to (4 * k)
  = map Z.of_nat (seq 1 k) ++ map Z.of_nat (seq (1 + k) k)
    ++ map Z.of_nat (seq (1 + 2 * k) k) ++ map Z.of_nat (seq (1 + 3 * k) k).
Proof.
  unfold ranks_1_to.
  replace (4 * k)%nat with (k + (k + (k + k)))%nat by lia.
  rewrite !seq_app, !map_app.
  replace (1 + k + k)%nat with (1 + 2 * k)%nat by lia.
  replace (1 + 2 * k + k)%nat with (1 + 3 * k)%nat by lia.
  reflexivity.
Qed.

(** In the block of the quartile [j], the label [s] is given to all or
    to none. *)
Lemma count_block (k : nat) (j : Z) (labels : list Z) (s : Z) (start : nat) :
  (1 <= k)%nat -> 1 <= j <= 4 -> Z.of_nat start = (j - 1) * Z.of_nat k + 1 ->
  count (fun r => nth (quartile (4 * k) r - 1) labels 0 =? s)
        (map Z.of_nat (seq start k))
  = if nth (Z.to_nat (j - 1)) labels 0 =? s then Z.of_nat k else 0.
Proof.
  intros Hk Hj Hstart.
  assert (Hq : forall r, In r (map Z.of_nat (seq start k)) ->
                         (quartile (4 * k) r - 1)%nat = Z.to_nat (j - 1)).
  { intros r Hr; apply in_map_iff in Hr; destruct Hr as (x & <- & Hx).
    apply in_seq in Hx.
    pose proof (quartile_block k j (Z.of_nat x) Hk Hj) as H.
    rewrite <- H by nia; lia. }
  destruct (nth (Z.to_nat (j - 1)) labels 0 =? s) eqn:E.
  - rewrite count_all; [now rewrite length_map, length_seq|].
    intros r Hr; now rewrite (Hq r Hr).
  - apply count_none; intros r Hr; now rewrite (Hq r Hr).
Qed.

Lemma rank_perm c :
  is_str_column c = false -> is_nan_column c = false ->
  Permutation (rank c) (ranks_1_to (column_length c)).
Proof.
  destruct c as [v|v|v|v]; simpl; try discriminate; intros _ _.
  - apply (rank_first_perm Z.ltb Z_ltb_irrefl Z_ltb_trans Z_ltb_split).
  - apply (rank_first_perm Qltb Qltb_irrefl Qltb_trans Qltb_split).
Qed.

Lemma score_column_equal_shares c labels k s :
  is_str_column c = false -> is_nan_column c = false ->
  (1 <= k)%nat -> column_length c = (4 * k)%nat ->
  labels = [1; 2; 3; 4] \/ labels = [4; 3; 2; 1] ->
  1 <= s <= 4 ->
  customers_with_score s (score_column c labels (column_length c)) = Z.of_nat k.
Proof.
  intros Hc Hnan Hk Hn Hlab Hs; unfold customers_with_score.
  rewrite score_column_quartiles
    by (auto; try lia; destruct Hlab as [-> | ->]; reflexivity).
  rewrite count_map, (count_perm _ _ _ (rank_perm c Hc Hnan)), Hn, ranks_blocks.
  rewrite !count_app.
  rewrite (count_block k 1 labels s 1), (count_block k 2 labels s (1 + k)),
    (count_block k 3 labels s (1 + 2 * k)), (count_block k 4 labels s (1 + 3 * k))
    by lia.
  assert (Hcases : s = 1 \/ s = 2 \/ s = 3 \/ s = 4) by lia.
  destruct Hlab as [-> | ->], Hcases as [-> | [-> | [-> | ->]]]; simpl; lia.
Qed.

(** X14.  When the number of customers is a multiple of four, each of
    the scores 1, 2, 3 and 4 is given to exactly a quarter of the
    customers for F and for M, whatever the raw values and their ties,
    and for R as well when every customer has a dated row; when some
    customer has none, all the customers have R = 2. *)
Theorem rfm_equal_quartiles (h : State) (df : loc) (rows : list Transaction) (k : nat) :
  nth_error h df = Some (Transactions rows) ->
  exists t rs fs ms,
    calculate_rfm df h = (Ok (length h), h ++ [Table t]) /\
    lookup "R" (columns t) = Some (IntCol rs) /\
    lookup "F" (columns t) = Some (IntCol fs) /\
    lookup "M" (columns t) = Some (IntCol ms) /\
    ((1 <= k)%nat -> length (index t) = (4 * k)%nat ->
     forall s, 1 <= s <= 4 ->
       customers_with_score s fs = Z.of_nat k /\
       customers_with_score s ms = Z.of_nat k /\
       (all_dated rows -> customers_with_score s rs = Z.of_nat k) /\
       (~ all_dated rows ->
        customers_with_score s rs = if s =? 2 then Z.of_nat (4 * k) else 0)).
Proof.
  intros Hdf.
  exists (rfm_table rows), (R_scores rows), (F_scores rows), (M_scores rows).
  split; [now apply calculate_rfm_run|].
  repeat (split; [reflexivity|]).
  change (index (rfm_table rows)) with (customers rows).
  intros Hk Hn s Hs.
  unfold R_scores, F_scores, M_scores.
  split; [|split; [|split]].
  - rewrite <- length_frequency_column at 1.
    apply score_column_equal_shares; auto.
    now rewrite length_frequency_column.
  - rewrite <- length_monetary_column at 1.
    apply score_column_equal_shares;
      auto using monetary_column_not_str, monetary_column_not_nan.
    now rewrite length_monetary_column.
  - intros Hd.
    rewrite <- length_recency_column at 1.
    apply score_column_equal_shares; auto using recency_column_not_str.
    + now rewrite (recency_column_dated rows Hd).
    + now rewrite length_recency_column.
  - intros Hnd.
    destruct (recency_column_undated rows Hnd) as (v & -> & Hv).
    rewrite score_column_nan by exact Hv.
    unfold customers_with_score; rewrite Hn.
    destruct (Z.eqb_spec s 2) as [->|Hs2].
    + rewrite count_all; [now rewrite repeat_length|].
      intros y Hy; apply repeat_spec in Hy; now subst y.
    + apply count_none; intros y Hy; apply repeat_spec in Hy; subst y.
      apply Z.eqb_neq; lia.
Qed.

Lemma rfm_equal_quartiles_witness :
  exists t rs ms,
    calculate_rfm 0%nat [Transactions four_customers_one_undated]
    = (Ok 1%nat, [Transactions four_customers_one_undated; Table t]) /\
    lookup "R" (columns t) = Some (IntCol rs) /\
    lookup "M" (columns t) = Some (IntCol ms) /\
    customers_with_score 3 ms = 1 /\
    customers_with_score 2 rs = 4.
Proof.
  destruct (rfm_equal_quartiles [Transactions four_customers_one_undated] 0%nat
              four_customers_one_undated 1 eq_refl)
    as (t & rs & fs & ms & Hrun & HR & _ & HM & Hshare).
  exists t, rs, ms; split; [exact Hrun|split; [exact HR|split; [exact HM|]]].
  assert (Hlen : length (index t) = (4 * 1)%nat).
  { vm_compute in Hrun. injection Hrun as <-. reflexivity. }
  split.
  - apply (Hshare ltac:(lia) Hlen 3); lia.
  - apply (Hshare ltac:(lia) Hlen 2); [lia|].
    exact (proj1 RFMProperties.recency_fallback_undated_customer).
Defined.

End EqualShares.

(* ================================================================== *)
(** ** data_pipeline.py: a run on a file that exists             *)
(* ================================================================== *)

Module PipelineRun.
Import Py Pandas DataPipeline PipelineModel.
Import ListFacts SortFacts GroupFacts.

(** *** [clean_data] of the pipeline *)

Lemma clean_data_rows df w :
  clean_data df w
  = (Ok (clean_rows df),
     {| files := files w;
        log := log w ++ [(INFO, CleaningChunk); (INFO, ChunkCleaningComplete)];
        tables := tables w; sink_ops := sink_ops w; figures := figures w |}).
Proof.
  unfold clean_data, clean_rows, logging, bind, ret; simpl.
  now rewrite <- app_assoc.
Qed.

Lemma clean_rows_app a b : clean_rows (a ++ b) = clean_rows a ++ clean_rows b.
Proof. unfold clean_rows; now rewrite filter_app, map_app. Qed.

Lemma clean_rows_concat cs : clean_rows (concat cs) = concat (map clean_rows cs).
Proof.
  induction cs as [|c cs IH]; [reflexivity|].
  simpl; now rewrite clean_rows_app, IH.
Qed.

Lemma clean_rows_complete r df :
  In r (clean_rows df) ->
  date r <> None /\ quantity r <> None /\ revenue r <> None.
Proof.
  unfold clean_rows; rewrite in_map_iff; intros (r0 & <- & Hr0).
  apply filter_In in Hr0; destruct Hr0 as (_ & Hd); simpl.
  repeat split.
  - destruct (date r0); [discriminate|discriminate Hd].
  - destruct (quantity r0); discriminate.
  - destruct (revenue r0); discriminate.
Qed.

Lemma clean_rows_fixed df :
  (forall r, In r df -> date r <> None /\ quantity r <> None /\ revenue r <> None) ->
  clean_rows df = df.
Proof.
  induction df as [|r df IH]; intros H; [reflexivity|].
  destruct (H r (or_introl eq_refl)) as (Hd & Hq & Hr).
  unfold clean_rows in *; simpl.
  destruct r as [[d|] p [q|] [v|]]; simpl in *; try congruence.
  f_equal; apply IH; intros r' Hr'; apply H; now right.
Qed.

Lemma clean_rows_cells df :
  Forall2 (fun r r' =>
             date r' = date r /\ product_id r' = product_id r /\
             quantity r' = Some (value0 (quantity r)) /\
             revenue r' = Some (value0 (revenue r)))
          (filter (fun r => match date r with Some _ => true | None => false end) df)
          (clean_rows df).
Proof.
  unfold clean_rows.
  induction (filter _ df) as [|r l IH]; simpl; constructor; auto.
  simpl; repeat split.
  - now destruct (quantity r).
  - now destruct (revenue r).
Qed.

(** X15.  [clean_data] of the pipeline returns the rows that have a
    date, one for one and in their order: the date and the product of a
    row are kept, a quantity or a revenue that is present is kept, and
    one that is missing becomes 0.  So no cell of the columns date,
    quantity and revenue is missing in the result, a row that had all
    three is kept as it is, and cleaning the result again changes
    nothing.  It writes two log records and touches nothing else. *)
Theorem pipeline_clean_data_complete (df : list SalesRow) (w : World) :
  exists out w',
    clean_data df w = (Ok out, w') /\
    log w' = log w ++ [(INFO, CleaningChunk); (INFO, ChunkCleaningComplete)] /\
    files w' = files w /\ tables w' = tables w /\
    sink_ops w' = sink_ops w /\ figures w' = figures w /\
    Forall2 (fun r r' =>
               date r' = date r /\ product_id r' = product_id r /\
               quantity r' = Some (value0 (quantity r)) /\
               revenue r' = Some (value0 (revenue r)))
            (filter (fun r => match date r with Some _ => true | None => false end) df)
            out /\
    (forall r, In r out ->
               date r <> None /\ quantity r <> None /\ revenue r <> None) /\
    (forall r, In r df ->
               date r <> None -> quantity r <> None -> revenue r <> None ->
               In r out) /\
    fst (clean_data out w') = Ok out.
Proof.
  eexists; eexists; split; [apply clean_data_rows|].
  cbn [log files tables sink_ops figures].
  repeat (split; [reflexivity|]).
  split; [apply clean_rows_cells|].
  split; [intros r; apply clean_rows_complete|].
  split.
  - intros r Hr Hd Hq Hv; unfold clean_rows; apply in_map_iff.
    exists r; split.
    + destruct r as [d p [q|] [v|]]; simpl in *; congruence.
    + apply filter_In; split; auto.
      destruct (date r); congruence.
  - rewrite clean_data_rows; simpl; f_equal.
    apply clean_rows_fixed; intros r; apply clean_rows_complete.
Qed.

Lemma pipeline_clean_data_complete_example :
  fst (clean_data
         [ {| date := Some "d1"; product_id := 7;
              quantity := None; revenue := Some 5%Q |};
           {| date := None; product_id := 8;
              quantity := Some 1%Q; revenue := Some 9%Q |};
           {| date := Some "d3"; product_id := 9;
              quantity := Some 2%Q; revenue := None |} ]
         {| files := fun _ => None; log := []; tables := []; sink_ops := [];
            figures := [] |})
  = Ok [ {| date := Some "d1"; product_id := 7;
            quantity := Some 0%Q; revenue := Some 5%Q |};
         {| date := Some "d3"; product_id := 9;
            quantity := Some 2%Q; revenue := Some 0%Q |} ].
Proof. reflexivity. Qed.

(** *** Reading in chunks *)

Lemma chunks_fuel_concat size : (1 <= size)%nat ->
  forall fuel rows, (length rows <= fuel)%nat ->
  concat (chunks_fuel fuel size rows) = rows.
Proof.
  intros Hs; induction fuel as [|fuel IH]; intros rows Hf.
  - destruct rows; [reflexivity|simpl in Hf; lia].
  - destruct rows as [|r rows]; [reflexivity|].
    cbn [chunks_fuel concat].
    rewrite IH, firstn_skipn; auto.
    rewrite length_skipn; lia.
Qed.

Lemma chunks_fuel_sizes size : (1 <= size)%nat ->
  forall fuel rows,
  Forall (fun c => (1 <= length c <= size)%nat) (chunks_fuel fuel size rows).
Proof.
  intros Hs; induction fuel as [|fuel IH]; intros rows.
  - destruct rows; constructor.
  - destruct rows as [|r rows]; [constructor|].
    cbn [chunks_fuel]; constructor; [|apply IH].
    rewrite length_firstn; simpl length; lia.
Qed.

Lemma chunks_fuel_full size : (1 <= size)%nat ->
  forall fuel rows i c,
  nth_error (chunks_fuel fuel size rows) i = Some c ->
  (S i < length (chunks_fuel fuel size rows))%nat ->
  length c = size.
Proof.
  intros Hs; induction fuel as [|fuel IH]; intros rows i c Hc Hi.
  - destruct rows; simpl in Hi; lia.
  - destruct rows as [|r rows]; [simpl in Hi; lia|].
    cbn [chunks_fuel] in *.
    destruct i as [|i]; simpl in Hc, Hi.
    + injection Hc as <-.
      rewrite length_firstn.
      destruct (skipn size (r :: rows)) eqn:E.
      * destruct fuel; simpl in Hi; lia.
      * assert (L : length (skipn size (r :: rows)) = S (length l))
          by (rewrite E; reflexivity).
        rewrite length_skipn in L; lia.
    + eapply IH; eauto; lia.
Qed.

Lemma chunks_concat_any size rows :
  (1 <= size)%nat -> concat (chunks size rows) = rows.
Proof.
  intros Hs; unfold chunks; destruct rows as [|r rows]; [reflexivity|].
  now apply chunks_fuel_concat.
Qed.

(** X16.  On a file that exists, with a chunk size of at least 1,
    [read_csv_in_chunks] logs one record and returns chunks that, put
    end to end, are the rows of the file.  A file without rows gives
    one chunk without rows.  For any other file every chunk has between
    1 and [chunk_size] rows, and every chunk but the last has exactly
    [chunk_size]. *)
Theorem read_csv_in_chunks_partition
        (w : World) (file_path : string) (chunk_size : Z) (rows : list SalesRow) :
  files w file_path = Some rows ->
  1 <= chunk_size ->
  exists cs w',
    read_csv_in_chunks file_path chunk_size w = (Ok (Some cs), w') /\
    log w' = log w ++ [(INFO, ReadingData file_path chunk_size)] /\
    files w' = files w /\ tables w' = tables w /\
    sink_ops w' = sink_ops w /\ figures w' = figures w /\
    concat cs = rows /\
    (rows = [] -> cs = [[]]) /\
    (rows <> [] ->
     Forall (fun c => 1 <= Z.of_nat (length c) <= chunk_size) cs /\
     (forall i c, nth_error cs i = Some c -> (S i < length cs)%nat ->
                  Z.of_nat (length c) = chunk_size)).
Proof.
  intros Hf Hs.
  unfold read_csv_in_chunks, read_csv, try_except_FileNotFoundError,
    logging, bind, ret, raise, get.
  replace (chunk_size <? 1) with false by (symmetry; apply Z.ltb_ge; lia).
  simpl; rewrite Hf; simpl.
  eexists; eexists; split; [reflexivity|]; simpl.
  repeat (split; [reflexivity|]).
  assert (Hn : (1 <= Z.to_nat chunk_size)%nat) by lia.
  split; [now apply chunks_concat_any|].
  split; [now intros ->|].
  intros Hne; unfold chunks.
  destruct rows as [|r rows]; [congruence|].
  split.
  - eapply Forall_impl; [|apply (chunks_fuel_sizes _ Hn)].
    simpl; intros c Hc; lia.
  - intros i c Hc Hi.
    rewrite (chunks_fuel_full _ Hn _ _ _ _ Hc Hi); lia.
Qed.

Lemma read_csv_in_chunks_partition_witness :
  exists cs w',
    read_csv_in_chunks "f.csv" 2
      {| files := fun _ => Some [ {| date := Some "d1"; product_id := 1;
                                     quantity := None; revenue := Some 5%Q |};
                                  {| date := None; product_id := 2;
                                     quantity := None; revenue := None |};
                                  {| date := Some "d3"; product_id := 1;
                                     quantity := Some 1%Q; revenue := Some 2%Q |} ];
         log := []; tables := []; sink_ops := []; figures := [] |}
    = (Ok (Some cs), w') /\
    map (@length SalesRow) cs = [2%nat; 1%nat].
Proof.
  destruct (read_csv_in_chunks_partition
      {| files := fun _ => Some [ {| date := Some "d1"; product_id := 1;
                                     quantity := None; revenue := Some 5%Q |};
                                  {| date := None; product_id := 2;
                                     quantity := None; revenue := None |};
                                  {| date := Some "d3"; product_id := 1;
                                     quantity := Some 1%Q; revenue := Some 2%Q |} ];
         log := []; tables := []; sink_ops := []; figures := [] |}
      "f.csv" 2 _ eq_refl ltac:(lia))
    as (cs & w' & Hrun & _).
  exists cs, w'; split; [exact Hrun|].
  vm_compute in Hrun; injection Hrun as <- _; reflexivity.
Defined.

(** A file that has only its header line: one chunk, without rows. *)
Lemma read_csv_in_chunks_header_only :
  fst (read_csv_in_chunks "f.csv" 2
         {| files := fun _ => Some []; log := []; tables := []; sink_ops := [];
            figures := [] |})
  = Ok (Some [[]]).
Proof. reflexivity. Qed.

(** X17.  A chunk size below 1 is refused by [pd.read_csv] with a
    [ValueError], which the [except FileNotFoundError] clause does not
    catch: [read_csv_in_chunks] raises it, whether the file exists or
    not, after its first log record. *)
Theorem read_csv_in_chunks_bad_chunk_size
        (w : World) (file_path : string) (chunk_size : Z) :
  chunk_size < 1 ->
  exists msg w',
    read_csv_in_chunks file_path chunk_size w = (Raise (ValueError msg), w') /\
    log w' = log w ++ [(INFO, ReadingData file_path chunk_size)] /\
    tables w' = tables w /\ sink_ops w' = sink_ops w.
Proof.
  intros Hs.
  unfold read_csv_in_chunks, read_csv, try_except_FileNotFoundError,
    logging, bind, ret, raise, get.
  replace (chunk_size <? 1) with true by (symmetry; apply Z.ltb_lt; lia).
  simpl; eexists; eexists; split; [reflexivity|]; simpl; auto.
Qed.

Lemma read_csv_in_chunks_bad_chunk_size_witness :
  exists msg w',
    read_csv_in_chunks "f.csv" 0
      {| files := fun _ => None; log := []; tables := []; sink_ops := [];
         figures := [] |}
    = (Raise (ValueError msg), w') /\
    log w' = [(INFO, ReadingData "f.csv" 0)].
Proof.
  destruct (read_csv_in_chunks_bad_chunk_size
              {| files := fun _ => None; log := []; tables := []; sink_ops := [];
                 figures := [] |} "f.csv" 0 ltac:(lia))
    as (msg & w' & Hrun & Hlog & _).
  exists msg, w'; split; [exact Hrun|exact Hlog].
Defined.

(** *** The loop of [main] *)

Lemma read_csv_in_chunks_run w file_path chunk_size rows :
  files w file_path = Some rows ->
  1 <= chunk_size ->
  read_csv_in_chunks file_path chunk_size w
  = (Ok (Some (chunks (Z.to_nat chunk_size) rows)),
     {| files := files w;
        log := log w ++ [(INFO, ReadingData file_path chunk_size)];
        tables := tables w; sink_ops := sink_ops w; figures := figures w |}).
Proof.
  intros Hf Hs.
  unfold read_csv_in_chunks, read_csv, try_except_FileNotFoundError,
    logging, bind, ret, raise, get.
  replace (chunk_size <? 1) with false by (symmetry; apply Z.ltb_ge; lia).
  cbn [files]; rewrite Hf; reflexivity.
Qed.

Section Floats.
Variable float_sum : list Q -> Q.
Variable float_add : Q -> Q -> Q.

Lemma process_chunks_run cs : forall total w,
  process_chunks float_sum float_add cs total w
  = (Ok (running_total float_sum float_add cs total), after_chunks cs w).
Proof.
  induction cs as [|c cs IH]; intros total w.
  - destruct w; unfold after_chunks; simpl; unfold ret.
    now rewrite !app_nil_r.
  - cbn [process_chunks]; unfold bind at 1.
    rewrite clean_data_rows.
    unfold bind, run_sink; rewrite IH.
    unfold running_total, after_chunks; simpl.
    now rewrite <- !app_assoc.
Qed.

(** *** The tables of the sink *)

Lemma get_table_append_same name rows ts :
  get_table name (append_table name rows ts)
  = Some (match get_table name ts with
          | Some old => old ++ rows
          | None => rows
          end).
Proof.
  unfold get_table; induction ts as [|[n old] ts IH]; simpl.
  - now rewrite String.eqb_refl.
  - destruct (String.eqb n name) eqn:E; simpl; rewrite E; auto.
Qed.

Lemma get_table_append_other name name' rows ts :
  name' <> name ->
  get_table name' (append_table name rows ts) = get_table name' ts.
Proof.
  intros Hne; unfold get_table; induction ts as [|[n old] ts IH]; simpl.
  - replace (String.eqb name name') with false; auto.
    symmetry; apply String.eqb_neq; congruence.
  - destruct (String.eqb n name) eqn:E; simpl.
    + apply String.eqb_eq in E; subst n.
      replace (String.eqb name name') with false; auto.
      symmetry; apply String.eqb_neq; congruence.
    + destruct (String.eqb n name'); auto.
Qed.

Lemma get_table_drop_same name ts : get_table name (drop_table name ts) = None.
Proof.
  unfold get_table, drop_table; induction ts as [|[n old] ts IH]; simpl; auto.
  destruct (String.eqb n name) eqn:E; simpl; auto.
  now rewrite E.
Qed.

Lemma get_table_drop_other name name' ts :
  name' <> name -> get_table name' (drop_table name ts) = get_table name' ts.
Proof.
  intros Hne; unfold get_table, drop_table.
  induction ts as [|[n old] ts IH]; simpl; auto.
  destruct (String.eqb n name) eqn:E; simpl.
  - apply String.eqb_eq in E; subst n.
    replace (String.eqb name name') with false; auto.
    symmetry; apply String.eqb_neq; congruence.
  - destruct (String.eqb n name'); auto.
Qed.

Lemma get_table_chunks_same cs : forall ts old,
  get_table "sales" ts = Some old ->
  get_table "sales"
            (fold_left (fun ts c => append_table "sales" (clean_rows c) ts) cs ts)
  = Some (old ++ concat (map clean_rows cs)).
Proof.
  induction cs as [|c cs IH]; intros ts old H; simpl.
  - now rewrite app_nil_r.
  - erewrite IH; [|rewrite get_table_append_same, H; reflexivity].
    now rewrite <- app_assoc.
Qed.

Lemma get_table_chunks_other cs name : name <> "sales"%string -> forall ts,
  get_table name
            (fold_left (fun ts c => append_table "sales" (clean_rows c) ts) cs ts)
  = get_table name ts.
Proof.
  intros Hne; induction cs as [|c cs IH]; intros ts; simpl; auto.
  rewrite IH; now apply get_table_append_other.
Qed.

(** *** The running total *)

Lemma value_at_keys (f : Z -> Q) keys k :
  value_at k (map (fun k' => (k', f k')) keys)
  = if in_dec Z.eq_dec k keys then f k else 0%Q.
Proof.
  unfold value_at; induction keys as [|k' keys IH]; simpl; [reflexivity|].
  destruct (Z.eqb_spec k' k) as [->|Hne].
  - destruct (Z.eq_dec k k); [reflexivity|congruence].
  - rewrite IH.
    destruct (Z.eq_dec k' k); [congruence|].
    destruct (in_dec Z.eq_dec k keys); reflexivity.
Qed.

Lemma value_at_absent k s : ~ In k (map fst s) -> value_at k s = 0%Q.
Proof.
  unfold value_at; induction s as [|[k' v] s IH]; simpl; [reflexivity|].
  intros H; destruct (Z.eqb_spec k' k); [tauto|apply IH; tauto].
Qed.

Lemma value_at_In k v s : NoDup (map fst s) -> In (k, v) s -> value_at k s = v.
Proof.
  unfold value_at; induction s as [|[k' v'] s IH]; simpl; [tauto|].
  intros Hnd [E|Hin]; inversion_clear Hnd as [|? ? Hk Hs].
  - injection E as -> ->; now rewrite Z.eqb_refl.
  - destruct (Z.eqb_spec k' k) as [->|]; [|auto].
    exfalso; apply Hk, in_map_iff; exists (k, v); auto.
Qed.

Lemma series_add_keys a b :
  map fst (series_add float_add a b) = sort Z.leb (unique Z.eqb (map fst a ++ map fst b)).
Proof. unfold series_add; rewrite map_map; apply map_id. Qed.

Lemma series_add_keys_In a b k :
  In k (map fst (series_add float_add a b)) <-> In k (map fst a) \/ In k (map fst b).
Proof.
  rewrite series_add_keys, <- in_app_iff.
  rewrite <- (unique_In Z.eqb Z.eqb_eq (map fst a ++ map fst b) k).
  split; apply Permutation_in; [symmetry|]; apply sort_perm.
Qed.


Lemma revenue_by_product_keys_In chunk k :
  In k (map fst (revenue_by_product float_sum chunk))
  <-> exists r, In r chunk /\ product_id r = k.
Proof.
  unfold revenue_by_product; rewrite map_map; simpl.
  rewrite (groupby_keys_In Z.eqb Z.leb (fun r => Some (product_id r)) Z.eqb_eq).
  split; intros (r & Hr & E); exists r; split; auto; congruence.
Qed.

Lemma running_total_keys_In k cs : forall start,
  In k (map fst (running_total float_sum float_add cs start))
  <-> In k (map fst start)
      \/ exists r, In r (concat (map clean_rows cs)) /\ product_id r = k.
Proof.
  induction cs as [|c cs IH]; intros start.
  - simpl; split; [tauto|intros [H|(r & [] & _)]; exact H].
  - change (running_total float_sum float_add (c :: cs) start)
      with (running_total float_sum float_add cs
              (series_add float_add start
                          (revenue_by_product float_sum (clean_rows c)))).
    rewrite IH, series_add_keys_In, revenue_by_product_keys_In.
    simpl map; simpl concat.
    split.
    + intros [[H|(r & Hr & E)]|(r & Hr & E)]; auto;
        right; exists r; split; auto; apply in_or_app; auto.
    + intros [H|(r & Hr & E)]; auto.
      apply in_app_or in Hr; destruct Hr; eauto.
Qed.



(** One step of a run: what a call does to the world, and the
    continuation that takes over. *)
Lemma bind_assoc {S A B C} (m : Prog S A) (k : A -> Prog S B) (k' : B -> Prog S C) s :
  bind (bind m k) k' s = bind m (fun a => bind (k a) k') s.
Proof. unfold bind; destruct (m s) as [[a|e] s']; reflexivity. Qed.

Lemma bind_logging {A} lvl msg (k : unit -> Prog World A) w :
  bind (logging lvl msg) k w
  = k tt {| files := files w; log := log w ++ [(lvl, msg)]; tables := tables w;
            sink_ops := sink_ops w; figures := figures w |}.
Proof. reflexivity. Qed.

Lemma bind_run_sink {A} op (k : unit -> Prog World A) w :
  bind (run_sink op) k w
  = k tt {| files := files w; log := log w;
            tables := match op with
                      | DropTableIfExists t => drop_table t (tables w)
                      | Append t rows => append_table t rows (tables w)
                      end;
            sink_ops := sink_ops w ++ [op]; figures := figures w |}.
Proof. reflexivity. Qed.

Lemma bind_savefig {A} output_path insights (k : unit -> Prog World A) w :
  bind (savefig output_path insights) k w
  = k tt {| files := files w; log := log w; tables := tables w;
            sink_ops := sink_ops w;
            figures := figures w ++ [(output_path, insights)] |}.
Proof. reflexivity. Qed.

Lemma bind_process_chunks {A} cs total (k : list (Z * Q) -> Prog World A) w :
  bind (process_chunks float_sum float_add cs total) k w
  = k (running_total float_sum float_add cs total) (after_chunks cs w).
Proof. unfold bind; now rewrite process_chunks_run. Qed.

Lemma bind_read_csv_in_chunks {A} w file_path chunk_size rows
      (k : option (list (list SalesRow)) -> Prog World A) :
  files w file_path = Some rows ->
  1 <= chunk_size ->
  bind (read_csv_in_chunks file_path chunk_size) k w
  = k (Some (chunks (Z.to_nat chunk_size) rows))
      {| files := files w;
         log := log w ++ [(INFO, ReadingData file_path chunk_size)];
         tables := tables w; sink_ops := sink_ops w; figures := figures w |}.
Proof.
  intros Hf Hs; unfold bind at 1.
  now rewrite (read_csv_in_chunks_run _ _ _ rows Hf Hs).
Qed.

Lemma bind_plot_bar {A} insights (k : unit -> Prog World A) w :
  insights <> [] -> bind (plot_bar insights) k w = k tt w.
Proof. destruct insights; [congruence|reflexivity]. Qed.

Ltac run_step :=
  first [ rewrite bind_assoc
        | rewrite bind_logging
        | rewrite bind_run_sink
        | rewrite bind_savefig
        | rewrite bind_process_chunks ];
  cbv beta iota; cbn [files log tables sink_ops figures].

Lemma chunks_concat rows : concat (chunks (Z.to_nat CHUNK_SIZE) rows) = rows.
Proof. apply chunks_concat_any; unfold CHUNK_SIZE; lia. Qed.

Lemma cleaned_chunks rows :
  concat (map clean_rows (chunks (Z.to_nat CHUNK_SIZE) rows)) = clean_rows rows.
Proof. now rewrite <- clean_rows_concat, chunks_concat. Qed.

(** The products of the running total are the products of the cleaned
    rows; with a cleaned row there is a product to chart. *)
Lemma running_total_products rows k :
  In k (map fst (running_total float_sum float_add
                               (chunks (Z.to_nat CHUNK_SIZE) rows) []))
  <-> exists r, In r (clean_rows rows) /\ product_id r = k.
Proof. rewrite running_total_keys_In, cleaned_chunks; simpl; tauto. Qed.

Lemma nlargest_nonempty rows :
  clean_rows rows <> [] ->
  nlargest 10 (running_total float_sum float_add
                             (chunks (Z.to_nat CHUNK_SIZE) rows) []) <> [].
Proof.
  intros Hrows.
  destruct (clean_rows rows) as [|r0 rest] eqn:E; [congruence|].
  assert (H0 : In (product_id r0)
                  (map fst (running_total float_sum float_add
                                          (chunks (Z.to_nat CHUNK_SIZE) rows) []))).
  { apply running_total_products; rewrite E; exists r0; split; [now left|reflexivity]. }
  unfold nlargest.
  set (total := running_total _ _ _ _) in *.
  assert (Hperm : Permutation total (sort_values_stable _ snd total))
    by apply sort_values_stable_contract.
  apply (Permutation_in _ (Permutation_map fst Hperm)) in H0.
  destruct (sort_values_stable _ snd total); [destruct H0|discriminate].
Qed.

(** The state [main] leaves behind when the file exists. *)
Lemma main_run (w : World) (rows : list SalesRow) :
  files w CSV_FILE = Some rows ->
  clean_rows rows <> [] ->
  let cs := chunks (Z.to_nat CHUNK_SIZE) rows in
  let top := nlargest 10 (running_total float_sum float_add cs []) in
  exists w',
    main float_sum float_add w = (Ok tt, w') /\
    files w' = files w /\
    sink_ops w' = sink_ops w ++ DropTableIfExists "sales"
                             :: map (fun c => Append "sales" (clean_rows c)) cs /\
    tables w' = fold_left (fun ts c => append_table "sales" (clean_rows c) ts)
                          cs (drop_table "sales" (tables w)) /\
    figures w' = figures w ++ [(VISUALISATION_FILE, top)] /\
    log w' = log w
             ++ [(INFO, StartingPipeline); (INFO, ReadingData CSV_FILE CHUNK_SIZE);
                 (INFO, ProcessingChunks)]
             ++ flat_map (fun _ => [(INFO, CleaningChunk);
                                    (INFO, ChunkCleaningComplete)]) cs
             ++ [(INFO, AllChunksProcessed); (INFO, GeneratingInsights);
                 (INFO, Top10Products top); (INFO, CreatingVisualisation);
                 (INFO, VisualisationSaved VISUALISATION_FILE);
                 (INFO, DataStored DB_FILE); (INFO, PipelineFinished)].
Proof.
  intros Hf Hrows cs top.
  assert (Htop : top <> []) by now apply nlargest_nonempty.
  unfold main, create_visualisation.
  rewrite bind_logging.
  rewrite (bind_read_csv_in_chunks _ _ _ rows) by (auto; unfold CHUNK_SIZE; lia).
  fold cs; cbv beta iota; cbn [files log tables sink_ops figures].
  clearbody cs.
  repeat run_step.
  fold top; clearbody top.
  rewrite (bind_plot_bar top) by exact Htop.
  repeat run_step.
  unfold logging, after_chunks; cbn [files log tables sink_ops figures].
  eexists; split; [reflexivity|].
  cbn [files log tables sink_ops figures].
  split; [reflexivity|].
  split; [rewrite <- app_assoc; reflexivity|].
  split; [reflexivity|].
  split; [reflexivity|].
  rewrite <- !app_assoc; reflexivity.
Qed.

End Floats.

(** X18.  When the file exists and has a row with a date, a run of [main]
    leaves in the table "sales" exactly the cleaned rows of the file, in
    the order of the file, whatever the table held before: the table is
    dropped first, then one batch is appended per chunk, and the batches
    put end to end are the cleaned rows.  The other tables and the files
    are as before. *)
Theorem main_stores_cleaned_rows
        (float_sum : list Q -> Q) (float_add : Q -> Q -> Q)
        (w : World) (rows : list SalesRow) :
  files w CSV_FILE = Some rows ->
  clean_rows rows <> [] ->
  exists w' batches,
    main float_sum float_add w = (Ok tt, w') /\
    sink_ops w' = sink_ops w ++ DropTableIfExists "sales"
                             :: map (Append "sales") batches /\
    concat batches = clean_rows rows /\
    get_table "sales" (tables w') = Some (clean_rows rows) /\
    (forall name, name <> "sales"%string ->
                  get_table name (tables w') = get_table name (tables w)) /\
    files w' = files w.
Proof.
  intros Hf Hrows.
  destruct (main_run float_sum float_add w rows Hf Hrows)
    as (w' & Hrun & Hfiles & Hops & Htab & _).
  exists w', (map clean_rows (chunks (Z.to_nat CHUNK_SIZE) rows)).
  split; [exact Hrun|].
  split; [now rewrite Hops, map_map|].
  split; [apply cleaned_chunks|].
  split; [|split; [|exact Hfiles]].
  - rewrite Htab, <- cleaned_chunks.
    destruct (chunks (Z.to_nat CHUNK_SIZE) rows) as [|c cs] eqn:E.
    + exfalso; apply Hrows.
      rewrite <- cleaned_chunks, E; reflexivity.
    + cbn [fold_left].
      erewrite get_table_chunks_same;
        [reflexivity|rewrite get_table_append_same, get_table_drop_same; reflexivity].
  - intros name Hne.
    rewrite Htab, get_table_chunks_other by exact Hne.
    now apply get_table_drop_other.
Qed.

Lemma main_stores_cleaned_rows_witness :
  exists w',
    main sum_float Qplus
         {| files := fun _ => Some [ {| date := Some "d1"; product_id := 7;
                                        quantity := None; revenue := Some 5%Q |};
                                     {| date := None; product_id := 8;
                                        quantity := Some 1%Q; revenue := Some 9%Q |} ];
            log := []; tables := [("sales", []); ("stock", [])];
            sink_ops := []; figures := [] |}
    = (Ok tt, w') /\
    get_table "sales" (tables w')
    = Some [ {| date := Some "d1"; product_id := 7;
                quantity := Some 0%Q; revenue := Some 5%Q |} ] /\
    get_table "stock" (tables w') = Some [].
Proof.
  destruct (main_stores_cleaned_rows sum_float Qplus
      {| files := fun _ => Some [ {| date := Some "d1"; product_id := 7;
                                     quantity := None; revenue := Some 5%Q |};
                                  {| date := None; product_id := 8;
                                     quantity := Some 1%Q; revenue := Some 9%Q |} ];
         log := []; tables := [("sales", []); ("stock", [])];
         sink_ops := []; figures := [] |} _ eq_refl ltac:(discriminate))
    as (w' & batches & Hrun & _ & _ & Hsales & Hother & _).
  exists w'; split; [exact Hrun|split; [exact Hsales|]].
  rewrite Hother by discriminate; reflexivity.
Defined.



End PipelineRun.

(* ================================================================== *)
(** ** API_test/weather_service.py: retries and backoff          *)
(* ================================================================== *)

Module WeatherServiceProofs.
Import WeatherService.

(** *** The retry loop of [_make_request] *)


Lemma after_after w r1 p1 r2 p2 :
  after (after w r1 p1) r2 p2 = after w (r1 ++ r2) (p1 ++ p2).
Proof. unfold after; simpl; now rewrite !app_assoc. Qed.

Lemma pause_nonneg b i : (0 <= b)%Q -> Pandas.Qltb (pause b i) 0 = false.
Proof.
  intros Hb; unfold Pandas.Qltb, pause.
  apply negb_false_iff, Qle_bool_iff, Qmult_le_0_compat; auto.
  change 0%Q with (inject_Z 0); rewrite <- Zle_Qle.
  apply Z.pow_nonneg; lia.
Qed.

Lemma failure_request_json w url params :
  failure (network w (length (sent w)) (url, params)) <> None ->
  exists e, request_json url params w = (inl e, after w [(url, params)] [])
            /\ failure (network w (length (sent w)) (url, params)) = Some e
            /\ forall msg, e <> ValueError msg.
Proof.
  unfold request_json, requests_get, failure, after; simpl.
  rewrite app_nil_r.
  destruct (network w (length (sent w)) (url, params)) as [s j|err]; intros H.
  - unfold raise_for_status in *.
    destruct ((400 <=? s) && (s <? 600)).
    + eexists; repeat split; discriminate.
    + destruct j as [document|]; simpl in *; [congruence|].
      eexists; repeat split; discriminate.
  - eexists; repeat split; discriminate.
Qed.

Lemma success_request_json w url params s j :
  network w (length (sent w)) (url, params) = Response s (Some j) ->
  raise_for_status s = inr tt ->
  request_json url params w = (inr j, after w [(url, params)] []).
Proof.
  unfold request_json, requests_get, after; simpl; intros -> ->.
  now rewrite app_nil_r.
Qed.

Section Loop.
Variables (url : string) (params : list (string * string)).
Variables (retries : Z) (b : Q).
Hypothesis b_nonneg : (0 <= b)%Q.

End Loop.






(** An answer 200 whose body is not JSON counts as a failure: with the
    defaults it is asked for three times, and the decoding error of the
    last attempt is raised. *)
Lemma make_request_body_not_json :
  _make_request "u" [] 3 (3 # 10)
    {| network := fun _ _ => Response 200 None; sent := []; slept := [] |}
  = (inl JSONDecodeError,
     {| network := fun _ _ => Response 200 None;
        sent := [("u", []); ("u", []); ("u", [])]; slept := [3 # 10; 6 # 10] |}).
Proof. reflexivity. Qed.

(** X22.  With [retries] zero or negative the loop body never runs:
    [_make_request] sends nothing and returns [None]. *)
Theorem make_request_without_attempt (w : World) url params (retries : Z) (b : Q) :
  retries <= 0 ->
  _make_request url params retries b w = (inr None, w).
Proof.
  intros H; unfold _make_request, range.
  replace (Z.to_nat retries) with 0%nat by lia; reflexivity.
Qed.

Lemma make_request_without_attempt_witness :
  _make_request "u" [] 0 (3 # 10)
    {| network := fun _ _ => Response 200 (Some "{}"); sent := []; slept := [] |}
  = (inr None,
     {| network := fun _ _ => Response 200 (Some "{}"); sent := []; slept := [] |}).
Proof.
  apply (make_request_without_attempt
           {| network := fun _ _ => Response 200 (Some "{}"); sent := []; slept := [] |}
           "u" [] 0 (3 # 10)).
  lia.
Defined.

Lemma request_json_cases w url params :
  (exists j, request_json url params w = (inr j, after w [(url, params)] []))
  \/ (exists e, request_json url params w = (inl e, after w [(url, params)] [])
                /\ forall msg, e <> ValueError msg).
Proof.
  destruct (failure (network w (length (sent w)) (url, params))) as [e|] eqn:E.
  - right.
    destruct (failure_request_json w url params) as (e' & H & _ & Hne);
      [congruence|eauto].
  - left; unfold failure in E.
    destruct (network w (length (sent w)) (url, params)) as [s j|err] eqn:Ea;
      [|discriminate].
    destruct (raise_for_status s) as [e|[]] eqn:Es; [discriminate|].
    destruct j as [document|]; [|discriminate].
    exists document; eapply success_request_json; eauto.
Qed.

Section Bound.
Variables (url : string) (params : list (string * string)).
Variables (retries : Z) (b : Q).
Hypothesis b_nonneg : (0 <= b)%Q.

Lemma attempts_bounded n : forall i0 w,
  Z.of_nat (i0 + S n) = retries ->
  exists m,
    (1 <= m <= S n)%nat /\
    snd (attempts (map Z.of_nat (seq i0 (S n))) url params retries b w)
    = after w (repeat (url, params) m) (map (pause b) (seq i0 (m - 1))) /\
    fst (attempts (map Z.of_nat (seq i0 (S n))) url params retries b w)
    <> inr None.
Proof.
  induction n as [|n IH]; intros i0 w Hr.
  - exists 1%nat; split; [lia|].
    simpl seq; simpl map; cbn [attempts].
    destruct (request_json_cases w url params) as [(j & ->)|(e & -> & Hne)].
    + split; [reflexivity|discriminate].
    + replace (Z.of_nat i0 <? retries - 1) with false
        by (symmetry; apply Z.ltb_ge; lia).
      destruct e; split; try reflexivity; discriminate.
  - remember (S n) as n'.
    simpl seq; simpl map; cbn [attempts].
    destruct (request_json_cases w url params) as [(j & ->)|(e & -> & Hne)].
    + exists 1%nat; split; [lia|split; [reflexivity|discriminate]].
    + replace (Z.of_nat i0 <? retries - 1) with true
        by (symmetry; apply Z.ltb_lt; lia).
      unfold sleep; fold (pause b i0); rewrite pause_nonneg by auto.
      replace {| network := network (after w [(url, params)] []);
                 sent := sent (after w [(url, params)] []);
                 slept := slept (after w [(url, params)] []) ++ [pause b i0] |}
        with (after w [(url, params)] [pause b i0])
        by (unfold after; simpl; now rewrite app_nil_r).
      subst n'.
      destruct (IH (S i0) (after w [(url, params)] [pause b i0])) as (m & Hm & Hw & Hres);
        [lia|].
      exists (S m); split; [lia|].
      assert (Eafter : after (after w [(url, params)] [pause b i0])
                             (repeat (url, params) m)
                             (map (pause b) (seq (S i0) (m - 1)))
                       = after w (repeat (url, params) (S m))
                               (map (pause b) (seq i0 (S m - 1)))).
      { rewrite after_after.
        replace (S m - 1)%nat with (S (m - 1)) by lia; reflexivity. }
      rewrite <- Eafter, <- Hw.
      destruct e; try (split; [reflexivity|exact Hres]).
      exfalso; eapply Hne; reflexivity.
Qed.
End Bound.

(** X23.  Whatever the network answers, [get_weather] and [get_forecast] send
    between one and three requests, all of them the same: to the
    endpoint under the base URL set by [__init__], with the postal code
    suffixed by ",gb" and the API key.  After m requests they have slept
    m - 1 times, 0.3 s and then 0.6 s, and they never return [None]. *)
Theorem get_weather_and_forecast_requests (key postal_code : string) (w : World) :
  let params := [("zip", (postal_code ++ ",gb")%string); ("appid", key)] in
  (exists m,
     (1 <= m <= 3)%nat /\
     snd (get_weather (init key) postal_code w)
     = after w (repeat ("http://api.openweathermap.org/data/2.5/weather"%string,
                        params) m)
             (firstn (m - 1) [3 # 10; 6 # 10]) /\
     fst (get_weather (init key) postal_code w) <> inr None) /\
  (exists m,
     (1 <= m <= 3)%nat /\
     snd (get_forecast (init key) postal_code w)
     = after w (repeat ("http://api.openweathermap.org/data/2.5/forecast"%string,
                        params) m)
             (firstn (m - 1) [3 # 10; 6 # 10]) /\
     fst (get_forecast (init key) postal_code w) <> inr None).
Proof.
  intros params.
  assert (Hb : (0 <= default_backoff_factor)%Q) by discriminate.
  assert (Hp : forall m, (1 <= m <= 3)%nat ->
                         map (pause default_backoff_factor) (seq 0 (m - 1))
                         = firstn (m - 1) [3 # 10; 6 # 10]).
  { intros m Hm.
    assert (Hc : m = 1%nat \/ m = 2%nat \/ m = 3%nat) by lia.
    destruct Hc as [-> | [-> | ->]]; reflexivity. }
  split.
  - destruct (attempts_bounded "http://api.openweathermap.org/data/2.5/weather"
                params default_retries default_backoff_factor Hb 2 0%nat w eq_refl)
      as (m & Hm & Hw & Hres).
    exists m; split; [exact Hm|split; [|exact Hres]].
    rewrite <- Hp by exact Hm; exact Hw.
  - destruct (attempts_bounded "http://api.openweathermap.org/data/2.5/forecast"
                params default_retries default_backoff_factor Hb 2 0%nat w eq_refl)
      as (m & Hm & Hw & Hres).
    exists m; split; [exact Hm|split; [|exact Hres]].
    rewrite <- Hp by exact Hm; exact Hw.
Qed.

End WeatherServiceProofs.
